(** * Forgetti: the optimizer scope, the memoizing optimizer and the simplifier

    A shallow embedding of
      - [core/optimizer-scope.ts]  (class [OptimizerScope]),
      - [core/simplify-expressions.ts] ([getBooleanishState] and the visitor
        of [simplifyExpressions]),
      - [core/optimizer.ts] (class [Optimizer]).

    The Babel AST is an inductive type; the mutable scope objects, the
    "current scope" pointer of the optimizer and Babel's uid generator are
    threaded explicitly through a state monad. *)

From Stdlib Require Import List String ZArith Bool Lia Arith.
Import ListNotations.
Local Open Scope string_scope.
Set Warnings "-register-all".

(* ================================================================== *)
(** ** The syntax tree *)
(* ================================================================== *)

(** An identifier node.  The weak tables of the scope are keyed by the
    identity of identifier nodes, so every node carries what identifies it:
    [Src n name] is the [n]-th identifier node of the input program,
    [Uid n prefix] is the node returned by the [n]-th call of
    [path.scope.generateUidIdentifier(prefix)], and [Import name] is the
    canonical identifier [getImportIdentifier] returns for a runtime
    import. *)
Inductive ident : Type :=
| Src (node : nat) (name : string)
| Uid (n : nat) (prefix : string)
| Import (name : string).

Definition ident_eqb (a b : ident) : bool :=
  match a, b with
  | Src n s, Src m t => Nat.eqb n m && String.eqb s t
  | Uid n s, Uid m t => Nat.eqb n m && String.eqb s t
  | Import s, Import t => String.eqb s t
  | _, _ => false
  end.

(** The wrappers [getBooleanishState] and [isNestedExpression] look
    through. *)
Inductive nested_kind : Type :=
| ParenthesizedExpression
| TypeCastExpression
| TSAsExpression
| TSSatisfiesExpression
| TSNonNullExpression
| TSTypeAssertion
| TSInstantiationExpression.

(** Expressions.  [ObjectExpression] holds plain [ObjectProperty] members
    with identifier keys that are not computed, arrays and argument lists
    hold expressions; [OtherExpression] stands for every node kind
    [optimizeExpression] and [getBooleanishState] send to their default
    case ([this], [super], [yield], ...).  Function expressions, [new],
    template literals and JSX are outside the fragment. *)
Inductive expr : Type :=
| Identifier (i : ident)
| BooleanLiteral (value : bool)
| NumericLiteral (value : Z)
| StringLiteral (value : string)
| BigIntLiteral (value : string)
| NullLiteral
| RegExpLiteral (pattern : string)
| NestedExpression (k : nested_kind) (expression : expr)
| MemberExpression (object property : expr) (computed : bool)
| ConditionalExpression (test consequent alternate : expr)
| BinaryExpression (operator : string) (left right : expr)
| LogicalExpression (operator : string) (left right : expr)
| UnaryExpression (operator : string) (argument : expr)
| UpdateExpression (operator : string) (argument : expr) (prefix : bool)
| CallExpression (callee : expr) (arguments : list expr)
| AssignmentExpression (operator : string) (left right : expr)
| ArrayExpression (elements : list expr)
| ObjectExpression (properties : list (string * expr))
| SequenceExpression (expressions : list expr)
| OtherExpression (type : string).

(** A declarator [id = init]; the left side is an LVal, kept as an
    expression (an identifier, or a pattern as [OtherExpression]). *)
Definition declarator : Type := (expr * option expr)%type.

(** The head of a loop: everything of a [t.Loop] node but its body.  The
    optimizer never looks inside the head, but for the right side of a
    for-in / for-of. *)
Inductive loop_head : Type :=
| WhileHead (test : expr)
| DoWhileHead (test : expr)
| ForHead (init : option (string * list declarator)) (test update : option expr)
| ForInHead (left right : expr)
| ForOfHead (left right : expr).

(** Statements.  [OtherStatement] stands for the kinds [optimizeStatement]
    has no case for (break, continue, empty, debugger, declarations of
    functions and classes, ...).  A [catch] clause is its body; [switch]
    statements are outside the fragment. *)
Inductive stmt : Type :=
| ExpressionStatement (expression : expr)
| VariableDeclaration (kind : string) (declarations : list declarator)
| ReturnStatement (argument : option expr)
| ThrowStatement (argument : expr)
| BlockStatement (body : list stmt)
| IfStatement (test : expr) (consequent : stmt) (alternate : option stmt)
| LoopStatement (head : loop_head) (body : stmt)
| TryStatement (block : list stmt) (handler : option (list stmt))
               (finalizer : option (list stmt))
| LabeledStatement (label : string) (body : stmt)
| OtherStatement (type : string).

(* ================================================================== *)
(** ** The simplifier ([simplify-expressions.ts]) *)
(* ================================================================== *)

Module Simplifier.

Inductive LiteralState : Type := truthy | falsy | nullish | indeterminate.

(** [getBooleanishState].  A numeric literal is observed only through its
    comparison with zero. *)
Fixpoint getBooleanishState (node : expr) : LiteralState :=
  match node with
  | BooleanLiteral value => if value then truthy else falsy
  | NumericLiteral value => if Z.eqb value 0 then falsy else truthy
  | NullLiteral => nullish
  | StringLiteral value => if String.eqb value "" then falsy else truthy
  | BigIntLiteral value => if String.eqb value "0" then falsy else truthy
  | Identifier _ => indeterminate
  | NestedExpression _ expression => getBooleanishState expression
  | _ => indeterminate
  end.

(** The [exit] handler of [LogicalExpression]: the node that stands at the
    path once the handler has run ([p.replaceWith], or nothing). *)
Definition exitLogicalExpression (operator : string) (left right : expr) : expr :=
  match getBooleanishState left with
  | nullish => if String.eqb operator "??" then right else left
  | falsy => if String.eqb operator "||" then right else left
  | truthy => if String.eqb operator "&&" then right else left
  | indeterminate => LogicalExpression operator left right
  end.

(** The [exit] handler of [ConditionalExpression]. *)
Definition exitConditionalExpression (test consequent alternate : expr) : expr :=
  match getBooleanishState test with
  | truthy => consequent
  | indeterminate => ConditionalExpression test consequent alternate
  | _ => alternate
  end.

(** The [exit] handler of [UnaryExpression]: [Some node] when it calls
    [p.replaceWith(node)], [None] when it leaves the path as it is.  The
    [void] case installs a new node [void 0] whatever the literal was. *)
Definition exitUnaryExpression (operator : string) (argument : expr)
  : option expr :=
  let state := getBooleanishState argument in
  if String.eqb operator "void" then
    match state with
    | indeterminate => None
    | _ => Some (UnaryExpression "void" (NumericLiteral 0))
    end
  else if String.eqb operator "!" then
    match state with
    | truthy => Some (BooleanLiteral false)
    | indeterminate => None
    | _ => Some (BooleanLiteral true)
    end
  else None.

(** The traversal at a unary expression whose argument has been visited.
    The [exit] handler runs; a node it installs with [p.replaceWith] is
    queued by the traversal and visited in turn, so a replacement that is
    again a unary expression meets the handler again, while a boolean
    literal, which has no handler, stays.  [fuel] bounds the number of
    visits: the result is the node the path comes to rest at, or [None]
    when it has not come to rest within [fuel] visits. *)
Fixpoint visitUnaryExpression (fuel : nat) (operator : string)
    (argument : expr) : option expr :=
  match fuel with
  | O => None
  | S fuel' =>
    match exitUnaryExpression operator argument with
    | None => Some (UnaryExpression operator argument)
    | Some (UnaryExpression operator' argument') =>
      visitUnaryExpression fuel' operator' argument'
    | Some node => Some node
    end
  end.

(** The literal kinds [getBooleanishState] decides, seen through the
    nesting wrappers. *)
Fixpoint isDecidedLiteral (node : expr) : bool :=
  match node with
  | BooleanLiteral _ | NumericLiteral _ | StringLiteral _
  | BigIntLiteral _ | NullLiteral => true
  | NestedExpression _ expression => isDecidedLiteral expression
  | _ => false
  end.

End Simplifier.

(* ================================================================== *)
(** ** Optimized expressions and the scope ([optimizer-scope.ts]) *)
(* ================================================================== *)

(** [deps?: t.Expression | t.Expression[]] of an [OptimizedExpression]. *)
Inductive Deps : Type :=
| DepsUndefined
| DepsOne (e : expr)
| DepsList (l : list expr).

(** [OptimizedExpression]: [constant] is [None] when the field is left
    [undefined]. *)
Record OptimizedExpression : Type := optimizedExpr {
  oexpr : expr;
  odeps : Deps;
  oconstant : option bool
}.

(** The two caches. *)
Inductive CacheType : Type := memoType | refType.

(** Modelled from the spec: [./imports] and the preset are not among the
    sources.  The four runtime symbols carry the names of the spec's table
    of the emitted runtime contract, the two hooks the names of
    [preset.runtime]; each stands for the identifier [getImportIdentifier]
    resolves it to. *)
Definition RUNTIME_BRANCH : ident := Import "branch".
Definition RUNTIME_CACHE : ident := Import "cache".
Definition RUNTIME_REF : ident := Import "ref".
Definition RUNTIME_EQUALS : ident := Import "equals".
Definition preset_useMemo : ident := Import "useMemo".
Definition preset_useRef : ident := Import "useRef".

(** One [OptimizerScope] object.  The [parent] link is not a field: the
    optimizer state below keeps the chain of scopes from the current one
    up to the root, and a scope's parent is the next one in that chain.
    The object [loop] has the two declared properties [memo] and [ref];
    [loop_undefined] is the property named "undefined", which
    [this.loop[type]] reads and writes when [createLoopHeader] is called
    without an argument. *)
Record OptimizerScope : Type := mkScope {
  memo : option ident;
  ref : option ident;
  indecesMemo : nat;
  indecesRef : nat;
  isInLoop : bool;
  statements : list stmt;
  loop_memo : option ident;
  loop_ref : option ident;
  loop_undefined : option ident;
  loopIndex : option ident;
  optimizedID : list (ident * OptimizedExpression);
  constants : list ident
}.

(** [new OptimizerScope(ctx, path, parent, isInLoop)]. *)
Definition newScope (inLoop : bool) : OptimizerScope :=
  mkScope None None 0 0 inLoop [] None None None None [] [].

(** The optimizer: the current scope, its ancestors (parent first, root
    last) and the counter of Babel's uid generator. *)
Record Optimizer : Type := mkOptimizer {
  scope : OptimizerScope;
  parents : list OptimizerScope;
  uids : nat
}.

(** *** The state monad of the optimizer *)

Definition M (A : Type) : Type := Optimizer -> A * Optimizer.

Definition ret {A} (a : A) : M A := fun st => (a, st).

Definition bind {A B} (m : M A) (f : A -> M B) : M B :=
  fun st => let (a, st') := m st in f a st'.

Notation "x <- m ;; k" := (bind m (fun x => k))
  (at level 61, m at next level, right associativity).
Notation "m ;;; k" := (bind m (fun _ => k))
  (at level 61, right associativity).

(** [this.scope]. *)
Definition getScope : M OptimizerScope := fun st => (scope st, st).

(** [path.scope.generateUidIdentifier(prefix)]. *)
Definition generateUidIdentifier (prefix : string) : M ident :=
  fun st => (Uid (uids st) prefix,
             mkOptimizer (scope st) (parents st) (S (uids st))).

(** *** Field updates of a scope *)

Definition set_memo (v : option ident) (s : OptimizerScope) :=
  mkScope v (ref s) (indecesMemo s) (indecesRef s) (isInLoop s) (statements s)
    (loop_memo s) (loop_ref s) (loop_undefined s) (loopIndex s)
    (optimizedID s) (constants s).
Definition set_ref (v : option ident) (s : OptimizerScope) :=
  mkScope (memo s) v (indecesMemo s) (indecesRef s) (isInLoop s) (statements s)
    (loop_memo s) (loop_ref s) (loop_undefined s) (loopIndex s)
    (optimizedID s) (constants s).
Definition set_indecesMemo (v : nat) (s : OptimizerScope) :=
  mkScope (memo s) (ref s) v (indecesRef s) (isInLoop s) (statements s)
    (loop_memo s) (loop_ref s) (loop_undefined s) (loopIndex s)
    (optimizedID s) (constants s).
Definition set_indecesRef (v : nat) (s : OptimizerScope) :=
  mkScope (memo s) (ref s) (indecesMemo s) v (isInLoop s) (statements s)
    (loop_memo s) (loop_ref s) (loop_undefined s) (loopIndex s)
    (optimizedID s) (constants s).
Definition set_statements (v : list stmt) (s : OptimizerScope) :=
  mkScope (memo s) (ref s) (indecesMemo s) (indecesRef s) (isInLoop s) v
    (loop_memo s) (loop_ref s) (loop_undefined s) (loopIndex s)
    (optimizedID s) (constants s).
Definition set_loop_memo (v : option ident) (s : OptimizerScope) :=
  mkScope (memo s) (ref s) (indecesMemo s) (indecesRef s) (isInLoop s)
    (statements s) v (loop_ref s) (loop_undefined s) (loopIndex s)
    (optimizedID s) (constants s).
Definition set_loop_ref (v : option ident) (s : OptimizerScope) :=
  mkScope (memo s) (ref s) (indecesMemo s) (indecesRef s) (isInLoop s)
    (statements s) (loop_memo s) v (loop_undefined s) (loopIndex s)
    (optimizedID s) (constants s).
Definition set_loop_undefined (v : option ident) (s : OptimizerScope) :=
  mkScope (memo s) (ref s) (indecesMemo s) (indecesRef s) (isInLoop s)
    (statements s) (loop_memo s) (loop_ref s) v (loopIndex s)
    (optimizedID s) (constants s).
Definition set_loopIndex (v : option ident) (s : OptimizerScope) :=
  mkScope (memo s) (ref s) (indecesMemo s) (indecesRef s) (isInLoop s)
    (statements s) (loop_memo s) (loop_ref s) (loop_undefined s) v
    (optimizedID s) (constants s).
Definition set_optimizedID (v : list (ident * OptimizedExpression))
    (s : OptimizerScope) :=
  mkScope (memo s) (ref s) (indecesMemo s) (indecesRef s) (isInLoop s)
    (statements s) (loop_memo s) (loop_ref s) (loop_undefined s) (loopIndex s)
    v (constants s).
Definition set_constants (v : list ident) (s : OptimizerScope) :=
  mkScope (memo s) (ref s) (indecesMemo s) (indecesRef s) (isInLoop s)
    (statements s) (loop_memo s) (loop_ref s) (loop_undefined s) (loopIndex s)
    (optimizedID s) v.

(** *** Syntax builders ([@babel/types]) *)

Definition numericLiteral (n : nat) : expr := NumericLiteral (Z.of_nat n).
Definition variableDeclarator (id : ident) (init : option expr) : declarator :=
  (Identifier id, init).
Definition letDeclaration (declarations : list declarator) : stmt :=
  VariableDeclaration "let" declarations.
Definition callOf (callee : ident) (args : list expr) : expr :=
  CallExpression (Identifier callee) args.

(** *** [mergeVariableDeclaration] *)

(** The body of the [for] loop, with the two accumulators [stack] and
    [newStatements]; the function returns [newStatements] as it stands when
    the loop ends. *)
Fixpoint mergeLoop (statements : list stmt) (stack : list declarator)
    (newStatements : list stmt) : list stmt :=
  match statements with
  | [] => newStatements
  | value :: rest =>
    let flush :=
      mergeLoop rest []
        (newStatements
           ++ (match stack with [] => [] | _ => [letDeclaration stack] end)
           ++ [value]) in
    match value with
    | VariableDeclaration kind declarations =>
      if String.eqb kind "let"
      then mergeLoop rest (stack ++ declarations) newStatements
      else flush
    | _ => flush
    end
  end.

Definition mergeVariableDeclaration (statements : list stmt) : list stmt :=
  mergeLoop statements [] [].

(** *** Methods of one scope *)

Module Scope.

(** [createHeader(type)], with the uid counter threaded. *)
Definition createHeader (type : CacheType) (s : OptimizerScope) (u : nat)
  : ident * OptimizerScope * nat :=
  match type with
  | refType =>
    match ref s with
    | Some r => (r, s, u)
    | None => (Uid u "ref", set_ref (Some (Uid u "ref")) s, S u)
    end
  | memoType =>
    match memo s with
    | Some m => (m, s, u)
    | None => (Uid u "cache", set_memo (Some (Uid u "cache")) s, S u)
    end
  end.

(** [createIndex(type)]: the index handed out (the value of the numeric
    literal) and the scope with its counter advanced. *)
Definition createIndex (type : CacheType) (s : OptimizerScope)
  : nat * OptimizerScope :=
  match type with
  | memoType => (indecesMemo s, set_indecesMemo (indecesMemo s + 1) s)
  | refType => (indecesRef s, set_indecesRef (indecesRef s + 1) s)
  end.

(** [createLoopHeader(type)]: [type = None] is the call without an
    argument, which reads and writes [this.loop[undefined]]. *)
Definition createLoopHeader (type : option CacheType) (s : OptimizerScope)
    (u : nat) : ident * OptimizerScope * nat :=
  let current :=
    match type with
    | Some memoType => loop_memo s
    | Some refType => loop_ref s
    | None => loop_undefined s
    end in
  match current with
  | Some c => (c, s, u)
  | None =>
    let fresh := Uid u "loop" in
    (fresh,
     match type with
     | Some memoType => set_loop_memo (Some fresh) s
     | Some refType => set_loop_ref (Some fresh) s
     | None => set_loop_undefined (Some fresh) s
     end,
     S u)
  end.

(** [createLoopIndex()]. *)
Definition createLoopIndex (s : OptimizerScope) (u : nat)
  : ident * OptimizerScope * nat :=
  match loopIndex s with
  | Some i => (i, s, u)
  | None => (Uid u "id", set_loopIndex (Some (Uid u "id")) s, S u)
  end.

Definition typeHeader (type : CacheType) (s : OptimizerScope) : option ident :=
  match type with memoType => memo s | refType => ref s end.
Definition typeIndeces (type : CacheType) (s : OptimizerScope) : nat :=
  match type with memoType => indecesMemo s | refType => indecesRef s end.
Definition typeLoop (type : CacheType) (s : OptimizerScope) : option ident :=
  match type with memoType => loop_memo s | refType => loop_ref s end.
Definition typeRuntime (type : CacheType) : ident * ident :=
  match type with
  | memoType => (RUNTIME_CACHE, preset_useMemo)
  | refType => (RUNTIME_REF, preset_useRef)
  end.

(** [getMemoDeclarations()] ([type = memoType]) and [getRefDeclarations()]
    ([type = refType]); the two methods differ in the cache only.  [parent]
    is [this.parent]. *)
Definition getDeclarations (type : CacheType) (this : OptimizerScope)
    (parent : option OptimizerScope) (u : nat)
  : option (list stmt) * OptimizerScope * option OptimizerScope * nat :=
  match typeHeader type this with
  | Some own =>
    match parent with
    | Some p =>
      let '(header, p1, u1) := createHeader type p u in
      let '(index, p2) := createIndex type p1 in
      (Some [letDeclaration
               [variableDeclarator own
                  (Some (callOf RUNTIME_BRANCH
                           [Identifier header; numericLiteral index;
                            numericLiteral (typeIndeces type this)]))]],
       this, Some p2, u1)
    | None =>
      (Some [letDeclaration
               [variableDeclarator own
                  (Some (callOf (fst (typeRuntime type))
                           [Identifier (snd (typeRuntime type));
                            numericLiteral (typeIndeces type this)]))]],
       this, None, u)
    end
  | None => (None, this, parent, u)
  end.

(** [getLoopMemoDeclaration()] and [getLoopRefDeclaration()]. *)
Definition getLoopDeclaration (type : CacheType) (this : OptimizerScope)
    (parent : option OptimizerScope) (u : nat)
  : option stmt * OptimizerScope * option OptimizerScope * nat :=
  match parent with
  | None => (None, this, None, u)
  | Some p =>
    let '(header, p1, u1) := createHeader type p u in
    let '(index, p2) := createIndex type p1 in
    let '(id, this1, u2) := createLoopIndex this u1 in
    let '(own, this2, u3) := createHeader type this1 u2 in
    (Some (letDeclaration
             [variableDeclarator own
                (Some (callOf RUNTIME_BRANCH
                         [Identifier header; numericLiteral index;
                          numericLiteral 0]));
              variableDeclarator id (Some (numericLiteral 0))]),
     this2, Some p2, u3)
  end.

(** [getLoopMemoHeaderDeclaration()] and [getLoopRefHeaderDeclaration()].
    [t.updateExpression('++', index)] is the postfix [index++]: the builder
    leaves [prefix] at [false]. *)
Definition getLoopHeaderDeclaration (type : CacheType) (this : OptimizerScope)
    (u : nat) : option (list stmt) * OptimizerScope * nat :=
  match typeLoop type this with
  | Some _ =>
    let '(header, this1, u1) := createHeader type this u in
    let '(index, this2, u2) := createLoopIndex this1 u1 in
    let localIndex := Uid u2 "loopId" in
    let '(loopHeader, this3, u3) := createLoopHeader (Some type) this2 (S u2) in
    (Some [letDeclaration
             [variableDeclarator localIndex
                (Some (UpdateExpression "++" (Identifier index) false));
              variableDeclarator loopHeader
                (Some (callOf RUNTIME_BRANCH
                         [Identifier header; Identifier localIndex;
                          numericLiteral (typeIndeces type this3)]))]],
     this3, u3)
  | None => (None, this, u)
  end.

Definition orEmpty (o : option (list stmt)) : list stmt :=
  match o with Some l => l | None => [] end.

(** [getStatements()]. *)
Definition getStatements (this : OptimizerScope)
    (parent : option OptimizerScope) (u : nat)
  : list stmt * OptimizerScope * option OptimizerScope * nat :=
  let result := statements this in
  let '(memoHeader, this1, parent1, u1) :=
    if isInLoop this
    then let '(d, t1, v) := getLoopHeaderDeclaration memoType this u in
         (d, t1, parent, v)
    else getDeclarations memoType this parent u in
  let '(refHeader, this2, parent2, u2) :=
    if isInLoop this1
    then let '(d, t2, v) := getLoopHeaderDeclaration refType this1 u1 in
         (d, t2, parent1, v)
    else getDeclarations refType this1 parent1 u1 in
  (mergeVariableDeclaration (orEmpty memoHeader ++ orEmpty refHeader ++ result),
   this2, parent2, u2).

(** [push(...statements)]. *)
Definition push (new : list stmt) (s : OptimizerScope) : OptimizerScope :=
  set_statements (statements s ++ new) s.

(** The weak map [optimizedID] and the weak set [constants]. *)
Fixpoint lookupID (key : ident) (l : list (ident * OptimizedExpression))
  : option OptimizedExpression :=
  match l with
  | [] => None
  | (k, v) :: rest => if ident_eqb k key then Some v else lookupID key rest
  end.

Definition removeID (key : ident) (l : list (ident * OptimizedExpression)) :=
  filter (fun kv => negb (ident_eqb (fst kv) key)) l.

Definition getOptimized (key : ident) (s : OptimizerScope) :=
  lookupID key (optimizedID s).

Definition hasOptimized (key : ident) (s : OptimizerScope) : bool :=
  match getOptimized key s with Some _ => true | None => false end.

Definition setOptimized (key : ident) (value : OptimizedExpression)
    (s : OptimizerScope) : OptimizerScope :=
  set_optimizedID ((key, value) :: removeID key (optimizedID s)) s.

(** [deleteOptimized(key)], on the chain [this :: this.parent :: ...]. *)
Fixpoint deleteOptimized (key : ident) (chain : list OptimizerScope)
  : list OptimizerScope :=
  match chain with
  | [] => []
  | current :: up =>
    if hasOptimized key current
    then set_optimizedID (removeID key (optimizedID current)) current :: up
    else current :: deleteOptimized key up
  end.

Definition addConstant (value : ident) (s : OptimizerScope) : OptimizerScope :=
  set_constants (value :: constants s) s.

Definition hasConstant (value : ident) (s : OptimizerScope) : bool :=
  existsb (ident_eqb value) (constants s).

End Scope.

(* ================================================================== *)
(** ** The optimizer ([optimizer.ts]) *)
(* ================================================================== *)

(** *** Scope methods on the optimizer's current scope *)

Definition createHeader (type : CacheType) : M ident :=
  fun st =>
    let '(h, s, u) := Scope.createHeader type (scope st) (uids st) in
    (h, mkOptimizer s (parents st) u).

Definition createLoopHeader (type : option CacheType) : M ident :=
  fun st =>
    let '(h, s, u) := Scope.createLoopHeader type (scope st) (uids st) in
    (h, mkOptimizer s (parents st) u).

Definition createIndex (type : CacheType) : M nat :=
  fun st =>
    let '(i, s) := Scope.createIndex type (scope st) in
    (i, mkOptimizer s (parents st) (uids st)).

Definition push (new : list stmt) : M unit :=
  fun st => (tt, mkOptimizer (Scope.push new (scope st)) (parents st) (uids st)).

Definition addConstant (value : ident) : M unit :=
  fun st =>
    (tt, mkOptimizer (Scope.addConstant value (scope st)) (parents st) (uids st)).

Definition setOptimized (key : ident) (value : OptimizedExpression) : M unit :=
  fun st =>
    (tt, mkOptimizer (Scope.setOptimized key value (scope st)) (parents st)
           (uids st)).

(** [this.scope.deleteOptimized(key)]: the walk starts at the current scope
    and follows the parent links. *)
Definition deleteOptimized (key : ident) : M unit :=
  fun st =>
    match Scope.deleteOptimized key (scope st :: parents st) with
    | s :: up => (tt, mkOptimizer s up (uids st))
    | [] => (tt, st)
    end.

(** [const parent = this.scope; this.scope = new OptimizerScope(ctx, path,
    parent, isInLoop)]. *)
Definition enterScope (inLoop : bool) : M unit :=
  fun st =>
    (tt, mkOptimizer (newScope inLoop) (scope st :: parents st) (uids st)).

(** [this.scope = parent], handing back the scope object that was
    current. *)
Definition leaveScope : M OptimizerScope :=
  fun st =>
    match parents st with
    | p :: up => (scope st, mkOptimizer p up (uids st))
    | [] => (scope st, st)
    end.

(** [child.getStatements()] for a child of the current scope. *)
Definition getStatementsOf (child : OptimizerScope)
  : M (list stmt * OptimizerScope) :=
  fun st =>
    let '(l, c, p, u) :=
      Scope.getStatements child (Some (scope st)) (uids st) in
    ((l, c),
     mkOptimizer (match p with Some p' => p' | None => scope st end)
       (parents st) u).

(** [child.getLoopMemoDeclaration()] for a child of the current scope. *)
Definition getLoopMemoDeclarationOf (child : OptimizerScope)
  : M (option stmt * OptimizerScope) :=
  fun st =>
    let '(d, c, p, u) :=
      Scope.getLoopDeclaration memoType child (Some (scope st)) (uids st) in
    ((d, c),
     mkOptimizer (match p with Some p' => p' | None => scope st end)
       (parents st) u).

(** [this.scope.getStatements()] for the root scope, which has no
    parent. *)
Definition getStatementsRoot : M (list stmt) :=
  fun st =>
    let '(l, s, _, u) := Scope.getStatements (scope st) None (uids st) in
    (l, mkOptimizer s (parents st) u).

(** *** [createMemo] *)

(** The [dependencies] argument of [createMemo]:
    [t.Expression | (t.Expression | undefined)[] | boolean], or omitted. *)
Inductive MemoDeps : Type :=
| MDOmitted
| MDBool (b : bool)
| MDExpr (e : expr)
| MDList (l : list (option expr)).

Definition memoDepsOf (d : Deps) : MemoDeps :=
  match d with
  | DepsUndefined => MDOmitted
  | DepsOne e => MDExpr e
  | DepsList l => MDList (map Some l)
  end.

(** The loop over an array of dependencies, with [condition] and the set
    [newSet] of identifier nodes already part of it. *)
Fixpoint combineDependencies (dependencies : list (option expr))
    (condition : option expr) (newSet : list ident) : option expr :=
  match dependencies with
  | [] => condition
  | None :: rest => combineDependencies rest condition newSet
  | Some dependency :: rest =>
    match condition with
    | Some c =>
      match dependency with
      | Identifier i =>
        if existsb (ident_eqb i) newSet
        then combineDependencies rest condition newSet
        else combineDependencies rest
               (Some (LogicalExpression "&&" c dependency)) (i :: newSet)
      | _ => combineDependencies rest
               (Some (LogicalExpression "&&" c dependency)) newSet
      end
    | None =>
      combineDependencies rest (Some dependency)
        (match dependency with Identifier i => i :: newSet | _ => newSet end)
    end
  end.

(** The guard [condition] of a memo at [header[index]] for [current]. *)
Definition memoCondition (dependencies : MemoDeps) (header : ident)
    (index : nat) (current : expr) : option expr :=
  match dependencies with
  | MDList l => combineDependencies l None []
  | MDBool true => None
  | MDExpr e => Some e
  | MDOmitted | MDBool false =>
    Some (callOf RUNTIME_EQUALS
            [Identifier header; numericLiteral index; current])
  end.

Definition isIdentifier (e : expr) : bool :=
  match e with Identifier _ => true | _ => false end.

Definition createMemo (current : expr) (dependencies : MemoDeps)
    (type : CacheType) : M OptimizedExpression :=
  s <- getScope ;;
  match (match current with
         | Identifier i => Scope.getOptimized i s
         | _ => None
         end) with
  | Some optimized => ret optimized
  | None =>
    header <- (if isInLoop s then createLoopHeader None
               else createHeader type) ;;
    index <- createIndex type ;;
    let pos := MemberExpression (Identifier header) (numericLiteral index) true in
    vid <- generateUidIdentifier "value" ;;
    let condition := memoCondition dependencies header index current in
    eqid <- match condition with
            | None => ret pos
            | Some (Identifier c) => ret (Identifier c)
            | Some _ => e <- generateUidIdentifier "equals" ;; ret (Identifier e)
            end ;;
    let declaration :=
      match condition with
      | None => []
      | Some c => if isIdentifier c then [] else [(eqid, Some c)]
      end in
    let optimized :=
      optimizedExpr (Identifier vid)
        (match condition with None => DepsList [] | Some _ => DepsOne eqid end)
        None in
    match condition with None => addConstant vid | Some _ => ret tt end ;;;
    match current with
    | Identifier i => setOptimized i optimized ;;; setOptimized vid optimized
    | _ => ret tt
    end ;;;
    let init :=
      ConditionalExpression
        (match condition with
         | Some _ => eqid
         | None => BinaryExpression "in" (numericLiteral index) (Identifier header)
         end)
        pos
        (AssignmentExpression "=" pos current) in
    push [letDeclaration (declaration ++ [variableDeclarator vid (Some init)])] ;;;
    ret optimized
  end.

(** The header [createMemo] indexes its slot through: the first statement
    after the lookup of [current]. *)
Definition memoHeader (type : CacheType) : M ident :=
  s <- getScope ;;
  if isInLoop s then createLoopHeader None else createHeader type.

(** [current] is an identifier the current scope holds an optimized
    expression for: the case in which [createMemo] returns at once. *)
Definition alreadyOptimized (current : expr) (s : OptimizerScope) : bool :=
  match current with
  | Identifier i => Scope.hasOptimized i s
  | _ => false
  end.

(** *** What the optimizer takes from the rest of the compiler *)

(** The result of [getHookCallType]; [hookSkip] is every value the
    [switch] of [optimizeCallExpression] sends to its default case. *)
Inductive HookCallType : Type :=
| hookCallback | hookEffect | hookMemo | hookRef | hookCustom | hookNone
| hookSkip.

(** The helpers under [utils/] and [is-constant.ts], which the optimizer
    only calls.  The binding helpers take the identifier node at the path,
    which determines the path, its Babel scope and the name. *)
Record Env : Type := mkEnv {
  shouldSkipExpr : expr -> bool;            (* shouldSkipNode(path.node) *)
  shouldSkipStmt : stmt -> bool;            (* shouldSkipNode(path.node) *)
  isConstant : Optimizer -> expr -> bool;   (* isConstant(this, path) *)
  isForeignBinding : ident -> bool;         (* isForeignBinding(this.path, path, id.name) *)
  getBindingIdentifier : ident -> option ident; (* path.scope.getBindingIdentifier(id.name) *)
  getHookCallType : expr -> HookCallType    (* getHookCallType(this.ctx, path) *)
}.

(** [createDependencies()] then [mergeDependencies(target, deps)]. *)
Definition mergeDependencies (target : list expr) (dependencies : Deps)
  : list expr :=
  match dependencies with
  | DepsUndefined => target
  | DepsOne e => target ++ [e]
  | DepsList l => target ++ l
  end.

Definition isLiteral (e : expr) : bool :=
  match e with
  | BooleanLiteral _ | NumericLiteral _ | StringLiteral _ | BigIntLiteral _
  | NullLiteral | RegExpLiteral _ => true
  | _ => false
  end.

Section Traversals.

Context {X : Type}.
Variable visit : X -> M (option OptimizedExpression).
Variable rebuild : X -> expr -> X.

(** The loop shared by [optimizeHookArguments], [optimizeArrayExpression]
    and [optimizeObjectExpression]: every element is made a dependency;
    where one comes back, its expression replaces the element and its
    dependencies are merged into [condition]. *)
Fixpoint dependOnEach (xs : list X) (condition : list expr)
  : M (list X * list expr) :=
  match xs with
  | [] => ret ([], condition)
  | x :: rest =>
    optimized <- visit x ;;
    match optimized with
    | Some o =>
      r <- dependOnEach rest (mergeDependencies condition (odeps o)) ;;
      ret (rebuild x (oexpr o) :: fst r, snd r)
    | None =>
      r <- dependOnEach rest condition ;;
      ret (x :: fst r, snd r)
    end
  end.

End Traversals.

Section ForEach.

Context {X Y : Type}.
Variable visit : X -> M Y.

(** A [for] loop over the elements of an array, collecting what each
    visit yields. *)
Fixpoint forEach (xs : list X) : M (list Y) :=
  match xs with
  | [] => ret []
  | x :: rest => y <- visit x ;; ys <- forEach rest ;; ret (y :: ys)
  end.

End ForEach.

Section Optimizer.

Variable env : Env.

Definition askConstant (e : expr) : M bool :=
  fun st => (isConstant env st e, st).

(** [createDependency(path)], given the run of [optimizeExpression(path)].
    The weak map [dependency] is keyed by the identity of the node at
    [path]; a node of the tree is made a dependency once, so the lookup
    finds nothing and the map is left out. *)
Definition createDependencyOf (optimizing : M OptimizedExpression)
  : M (option OptimizedExpression) :=
  optimized <- optimizing ;;
  match oconstant optimized with
  | Some true => ret None
  | _ =>
    s <- getScope ;;
    match oexpr optimized with
    | Identifier i =>
      if Scope.hasConstant i s then ret (Some optimized)
      else record <- createMemo (oexpr optimized) (MDBool false) memoType ;;
           ret (Some record)
    | _ => record <- createMemo (oexpr optimized) (MDBool false) memoType ;;
           ret (Some record)
    end
  end.

(** [memoizeIdentifier(path, id)]. *)
Definition memoizeIdentifier (id : ident) : M OptimizedExpression :=
  if isForeignBinding env id
  then ret (optimizedExpr (Identifier id) (DepsList []) (Some true))
  else match getBindingIdentifier env id with
       | Some binding => createMemo (Identifier binding) (MDBool false) memoType
       | None => ret (optimizedExpr (Identifier id) (DepsList []) (Some true))
       end.

(** [memoizeMemberExpression(path)] for the node [object[property]] /
    [object.property], given the runs of [createDependency] on its two
    children. *)
Definition memoizeMemberExpressionWith (object property : expr)
    (computed : bool)
    (dependObject dependProperty : M (option OptimizedExpression))
  : M (expr * list expr) :=
  c <- askConstant (MemberExpression object property computed) ;;
  if c then ret (MemberExpression object property computed, [])
  else
    source <- dependObject ;;
    let object1 := match source with Some o => oexpr o | None => object end in
    let condition1 :=
      match source with
      | Some o => mergeDependencies [] (odeps o)
      | None => []
      end in
    if computed then
      prop <- dependProperty ;;
      match prop with
      | Some o =>
        ret (MemberExpression object1 (oexpr o) computed,
             mergeDependencies condition1 (odeps o))
      | None => ret (MemberExpression object1 property computed, condition1)
      end
    else ret (MemberExpression object1 property computed, condition1).

(** [optimizeLVal(path, dirty)], given [memoizeMemberExpression] for the
    case of a member expression; the dependencies come back as the list
    they are merged into. *)
Definition optimizeLValWith (node : expr) (dirty : bool)
    (memoizeMember : expr -> expr -> bool -> M (expr * list expr))
  : M (expr * list expr) :=
  match node with
  | Identifier id =>
    (if dirty then
       match getBindingIdentifier env id with
       | Some binding => deleteOptimized binding
       | None => ret tt
       end
     else ret tt) ;;;
    ret (node, [])
  | MemberExpression object property computed =>
    memoizeMember object property computed
  | _ => ret (node, [])
  end.

(** [optimizeRef(path)]. *)
Definition optimizeRef (arguments : list expr) : M OptimizedExpression :=
  let init :=
    match arguments with
    | arg :: _ => arg
    | [] => UnaryExpression "void" (NumericLiteral 0)
    end in
  createMemo (ObjectExpression [("current", init)]) (MDBool true) refType.

Definition logicalTest (operator : string) (id : ident) : expr :=
  if String.eqb operator "??"
  then BinaryExpression "==" (Identifier id) NullLiteral
  else if String.eqb operator "||"
  then UnaryExpression "!" (Identifier id)
  else Identifier id.

Definition assignTo (id : ident) (value : expr) : stmt :=
  ExpressionStatement (AssignmentExpression "=" (Identifier id) value).

(** A child scope around [body]: the scope is entered, [body] runs, the
    scope is left; the child object comes back with what [body]
    returned. *)
Definition inChildScope {A} (inLoop : bool) (body : M A)
  : M (A * OptimizerScope) :=
  enterScope inLoop ;;;
  a <- body ;;
  child <- leaveScope ;;
  ret (a, child).

End Optimizer.

Section Walk.

Variable env : Env.

Definition plain (node : expr) : OptimizedExpression :=
  optimizedExpr node DepsUndefined None.

Definition constantExpr (node : expr) : OptimizedExpression :=
  optimizedExpr node DepsUndefined (Some true).

(** [optimizeExpression(path)], with the methods it dispatches to written
    in place: each is named in the comment of its case. *)
Fixpoint optimizeExpression (node : expr) {struct node}
  : M OptimizedExpression :=
  let createDependency (e : expr) := createDependencyOf (optimizeExpression e) in
  let memoizeMemberExpression (object property : expr) (computed : bool) :=
    memoizeMemberExpressionWith env object property computed
      (createDependency object) (createDependency property) in
  if shouldSkipExpr env node then ret (constantExpr node)
  else
  match node with
  | NestedExpression _ expression => optimizeExpression expression
  | _ =>
  if isLiteral node then ret (constantExpr node)
  else
  c <- askConstant env node ;;
  if c then createMemo node (MDBool true) memoType
  else
  match node with
  (* optimizeIdentifier *)
  | Identifier id => memoizeIdentifier env id
  (* optimizeMemberExpression *)
  | MemberExpression object property computed =>
    result <- memoizeMemberExpression object property computed ;;
    createMemo (fst result) (MDList (map Some (snd result))) memoType
  (* optimizeConditionalExpression *)
  | ConditionalExpression test consequent alternate =>
    id <- generateUidIdentifier "value" ;;
    optimizedTest <- optimizeExpression test ;;
    c <- inChildScope false (optimizeExpression consequent) ;;
    a <- inChildScope false (optimizeExpression alternate) ;;
    let consequentScope := Scope.push [assignTo id (oexpr (fst c))] (snd c) in
    let alternateScope := Scope.push [assignTo id (oexpr (fst a))] (snd a) in
    cs <- getStatementsOf consequentScope ;;
    als <- getStatementsOf alternateScope ;;
    push [letDeclaration [variableDeclarator id None];
          IfStatement (oexpr optimizedTest) (BlockStatement (fst cs))
            (Some (BlockStatement (fst als)))] ;;;
    ret (plain (Identifier id))
  (* optimizeBinaryExpression *)
  | BinaryExpression operator leftNode rightNode =>
    if String.eqb operator "|>" then ret (plain node)
    else
      l <- createDependency leftNode ;;
      r <- createDependency rightNode ;;
      let left1 := match l with Some o => oexpr o | None => leftNode end in
      let deps1 :=
        match l with Some o => mergeDependencies [] (odeps o) | None => [] end in
      let right1 := match r with Some o => oexpr o | None => rightNode end in
      let deps2 :=
        match r with Some o => mergeDependencies deps1 (odeps o) | None => deps1 end in
      createMemo (BinaryExpression operator left1 right1)
        (MDList (map Some deps2)) memoType
  (* optimizeLogicalExpression *)
  | LogicalExpression operator leftNode rightNode =>
    id <- generateUidIdentifier "condition" ;;
    l <- optimizeExpression leftNode ;;
    r <- inChildScope false (optimizeExpression rightNode) ;;
    let rightScope := Scope.push [assignTo id (oexpr (fst r))] (snd r) in
    rs <- getStatementsOf rightScope ;;
    push [letDeclaration [variableDeclarator id (Some (oexpr l))];
          IfStatement (logicalTest operator id) (BlockStatement (fst rs)) None] ;;;
    ret (plain (Identifier id))
  (* optimizeUnaryExpression *)
  | UnaryExpression operator argument =>
    optimized <- createDependency argument ;;
    match optimized with
    | Some o =>
      createMemo (UnaryExpression operator (oexpr o)) (memoDepsOf (odeps o))
        memoType
    | None => ret (plain node)
    end
  (* optimizeCallExpression *)
  | CallExpression callee arguments =>
    match getHookCallType env node with
    (* optimizeCallback *)
    | hookCallback =>
      match arguments with
      | callback :: dependencies :: _ =>
        dependency <- optimizeExpression dependencies ;;
        createMemo callback (memoDepsOf (odeps dependency)) memoType
      | [callback] => optimizeExpression callback
      | [] => ret (plain node)
      end
    (* optimizeEffect *)
    | hookEffect =>
      match arguments with
      | callback :: dependencies :: rest =>
        optimizedArray <- optimizeExpression dependencies ;;
        ret (optimizedExpr
               (CallExpression callee
                  (callback :: ArrayExpression [oexpr optimizedArray] :: rest))
               (odeps optimizedArray) None)
      | [callback] =>
        optimized <- optimizeExpression callback ;;
        ret (optimizedExpr
               (CallExpression callee
                  [oexpr optimized; ArrayExpression [oexpr optimized]])
               (odeps optimized) None)
      | [] => ret (plain node)
      end
    (* optimizeMemo *)
    | hookMemo =>
      match arguments with
      | callback :: dependencies :: _ =>
        dependency <- optimizeExpression dependencies ;;
        createMemo (CallExpression callback [])
          (memoDepsOf (odeps dependency)) memoType
      | [callback] =>
        optimized <- optimizeExpression callback ;;
        createMemo (CallExpression (oexpr optimized) [])
          (memoDepsOf (odeps optimized)) memoType
      | [] => ret (plain node)
      end
    | hookRef => optimizeRef arguments
    (* optimizeCustomHookCall, with optimizeHookCallee and
       optimizeHookArguments *)
    | hookNone =>
      calleeResult <-
        match callee with
        | MemberExpression object property computed =>
          r <- memoizeMemberExpression object property computed ;;
          ret (fst r, mergeDependencies [] (DepsList (snd r)))
        | _ =>
          optimizedCallee <- createDependency callee ;;
          match optimizedCallee with
          | Some o => ret (oexpr o, mergeDependencies [] (odeps o))
          | None => ret (callee, [])
          end
        end ;;
      args <- dependOnEach createDependency (fun _ e => e) arguments
                (snd calleeResult) ;;
      createMemo (CallExpression (fst calleeResult) (fst args))
        (MDList (map Some (snd args))) memoType
    | hookCustom =>
      args <- dependOnEach createDependency (fun _ e => e) arguments [] ;;
      ret (optimizedExpr (CallExpression callee (fst args))
             (DepsList (snd args)) None)
    | hookSkip => ret (plain node)
    end
  (* optimizeAssignmentExpression, with optimizeLVal(leftNode, true) *)
  | AssignmentExpression operator leftNode rightNode =>
    l <- optimizeLValWith env leftNode true memoizeMemberExpression ;;
    r <- createDependency rightNode ;;
    let deps1 := mergeDependencies [] (DepsList (snd l)) in
    match r with
    | Some o =>
      ret (optimizedExpr (AssignmentExpression operator (fst l) (oexpr o))
             (DepsList (mergeDependencies deps1 (odeps o))) None)
    | None =>
      ret (optimizedExpr (AssignmentExpression operator (fst l) rightNode)
             (DepsList deps1) None)
    end
  (* optimizeArrayExpression *)
  | ArrayExpression elements =>
    r <- dependOnEach createDependency (fun _ e => e) elements [] ;;
    createMemo (ArrayExpression (fst r)) (MDList (map Some (snd r))) memoType
  (* optimizeObjectExpression, with optimizeObjectProperty *)
  | ObjectExpression properties =>
    r <- dependOnEach (fun p => createDependency (snd p))
           (fun p e => (fst p, e)) properties [] ;;
    createMemo (ObjectExpression (fst r)) (MDList (map Some (snd r))) memoType
  (* optimizeSequenceExpression *)
  | SequenceExpression expressions =>
    r <- forEach (fun e => o <- optimizeExpression e ;; ret (oexpr o))
           expressions ;;
    ret (plain (SequenceExpression r))
  | _ => ret (constantExpr node)
  end
  end.

(** The methods [createDependency], [memoizeMemberExpression] and
    [optimizeLVal] as they are called from outside the walk. *)
Definition createDependency (e : expr) : M (option OptimizedExpression) :=
  createDependencyOf (optimizeExpression e).

Definition memoizeMemberExpression (object property : expr) (computed : bool)
  : M (expr * list expr) :=
  memoizeMemberExpressionWith env object property computed
    (createDependency object) (createDependency property).


(** [optimizeLoopStatement(path)], given the run of
    [optimizeStatement(body, true)]: the new body of the loop. *)
Definition optimizeLoopStatementWith (optimizeBody : M unit) : M stmt :=
  l <- inChildScope true optimizeBody ;;
  finalized <- getStatementsOf (snd l) ;;
  memoDeclaration <- getLoopMemoDeclarationOf (snd finalized) ;;
  match fst memoDeclaration with
  | Some d => push [d]
  | None => ret tt
  end ;;;
  ret (BlockStatement (fst finalized)).

(** A child scope around the run [body], finalized as soon as the scope
    is left: the statements of the block that replaces the original. *)
Definition finalizedChild (body : M unit) : M (list stmt) :=
  c <- inChildScope false body ;;
  finalized <- getStatementsOf (snd c) ;;
  ret (fst finalized).

(** [optimizeStatement(path, topBlock)], with the methods it dispatches
    to written in place. *)
Fixpoint optimizeStatement (node : stmt) (topBlock : bool) {struct node}
  : M unit :=
  let optimizeBlock (block : stmt) (body : list stmt) : M unit :=
    if shouldSkipStmt env block then ret tt
    else forEach (fun s => optimizeStatement s false) body ;;; ret tt in
  if shouldSkipStmt env node then ret tt
  else
  match node with
  (* optimizeExpressionStatement *)
  | ExpressionStatement expression =>
    optimized <- optimizeExpression expression ;;
    push [ExpressionStatement (oexpr optimized)]
  (* optimizeVariableDeclaration *)
  | VariableDeclaration kind declarations =>
    forEach
      (fun d : declarator =>
         init <- match snd d with
                 | Some e => o <- optimizeExpression e ;; ret (Some (oexpr o))
                 | None => ret None
                 end ;;
         push [VariableDeclaration kind [(fst d, init)]])
      declarations ;;;
    ret tt
  (* optimizeReturnStatement *)
  | ReturnStatement (Some argument) =>
    optimized <- optimizeExpression argument ;;
    push [ReturnStatement (Some (oexpr optimized))]
  | ReturnStatement None => push [node]
  (* optimizeThrowStatement *)
  | ThrowStatement argument =>
    optimized <- optimizeExpression argument ;;
    push [ThrowStatement (oexpr optimized)]
  (* optimizeBlockStatement *)
  | BlockStatement body =>
    if topBlock then optimizeBlock node body
    else
      block <- finalizedChild (optimizeBlock node body) ;;
      push [BlockStatement block]
  (* optimizeIfStatement *)
  | IfStatement test consequent alternate =>
    optimized <- optimizeExpression test ;;
    c <- finalizedChild (optimizeStatement consequent true) ;;
    match alternate with
    | Some alt =>
      a <- finalizedChild (optimizeStatement alt true) ;;
      push [IfStatement (oexpr optimized) (BlockStatement c)
              (Some (BlockStatement a))]
    | None => push [IfStatement (oexpr optimized) (BlockStatement c) None]
    end
  (* optimizeForXStatement and optimizeLoopStatement *)
  | LoopStatement head body =>
    head1 <- match head with
             | ForInHead l r =>
               optimized <- optimizeExpression r ;;
               ret (ForInHead l (oexpr optimized))
             | ForOfHead l r =>
               optimized <- optimizeExpression r ;;
               ret (ForOfHead l (oexpr optimized))
             | _ => ret head
             end ;;
    body1 <- optimizeLoopStatementWith (optimizeStatement body true) ;;
    push [LoopStatement head1 body1]
  (* optimizeTryStatement *)
  | TryStatement block handler finalizer =>
    block1 <- finalizedChild (optimizeBlock (BlockStatement block) block) ;;
    handler1 <- match handler with
                | Some h =>
                  b <- finalizedChild (optimizeBlock (BlockStatement h) h) ;;
                  ret (Some b)
                | None => ret None
                end ;;
    finalizer1 <- match finalizer with
                  | Some f =>
                    b <- finalizedChild (optimizeBlock (BlockStatement f) f) ;;
                    ret (Some b)
                  | None => ret None
                  end ;;
    push [TryStatement block1 handler1 finalizer1]
  (* optimizeLabeledStatement *)
  | LabeledStatement label body =>
    body1 <- finalizedChild (optimizeStatement body false) ;;
    push [LabeledStatement label (BlockStatement body1)]
  | OtherStatement _ => push [node]
  end.

(** [optimizeBlock(path)] on the statements [body] of the block [block]. *)
Definition optimizeBlock (block : stmt) (body : list stmt) : M unit :=
  if shouldSkipStmt env block then ret tt
  else forEach (fun s => optimizeStatement s false) body ;;; ret tt.

(** [optimizeFunctionComponent(path)]: the statements of the block that
    replaces the body [body] of the component. *)
Definition optimizeFunctionComponent (body : list stmt) : M (list stmt) :=
  optimizeBlock (BlockStatement body) body ;;;
  getStatementsRoot.

(** [new Optimizer(ctx, path)]; [firstUid] is where Babel's uid generator
    stands. *)
Definition newOptimizer (firstUid : nat) : Optimizer :=
  mkOptimizer (newScope false) [] firstUid.

(** [new Optimizer(ctx, path).optimize()] on a function component: the
    new body. *)
Definition optimize (body : list stmt) : list stmt :=
  fst (optimizeFunctionComponent body (newOptimizer 0)).

End Walk.

(* ================================================================== *)
(** ** A concrete environment for closed programs *)
(* ================================================================== *)

Module Program.

Section IsConstant.

Variable foreign : ident -> bool.
Variable binding : ident -> option ident.
Variable hook : expr -> HookCallType.
Variable st : Optimizer.

(** Modelled from the spec: [is-constant.ts] is not among the sources.  An
    expression is constant when every identifier it references is foreign,
    global or registered in the constants of a scope of the chain, and it
    holds no hook call, no assignment, and no call or member read whose
    receiver is not constant; literals are constant. *)
Fixpoint specIsConstant (e : expr) : bool :=
  match e with
  | Identifier i =>
    foreign i
    || match binding i with None => true | Some _ => false end
    || existsb (Scope.hasConstant i) (scope st :: parents st)
  | BooleanLiteral _ | NumericLiteral _ | StringLiteral _ | BigIntLiteral _
  | NullLiteral | RegExpLiteral _ => true
  | NestedExpression _ x => specIsConstant x
  | MemberExpression o p c =>
    specIsConstant o && (if c then specIsConstant p else true)
  | ConditionalExpression a b c =>
    specIsConstant a && specIsConstant b && specIsConstant c
  | BinaryExpression _ a b => specIsConstant a && specIsConstant b
  | LogicalExpression _ a b => specIsConstant a && specIsConstant b
  | UnaryExpression _ a => specIsConstant a
  | CallExpression f args =>
    match hook e with
    | hookNone => specIsConstant f && forallb specIsConstant args
    | _ => false
    end
  | ArrayExpression xs => forallb specIsConstant xs
  | ObjectExpression ps => forallb (fun p => specIsConstant (snd p)) ps
  | SequenceExpression xs => forallb specIsConstant xs
  | UpdateExpression _ _ _ | AssignmentExpression _ _ _ | OtherExpression _ => false
  end.

End IsConstant.

Fixpoint lookupName (name : string) (table : list (string * nat)) : option nat :=
  match table with
  | [] => None
  | (k, v) :: rest => if String.eqb k name then Some v else lookupName name rest
  end.

Definition nameOf (i : ident) : string :=
  match i with Src _ s | Uid _ s | Import s => s end.

(** Modelled from the spec: [utils/get-hook-call-type.ts] and the preset
    are not among the sources.  A call is classified by the name of its
    callee, with the hook names of the spec's scenarios; any other call is
    an ordinary one. *)
Definition hookOf (e : expr) : HookCallType :=
  match e with
  | CallExpression (Identifier i) _ =>
    if String.eqb (nameOf i) "useRef" then hookRef
    else if String.eqb (nameOf i) "useMemo" then hookMemo
    else if String.eqb (nameOf i) "useCallback" then hookCallback
    else if String.eqb (nameOf i) "useEffect" then hookEffect
    else hookNone
  | _ => hookNone
  end.

(** Modelled from the spec: [utils/checks.ts] and
    [utils/get-foreign-bindings.ts] are not among the sources.  A closed
    program is described by the names it takes from outside the component
    ([foreign]), the identifier node that declares each name bound inside
    ([bound]), and the node that carries the skip marker: a statement
    [f(...)] whose callee is the identifier node [skipped] stands for that
    statement under a leading skip comment. *)
Definition env (foreign : list string) (bound : list (string * nat))
    (skipped : nat) : Env :=
  let isForeign := fun i => existsb (String.eqb (nameOf i)) foreign in
  let bindingOf := fun i =>
    match lookupName (nameOf i) bound with
    | Some n => Some (Src n (nameOf i))
    | None => None
    end in
  mkEnv
    (fun _ => false)
    (fun s =>
       match s with
       | ExpressionStatement (CallExpression (Identifier (Src n _)) _) =>
         Nat.eqb n skipped
       | _ => false
       end)
    (specIsConstant isForeign bindingOf hookOf)
    isForeign
    bindingOf
    hookOf.

End Program.

(* ================================================================== *)
(** ** Statements of the properties *)
(* ================================================================== *)

Local Open Scope list_scope.

(** The statement [createMemo] pushes when it guards slot [i] of [header]
    by the runtime call [equals(header, i, current)]. *)
Definition equalsGuarded (header : ident) (i : nat) (current : expr)
    (eq v : ident) : stmt :=
  let pos := MemberExpression (Identifier header) (numericLiteral i) true in
  letDeclaration
    [variableDeclarator eq
       (Some (callOf RUNTIME_EQUALS
                [Identifier header; numericLiteral i; current]));
     variableDeclarator v
       (Some (ConditionalExpression (Identifier eq) pos
                (AssignmentExpression "=" pos current)))].

(** The statement [createMemo] pushes for a one-time constant. *)
Definition oneTime (header : ident) (i : nat) (current : expr) (v : ident)
  : stmt :=
  let pos := MemberExpression (Identifier header) (numericLiteral i) true in
  letDeclaration
    [variableDeclarator v
       (Some (ConditionalExpression
                (BinaryExpression "in" (numericLiteral i) (Identifier header))
                pos
                (AssignmentExpression "=" pos current)))].

(** [createMemo(current, dependencies, type)] run in [st] pushes, as its
    one statement, the [equals]-guarded declaration of the slot it
    allocates. *)
Definition emitsEqualsGuard (current : expr) (dependencies : MemoDeps)
    (type : CacheType) (st : Optimizer) : Prop :=
  exists eq v,
    statements (scope (snd (createMemo current dependencies type st)))
    = statements (scope st)
        ++ [equalsGuarded (fst (memoHeader type st))
              (Scope.typeIndeces type (scope st)) current eq v].

(** [createMemo(current, true, type)] run in [st] pushes, as its one
    statement, the one-time declaration of the slot it allocates, and
    registers the identifier it declares as a constant. *)
Definition emitsOneTime (current : expr) (type : CacheType) (st : Optimizer)
  : Prop :=
  exists v,
    statements (scope (snd (createMemo current (MDBool true) type st)))
    = statements (scope st)
        ++ [oneTime (fst (memoHeader type st))
              (Scope.typeIndeces type (scope st)) current v]
    /\ Scope.hasConstant v
         (scope (snd (createMemo current (MDBool true) type st))) = true.

(** [isNestedExpression(node)]. *)
Definition isNested (node : expr) : bool :=
  match node with NestedExpression _ _ => true | _ => false end.

(** Two scope objects that differ in their optimized-identifier table at
    most. *)
Definition sameButOptimized (a b : OptimizerScope) : Prop :=
  set_optimizedID [] a = set_optimizedID [] b.

(** The loop memo declaration
    [let own = branch(parentHeader, parentSlot, 0), id = 0]. *)
Definition loopMemoDeclaration (own parentHeader : ident) (parentSlot : nat)
    (id : ident) : stmt :=
  letDeclaration
    [variableDeclarator own
       (Some (callOf RUNTIME_BRANCH
                [Identifier parentHeader; numericLiteral parentSlot;
                 numericLiteral 0]));
     variableDeclarator id (Some (numericLiteral 0))].

(** The declaration [getLoopMemoHeaderDeclaration] builds:
    [let localIdx = loopIdx++, header = branch(loopHeader, localIdx, size)].
    The update is the postfix one: [t.updateExpression('++', index)] leaves
    [prefix] at its default [false]. *)
Definition iterationHeaderDeclaration (localIdx loopIdx header loopHeader : ident)
    (size : nat) : stmt :=
  letDeclaration
    [variableDeclarator localIdx
       (Some (UpdateExpression "++" (Identifier loopIdx) false));
     variableDeclarator header
       (Some (callOf RUNTIME_BRANCH
                [Identifier loopHeader; Identifier localIdx;
                 numericLiteral size]))].

(** The statement declares the identifier [i]: it is a variable
    declaration with a declarator for [i], or it holds such a declaration
    in one of its blocks or in the head of a [for]. *)
Fixpoint declaresIdentifier (i : ident) (s : stmt) {struct s} : bool :=
  let declared (ds : list declarator) :=
    existsb (fun d => match fst d with
                      | Identifier j => ident_eqb i j
                      | _ => false
                      end) ds in
  let inBlock (o : option (list stmt)) :=
    match o with
    | Some l => existsb (declaresIdentifier i) l
    | None => false
    end in
  match s with
  | VariableDeclaration _ declarations => declared declarations
  | BlockStatement body => existsb (declaresIdentifier i) body
  | IfStatement _ consequent alternate =>
    declaresIdentifier i consequent
    || match alternate with
       | Some a => declaresIdentifier i a
       | None => false
       end
  | LoopStatement head body =>
    match head with
    | ForHead (Some (_, declarations)) _ _ => declared declarations
    | _ => false
    end
    || declaresIdentifier i body
  | TryStatement block handler finalizer =>
    existsb (declaresIdentifier i) block || inBlock handler || inBlock finalizer
  | LabeledStatement _ body => declaresIdentifier i body
  | _ => false
  end.

(** A run keeps the ancestors of the current scope as they are, but for
    their optimized-identifier tables, and keeps the current scope a loop
    body or not, as it was. *)
Definition keeps {A} (m : M A) : Prop :=
  forall st,
    isInLoop (scope (snd (m st))) = isInLoop (scope st)
    /\ Forall2 sameButOptimized (parents st) (parents (snd (m st))).


(** The run of [optimizeExpression] on [e] keeps the ancestors, and so do
    the runs on the two children of a member expression. *)
Definition keepsDeep (env : Env) (e : expr) : Prop :=
  keeps (optimizeExpression env e)
  /\ match e with
     | MemberExpression o p _ =>
       keeps (optimizeExpression env o) /\ keeps (optimizeExpression env p)
     | _ => True
     end.

(** A run leaves the per-iteration headers [loop.memo] and [loop.ref] of
    the current scope as they are. *)
Definition keepsLoopHeaders {A} (m : M A) : Prop :=
  forall st,
    loop_memo (scope (snd (m st))) = loop_memo (scope st)
    /\ loop_ref (scope (snd (m st))) = loop_ref (scope st).

(** The run of [optimizeExpression] on [e] leaves the per-iteration
    headers, and so do the runs on the two children of a member
    expression. *)
Definition keepsLoopHeadersDeep (env : Env) (e : expr) : Prop :=
  keepsLoopHeaders (optimizeExpression env e)
  /\ match e with
     | MemberExpression o p _ =>
       keepsLoopHeaders (optimizeExpression env o)
       /\ keepsLoopHeaders (optimizeExpression env p)
     | _ => True
     end.

(** [P] holds of every statement of an optional block. *)
Definition optAll (P : stmt -> Prop) (o : option (list stmt)) : Prop :=
  match o with Some l => Forall P l | None => True end.

(* ================================================================== *)
(** ** Sample programs *)
(* ================================================================== *)

Module Samples.

(** A component with the local bindings [p] (node 0) and [x] (node 1), the
    foreign names [f], [useRef] and [log]; the statement [log()] whose
    callee is node 50 carries the skip marker. *)
Definition env : Env :=
  Program.env ["f"; "useRef"; "log"] [("p", 0); ("x", 1)] 50.

Definition x_at (n : nat) : expr := Identifier (Src n "x").
Definition call (n : nat) (name : string) (args : list expr) : expr :=
  CallExpression (Identifier (Src n name)) args.

(** [/* skip */ log();] *)
Definition skippedLog : stmt := ExpressionStatement (call 50 "log" []).

(** [{ f(x); }] *)
Definition whileBody : stmt :=
  BlockStatement [ExpressionStatement (call 3 "f" [x_at 4])].

(** [while (x) { f(x); }] *)
Definition whileLoop : stmt :=
  LoopStatement (WhileHead (x_at 2))
    (BlockStatement [ExpressionStatement (call 3 "f" [x_at 4])]).

(** [while (x) { useRef(0); f(x); }] *)
Definition whileLoopWithRef : stmt :=
  LoopStatement (WhileHead (x_at 2))
    (BlockStatement
       [ExpressionStatement (call 5 "useRef" [NumericLiteral 0]);
        ExpressionStatement (call 3 "f" [x_at 4])]).

(** [while (true) { break; }] *)
Definition idleLoop : stmt :=
  LoopStatement (WhileHead (BooleanLiteral true))
    (BlockStatement [OtherStatement "BreakStatement"]).

(** [f + 1], with [f] foreign. *)
Definition foreignSum : expr :=
  BinaryExpression "+" (Identifier (Src 3 "f")) (NumericLiteral 1).

(** A root scope that holds an optimized expression for the binding [x],
    and a fresh child of it as the current scope. *)
Definition xBinding : ident := Src 1 "x".
Definition xOptimized : OptimizedExpression :=
  optimizedExpr (Identifier (Uid 1 "value")) (DepsOne (Identifier (Uid 2 "equals")))
    None.
Definition rootWithX : OptimizerScope :=
  mkScope (Some (Uid 0 "cache")) None 1 0 false [] None None None None
    [(xBinding, xOptimized); (Uid 1 "value", xOptimized)] [].
Definition inChildOfRoot : Optimizer :=
  mkOptimizer (newScope false) [rootWithX] 3.
Definition atRoot : Optimizer := mkOptimizer rootWithX [] 3.
Definition inLoopBody : Optimizer :=
  mkOptimizer (newScope true) [newScope false] 0.

(** The optimizer of a new component once [createMemo(x)] has run: the
    root scope holds an optimized expression for the binding [x]. *)
Definition afterMemoOfX : Optimizer :=
  snd (createMemo (Identifier xBinding) MDOmitted memoType (newOptimizer 0)).



End Samples.

(* ================================================================== *)
(** ** The statement handlers of the simplifier *)
(* ================================================================== *)

(** What an [exit] handler does to the statement at its path: nothing,
    [p.replaceWith(node)] or [p.remove()]. *)
Inductive Replacement : Type :=
| Unchanged
| ReplacedWith (node : stmt)
| Removed.

(** The [exit] handler of [IfStatement]. *)
Definition exitIfStatement (test : expr) (consequent : stmt)
    (alternate : option stmt) : Replacement :=
  match Simplifier.getBooleanishState test with
  | Simplifier.truthy => ReplacedWith consequent
  | Simplifier.indeterminate => Unchanged
  | _ =>
    match alternate with
    | Some a => ReplacedWith a
    | None => Removed
    end
  end.

(** The [exit] handler of [WhileStatement]. *)
Definition exitWhileStatement (test : expr) : Replacement :=
  match Simplifier.getBooleanishState test with
  | Simplifier.falsy => Removed
  | _ => Unchanged
  end.

(* ================================================================== *)
(** ** Notions the further properties are stated with *)
(* ================================================================== *)

(** A [let] declaration, the kind [mergeVariableDeclaration] coalesces. *)
Definition isLet (s : stmt) : bool :=
  match s with
  | VariableDeclaration kind _ => String.eqb kind "let"
  | _ => false
  end.

Definition notLet (s : stmt) : bool := negb (isLet s).

(** The declarators of the [let] declarations of a list of statements, in
    order. *)
Definition letDeclarators (l : list stmt) : list declarator :=
  flat_map
    (fun s =>
       match s with
       | VariableDeclaration kind declarations =>
         if String.eqb kind "let" then declarations else []
       | _ => []
       end)
    l.

(** Every [let] declaration of the list is directly followed by a
    statement that is not one. *)
Fixpoint letsFollowed (l : list stmt) : bool :=
  match l with
  | [] => true
  | s :: rest =>
    if isLet s
    then match rest with
         | next :: _ => notLet next && letsFollowed rest
         | [] => false
         end
    else letsFollowed rest
  end.

(** The dependencies that are there, in order. *)
Definition definedDependencies (dependencies : list (option expr)) : list expr :=
  flat_map (fun o => match o with Some e => [e] | None => [] end) dependencies.

(** A list of dependencies without the identifiers that came before in it
    ([seen] holds those that came before the list). *)
Fixpoint skipSeenIdentifiers (seen : list ident) (dependencies : list expr)
  : list expr :=
  match dependencies with
  | [] => []
  | Identifier i :: rest =>
    if existsb (ident_eqb i) seen
    then skipSeenIdentifiers seen rest
    else Identifier i :: skipSeenIdentifiers (i :: seen) rest
  | d :: rest => d :: skipSeenIdentifiers seen rest
  end.

(** The conjunction of a list of expressions, associated to the left;
    nothing for the empty list. *)
Definition conjunction (conjuncts : list expr) : option expr :=
  match conjuncts with
  | [] => None
  | c :: rest => Some (fold_left (LogicalExpression "&&") rest c)
  end.

(** The headers of a scope carry the prefixes [createHeader] generates
    them with. *)
Definition wellNamed (s : OptimizerScope) : Prop :=
  (forall h, memo s = Some h -> exists n, h = Uid n "cache")
  /\ (forall h, ref s = Some h -> exists n, h = Uid n "ref").

(** The scope [b] is the scope [a] later on: the same kind of scope, no
    slot given back, no statement removed or moved, no header replaced. *)
Definition grows (a b : OptimizerScope) : Prop :=
  isInLoop b = isInLoop a
  /\ indecesMemo a <= indecesMemo b
  /\ indecesRef a <= indecesRef b
  /\ (exists added, statements b = statements a ++ added)
  /\ (forall h, memo a = Some h -> memo b = Some h)
  /\ (forall h, ref a = Some h -> ref b = Some h).

(** A run under which the current scope only grows, the ancestors keep all
    but their optimized-identifier tables, and the uid generator only
    advances. *)
Definition extends {A} (m : M A) : Prop :=
  forall st,
    grows (scope st) (scope (snd (m st)))
    /\ Forall2 sameButOptimized (parents st) (parents (snd (m st)))
    /\ uids st <= uids (snd (m st)).

(** The run of [optimizeExpression] on [e] extends the state, and so do
    the runs on the two children of a member expression. *)
Definition extendsDeep (env : Env) (e : expr) : Prop :=
  extends (optimizeExpression env e)
  /\ match e with
     | MemberExpression o p _ =>
       extends (optimizeExpression env o) /\ extends (optimizeExpression env p)
     | _ => True
     end.

(** [createIndex(type)] called [n] times in a row: the indices handed
    out. *)
Definition createIndices (type : CacheType) (n : nat) : M (list nat) :=
  forEach (fun _ : unit => createIndex type) (repeat tt n).

(** The other cache. *)
Definition otherType (type : CacheType) : CacheType :=
  match type with memoType => refType | refType => memoType end.

(** A for-in or for-of head, [t.isForXStatement]. *)
Definition isForX (head : loop_head) : bool :=
  match head with ForInHead _ _ | ForOfHead _ _ => true | _ => false end.

(** A statement [optimizeStatement] has nothing to optimize in: one of a
    kind it has no case for, or a [return] without argument. *)
Definition isInert (s : stmt) : bool :=
  match s with
  | OtherStatement _ | ReturnStatement None => true
  | _ => false
  end.

(** A block scope that used slot 0 of its memo cache and ends with
    [r = v;]. *)
Definition blockScope : OptimizerScope :=
  mkScope (Some (Uid 4 "cache")) None 1 0 false
    [oneTime (Uid 4 "cache") 0 Samples.foreignSum (Uid 5 "value");
     assignTo (Uid 3 "value") (Identifier (Uid 5 "value"))]
    None None None None [] [].

(** A scope that declared [let y = 1;] and nothing else. *)
Definition letScope : OptimizerScope :=
  mkScope None None 0 0 false
    [letDeclaration [variableDeclarator (Src 9 "y") (Some (NumericLiteral 1))]]
    None None None None [] [].

(* ================================================================== *)
(** ** Basic facts *)
(* ================================================================== *)

Lemma ident_eqb_refl (i : ident) : ident_eqb i i = true.
Proof.
  destruct i; simpl; rewrite ?Nat.eqb_refl, ?String.eqb_refl; reflexivity.
Qed.

Lemma ident_eqb_eq (a b : ident) : ident_eqb a b = true <-> a = b.
Proof.
  split.
  - destruct a, b; simpl; try discriminate;
      rewrite ?andb_true_iff, ?Nat.eqb_eq, ?String.eqb_eq;
      intuition congruence.
  - intros ->. apply ident_eqb_refl.
Qed.

Lemma lookup_not_already (current : expr) (s : OptimizerScope) :
  alreadyOptimized current s = false ->
  match current with
  | Identifier i => Scope.getOptimized i s
  | _ => None
  end = None.
Proof.
  destruct current; simpl; try reflexivity.
  unfold Scope.hasOptimized.
  destruct (Scope.getOptimized i s); [discriminate | reflexivity].
Qed.

Lemma ident_eqb_sym (a b : ident) : ident_eqb a b = ident_eqb b a.
Proof.
  destruct (ident_eqb a b) eqn:E.
  - apply ident_eqb_eq in E. subst. symmetry. apply ident_eqb_refl.
  - destruct (ident_eqb b a) eqn:E'; [| reflexivity].
    apply ident_eqb_eq in E'. subst. rewrite ident_eqb_refl in E. discriminate.
Qed.

Lemma getOptimized_set_set (k k' : ident) (v : OptimizedExpression)
    (s : OptimizerScope) (new : list stmt) :
  Scope.getOptimized k
    (Scope.push new (Scope.setOptimized k' v (Scope.setOptimized k v s)))
  = Some v.
Proof.
  unfold Scope.getOptimized, Scope.push, Scope.setOptimized. simpl.
  destruct (ident_eqb k' k) eqn:E; [reflexivity |].
  rewrite (ident_eqb_sym k k'), E. simpl.
  rewrite ident_eqb_refl. reflexivity.
Qed.

(** Unfolds a run of [createMemo] that does not return at the lookup, down
    to the fields of the current scope. *)
Ltac run_createMemo st Hfresh :=
  let s := fresh "s" in
  let ps := fresh "ps" in
  let u := fresh "u" in
  destruct st as [s ps u]; cbn [scope] in Hfresh;
  unfold emitsEqualsGuard, createMemo, memoHeader, bind, getScope; simpl;
  rewrite (lookup_not_already _ _ Hfresh); clear Hfresh;
  unfold createLoopHeader, createHeader, createIndex, generateUidIdentifier,
    Scope.createLoopHeader, Scope.createHeader, Scope.createIndex;
  destruct s as [m r im ir lp sts lm lr lu li oid cs]; simpl.

(* ================================================================== *)
(** ** The simplifier *)
(* ================================================================== *)

Lemma undecided_is_indeterminate (node : expr) :
  Simplifier.isDecidedLiteral node = false ->
  Simplifier.getBooleanishState node = Simplifier.indeterminate.
Proof.
  induction node; simpl; intros H; try reflexivity; try discriminate.
  apply IHnode, H.
Qed.

(** C8.  When the visitor leaves a logical expression: a nullish left
    operand gives the right operand for [??] and the left one otherwise; a
    falsy one gives the right operand for [||] and the left one otherwise;
    a truthy one gives the right operand for [&&] and the left one
    otherwise; and a left operand that is not a boolean, numeric, string,
    bigint or null literal under its nesting wrappers is indeterminate and
    the expression stays as it is. *)
Theorem logical_expression_simplified (operator : string) (l r : expr) :
  let result := Simplifier.exitLogicalExpression operator l r in
  let state := Simplifier.getBooleanishState l in
  (state = Simplifier.nullish ->
     (operator = "??" -> result = r) /\ (operator <> "??" -> result = l))
  /\ (state = Simplifier.falsy ->
     (operator = "||" -> result = r) /\ (operator <> "||" -> result = l))
  /\ (state = Simplifier.truthy ->
     (operator = "&&" -> result = r) /\ (operator <> "&&" -> result = l))
  /\ (state = Simplifier.indeterminate ->
     result = LogicalExpression operator l r)
  /\ (Simplifier.isDecidedLiteral l = false ->
     state = Simplifier.indeterminate
     /\ result = LogicalExpression operator l r).
Proof.
  intros result state. subst result state.
  unfold Simplifier.exitLogicalExpression.
  repeat split; intros;
    try (rewrite undecided_is_indeterminate by assumption; reflexivity);
    match goal with
    | H : Simplifier.getBooleanishState l = _ |- _ => rewrite H
    | _ => idtac
    end;
    try reflexivity;
    match goal with
    | H : operator = _ |- _ => rewrite H; reflexivity
    | H : operator <> ?o |- _ =>
      destruct (String.eqb_spec operator o); [contradiction | reflexivity]
    end.
Qed.

Lemma logical_expression_simplified_witness :
  Simplifier.exitLogicalExpression "??" NullLiteral (StringLiteral "a")
    = StringLiteral "a"
  /\ Simplifier.exitLogicalExpression "&&"
       (NestedExpression ParenthesizedExpression (NumericLiteral 0))
       (StringLiteral "a")
     = NestedExpression ParenthesizedExpression (NumericLiteral 0)
  /\ Simplifier.exitLogicalExpression "||" (ArrayExpression []) NullLiteral
     = LogicalExpression "||" (ArrayExpression []) NullLiteral.
Proof.
  split; [| split].
  - destruct (logical_expression_simplified "??" NullLiteral (StringLiteral "a"))
      as (Hn & _).
    apply Hn; reflexivity.
  - destruct (logical_expression_simplified "&&"
                (NestedExpression ParenthesizedExpression (NumericLiteral 0))
                (StringLiteral "a")) as (_ & Hf & _).
    apply Hf; [reflexivity | discriminate].
  - destruct (logical_expression_simplified "||" (ArrayExpression []) NullLiteral)
      as (_ & _ & _ & _ & Hu).
    apply Hu; reflexivity.
Defined.

(* ================================================================== *)
(** ** [createMemo] *)
(* ================================================================== *)

(** What a run of [createMemo(current, true, type)] that memoizes does. *)
Lemma createMemo_true_one_time_core (current : expr) (type : CacheType)
    (st : Optimizer) :
  alreadyOptimized current (scope st) = false ->
  exists v st',
    createMemo current (MDBool true) type st
      = (optimizedExpr (Identifier v) (DepsList []) None, st')
    /\ statements (scope st')
       = statements (scope st)
           ++ [oneTime (fst (memoHeader type st))
                 (Scope.typeIndeces type (scope st)) current v]
    /\ Scope.typeIndeces type (scope st')
       = Scope.typeIndeces type (scope st) + 1
    /\ (match type with
        | memoType => indecesRef (scope st') = indecesRef (scope st)
        | refType => indecesMemo (scope st') = indecesMemo (scope st)
        end)
    /\ Scope.hasConstant v (scope st') = true
    /\ parents st' = parents st.
Proof.
  intros Hfresh.
  run_createMemo st Hfresh.
  destruct current, lp, type, m, r, lu; simpl;
    (eexists; eexists; split; [reflexivity |]);
    simpl; unfold Scope.hasConstant; simpl;
    rewrite ?ident_eqb_refl, ?Nat.eqb_refl; simpl; auto.
Qed.

(** C6, as the code has it.  [createMemo(current, true, type)], when it
    does not return at the lookup of an identifier the current scope
    already holds as optimized, emits no guard binding: it
    pushes into the current scope exactly the one declaration
    [let v = (i in header) ? header[i] : (header[i] = current)] for the
    slot [i] it allocates, and registers the fresh [v] in the constants of
    that scope. *)
Theorem createMemo_true_one_time (current : expr) (type : CacheType)
    (st : Optimizer) :
  alreadyOptimized current (scope st) = false ->
  exists v st',
    createMemo current (MDBool true) type st
      = (optimizedExpr (Identifier v) (DepsList []) None, st')
    /\ statements (scope st')
       = statements (scope st)
           ++ [oneTime (fst (memoHeader type st))
                 (Scope.typeIndeces type (scope st)) current v]
    /\ Scope.typeIndeces type (scope st')
       = Scope.typeIndeces type (scope st) + 1
    /\ Scope.hasConstant v (scope st') = true
    /\ parents st' = parents st.
Proof.
  intros Hfresh.
  destruct (createMemo_true_one_time_core current type st Hfresh)
    as (v & st' & Hrun & Hpush & Hidx & _ & Hconst & Hup).
  exists v, st'. auto.
Qed.

Lemma createMemo_true_one_time_witness :
  exists v st',
    createMemo (ObjectExpression [("current", NumericLiteral 0)])
      (MDBool true) refType Samples.atRoot
      = (optimizedExpr (Identifier v) (DepsList []) None, st')
    /\ statements (scope st')
       = [oneTime (Uid 3 "ref") 0
            (ObjectExpression [("current", NumericLiteral 0)]) v]
    /\ Scope.hasConstant v (scope st') = true.
Proof.
  destruct (createMemo_true_one_time
              (ObjectExpression [("current", NumericLiteral 0)]) refType
              Samples.atRoot eq_refl)
    as (v & st' & Hrun & Hpush & _ & Hconst & _).
  exists v, st'. repeat split; assumption.
Defined.

(** C6 as stated fails for an identifier the current scope already holds:
    once [createMemo(x)] has run, [createMemo(x, true)] returns the
    expression recorded then and leaves the optimizer as it is.  Nothing is
    pushed and no constant is registered. *)
Lemma createMemo_true_already_optimized :
  createMemo (Identifier Samples.xBinding) (MDBool true) memoType
    Samples.afterMemoOfX
  = (fst (createMemo (Identifier Samples.xBinding) MDOmitted memoType
            (newOptimizer 0)),
     Samples.afterMemoOfX)
  /\ constants (scope Samples.afterMemoOfX) = []
  /\ ~ emitsOneTime (Identifier Samples.xBinding) memoType Samples.afterMemoOfX.
Proof.
  split; [reflexivity | split; [reflexivity |]].
  intros (v & Hpush & _). vm_compute in Hpush.
  discriminate Hpush.
Qed.

(** C5, as the code has it.  With [dependencies] omitted or [false],
    [createMemo], when it does not return at the lookup of an already
    optimized identifier, guards the slot [i] it allocates by the runtime
    call [equals(header, i, current)]; with an empty list it emits no guard
    and does exactly what it does for [true]. *)
Theorem createMemo_equals_guard (current : expr) (dependencies : MemoDeps)
    (type : CacheType) (st : Optimizer) :
  alreadyOptimized current (scope st) = false ->
  (dependencies = MDOmitted \/ dependencies = MDBool false ->
     emitsEqualsGuard current dependencies type st)
  /\ createMemo current (MDList []) type st
     = createMemo current (MDBool true) type st.
Proof.
  intros Hfresh. split.
  - intros Hdeps.
    run_createMemo st Hfresh.
    destruct Hdeps as [-> | ->]; simpl;
      destruct current, lp, type, m, r, lu; simpl;
      eexists; eexists; reflexivity.
  - reflexivity.
Qed.

Lemma createMemo_equals_guard_witness :
  emitsEqualsGuard (Identifier Samples.xBinding) (MDBool false) memoType
    (newOptimizer 0)
  /\ createMemo (ArrayExpression []) (MDList []) memoType (newOptimizer 0)
     = createMemo (ArrayExpression []) (MDBool true) memoType (newOptimizer 0).
Proof.
  split.
  - apply (createMemo_equals_guard (Identifier Samples.xBinding)
             (MDBool false) memoType (newOptimizer 0) eq_refl).
    right. reflexivity.
  - apply (createMemo_equals_guard (ArrayExpression []) MDOmitted memoType
             (newOptimizer 0) eq_refl).
Defined.

(** C5 as stated fails for the empty list: [createMemo([], [])] pushes the
    one-time declaration, not one guarded by [equals]. *)
Lemma createMemo_empty_list_not_guarded :
  ~ emitsEqualsGuard (ArrayExpression []) (MDList []) memoType (newOptimizer 0).
Proof.
  intros (eq & v & H). vm_compute in H. discriminate H.
Qed.

(** A binding the current scope holds no entry for is memoized by
    [createMemo(binding, false)], whatever the ancestors hold. *)
Lemma createMemo_binding_fresh (binding : ident) (st : Optimizer) :
  Scope.getOptimized binding (scope st) = None ->
  let run := createMemo (Identifier binding) (MDBool false) memoType st in
  (exists n, oexpr (fst run) = Identifier (Uid n "value") /\ uids st <= n)
  /\ indecesMemo (scope (snd run)) = indecesMemo (scope st) + 1
  /\ List.length (statements (scope (snd run)))
     = List.length (statements (scope st)) + 1
  /\ Scope.getOptimized binding (scope (snd run)) = Some (fst run)
  /\ parents (snd run) = parents st.
Proof.
  intros Hmiss run. subst run.
  assert (Hfresh : alreadyOptimized (Identifier binding) (scope st) = false).
  { simpl. unfold Scope.hasOptimized. rewrite Hmiss. reflexivity. }
  clear Hmiss.
  repeat split;
    run_createMemo st Hfresh;
    destruct lp, m, lu; simpl;
    rewrite ?length_app, ?ident_eqb_refl; simpl;
    try reflexivity;
    try (eexists; split; [reflexivity | lia]);
    apply getOptimized_set_set.
Qed.

(** C10.  The lookup of [createMemo] reads the table of the current scope
    only.  Whatever the ancestors hold, when the current scope has no entry
    for a binding, [createMemo(binding, false)] memoizes it again: a fresh
    value identifier, one more memo slot of the current scope, an entry in
    the table of the current scope, and no ancestor touched.  Only
    [deleteOptimized] goes up: when the current scope has no entry and its
    parent has one, it is the parent's entry that goes. *)
Theorem createMemo_dedup_per_scope (binding : ident) (st : Optimizer) :
  Scope.getOptimized binding (scope st) = None ->
  let run := createMemo (Identifier binding) (MDBool false) memoType st in
  (exists n, oexpr (fst run) = Identifier (Uid n "value") /\ uids st <= n)
  /\ indecesMemo (scope (snd run)) = indecesMemo (scope st) + 1
  /\ List.length (statements (scope (snd run)))
     = List.length (statements (scope st)) + 1
  /\ Scope.getOptimized binding (scope (snd run)) = Some (fst run)
  /\ parents (snd run) = parents st
  /\ (forall p up,
        parents st = p :: up ->
        Scope.hasOptimized binding p = true ->
        snd (deleteOptimized binding st)
        = mkOptimizer (scope st)
            (set_optimizedID (Scope.removeID binding (optimizedID p)) p :: up)
            (uids st)).
Proof.
  intros Hmiss run. subst run.
  destruct (createMemo_binding_fresh binding st Hmiss)
    as (Hv & Hidx & Hlen & Hget & Hup).
  repeat split; try assumption.
  intros p up Hp Hhas. unfold deleteOptimized. simpl.
  unfold Scope.hasOptimized at 1. rewrite Hmiss, Hp. simpl.
  rewrite Hhas. reflexivity.
Qed.

Lemma createMemo_dedup_per_scope_witness :
  Scope.getOptimized Samples.xBinding Samples.rootWithX = Some Samples.xOptimized
  /\ oexpr (fst (createMemo (Identifier Samples.xBinding) (MDBool false)
                   memoType Samples.inChildOfRoot))
     <> oexpr Samples.xOptimized
  /\ indecesMemo (scope (snd (createMemo (Identifier Samples.xBinding)
                                (MDBool false) memoType Samples.inChildOfRoot)))
     = 1.
Proof.
  destruct (createMemo_dedup_per_scope Samples.xBinding Samples.inChildOfRoot
              eq_refl) as ((n & Hn & Hle) & Hidx & _).
  split; [reflexivity | split].
  - rewrite Hn. simpl in Hle. intros H. inversion H. subst n. lia.
  - exact Hidx.
Defined.

(** C2, where the code departs from it.  In the body of a loop
    [createMemo] takes its header from [createLoopHeader()], called without
    the cache type: the memo cache and the ref cache are indexed through
    one and the same identifier, before and after a memo of either kind. *)
Theorem loop_body_memo_and_ref_share_header (st : Optimizer) (current : expr)
    (dependencies : MemoDeps) (type : CacheType) :
  isInLoop (scope st) = true ->
  fst (memoHeader memoType st) = fst (memoHeader refType st)
  /\ fst (memoHeader refType (snd (createMemo current dependencies type st)))
     = fst (memoHeader memoType st)
  /\ fst (memoHeader memoType (snd (createMemo current dependencies type st)))
     = fst (memoHeader memoType st).
Proof.
  intros Hloop.
  destruct st as [s ps u].
  destruct s as [m r im ir lp sts lm lr lu li oid cs].
  simpl in Hloop. subst lp.
  split; [reflexivity |].
  unfold createMemo, memoHeader, bind, getScope; simpl.
  destruct (match current with
            | Identifier i =>
              Scope.getOptimized i
                (mkScope m r im ir true sts lm lr lu li oid cs)
            | _ => None
            end) eqn:Hlook.
  - simpl. split; reflexivity.
  - unfold createLoopHeader, createIndex, generateUidIdentifier,
      Scope.createLoopHeader, Scope.createIndex; simpl.
    destruct lu, type; simpl;
      destruct (memoCondition dependencies _ _ current) as [[] |]; simpl;
      destruct current; simpl; split; reflexivity.
Qed.

(** [while (x) { useRef(0); f(x); }]: the ref slot 0 and the memo slot 0 of
    the loop body are both [_loop[0]]. *)
Lemma loop_body_memo_and_ref_share_header_witness :
  fst (memoHeader memoType Samples.inLoopBody)
  = fst (memoHeader refType Samples.inLoopBody)
  /\ (exists rest,
        optimize Samples.env [Samples.whileLoopWithRef; ReturnStatement None]
        = [letDeclaration
             [variableDeclarator (Uid 6 "cache")
                (Some (callOf RUNTIME_CACHE
                         [Identifier preset_useMemo; numericLiteral 1]));
              variableDeclarator (Uid 8 "cache")
                (Some (callOf RUNTIME_BRANCH
                         [Identifier (Uid 6 "cache"); numericLiteral 0;
                          numericLiteral 0]));
              variableDeclarator (Uid 7 "id") (Some (numericLiteral 0))];
           LoopStatement (WhileHead (Samples.x_at 2))
             (BlockStatement
                (oneTime (Uid 0 "loop") 0
                   (ObjectExpression [("current", NumericLiteral 0)])
                   (Uid 1 "value")
                 :: ExpressionStatement (Identifier (Uid 1 "value"))
                 :: letDeclaration
                      (variableDeclarator (Uid 2 "value")
                         (Some (ConditionalExpression
                                  (BinaryExpression "in" (numericLiteral 0)
                                     (Identifier (Uid 0 "loop")))
                                  (MemberExpression (Identifier (Uid 0 "loop"))
                                     (numericLiteral 0) true)
                                  (AssignmentExpression "="
                                     (MemberExpression
                                        (Identifier (Uid 0 "loop"))
                                        (numericLiteral 0) true)
                                     (Identifier (Src 3 "f")))))
                       :: rest)
                 :: [ExpressionStatement (Identifier (Uid 5 "value"))]));
           ReturnStatement None]).
Proof.
  split.
  - apply (loop_body_memo_and_ref_share_header Samples.inLoopBody NullLiteral
             MDOmitted memoType eq_refl).
  - eexists. vm_compute. reflexivity.
Defined.

(* ================================================================== *)
(** ** Statements under the skip marker *)
(* ================================================================== *)

(** C3, where the code departs from it.  [optimizeStatement] returns at
    once on a statement that carries the skip marker: nothing is pushed
    into the current scope, while a statement of a kind the optimizer has
    no case for is pushed as it is, and an expression under the marker is
    handed back as it is. *)
Theorem skipped_statement_not_pushed (env : Env) (node : stmt)
    (topBlock : bool) (st : Optimizer) :
  shouldSkipStmt env node = true ->
  optimizeStatement env node topBlock st = (tt, st)
  /\ (forall type,
        shouldSkipStmt env (OtherStatement type) = false ->
        statements
          (scope (snd (optimizeStatement env (OtherStatement type) topBlock st)))
        = statements (scope st) ++ [OtherStatement type])
  /\ (forall e,
        shouldSkipExpr env e = true ->
        optimizeExpression env e st = (constantExpr e, st)).
Proof.
  intros Hskip. split; [| split].
  - destruct node; simpl; rewrite Hskip; reflexivity.
  - intros type Hother. simpl. rewrite Hother. reflexivity.
  - intros e He. destruct e; simpl; rewrite He; reflexivity.
Qed.

(** [function C() { /* skip */ log(); return; }] becomes
    [function C() { return; }]. *)
Lemma skipped_statement_not_pushed_witness :
  optimizeStatement Samples.env Samples.skippedLog false (newOptimizer 0)
  = (tt, newOptimizer 0)
  /\ optimize Samples.env [Samples.skippedLog; ReturnStatement None]
     = [ReturnStatement None]
  /\ optimize Samples.env [OtherStatement "DebuggerStatement"; ReturnStatement None]
     = [OtherStatement "DebuggerStatement"; ReturnStatement None].
Proof.
  split; [| split].
  - apply (skipped_statement_not_pushed Samples.env Samples.skippedLog false
             (newOptimizer 0) eq_refl).
  - reflexivity.
  - reflexivity.
Defined.

(* ================================================================== *)
(** ** Constant expressions *)
(* ================================================================== *)

(** One step of [optimizeExpression] on a node that is neither skipped,
    nor a wrapper, nor a literal, and that [isConstant] accepts. *)
Lemma optimizeExpression_constant (env : Env) (node : expr) (st : Optimizer) :
  shouldSkipExpr env node = false ->
  isNested node = false ->
  isLiteral node = false ->
  isConstant env st node = true ->
  optimizeExpression env node st = createMemo node (MDBool true) memoType st.
Proof.
  intros Hskip Hnested Hlit Hconst.
  destruct node; simpl in *; try discriminate;
    rewrite Hskip; unfold bind, askConstant; rewrite Hconst; reflexivity.
Qed.

(** C4, as the code has it.  A skipped expression and a literal leave the
    optimizer as it is, and a wrapper is what its inner expression is: no
    slot is consumed.  Any other expression [isConstant] accepts goes to
    [createMemo(node, true)], which (unless the node is an identifier the
    scope already holds) consumes exactly one memo slot of the current
    scope, and no ref slot. *)
Theorem constant_expression_slots (env : Env) (node : expr) (st : Optimizer) :
  (shouldSkipExpr env node = true \/ isLiteral node = true ->
     optimizeExpression env node st = (constantExpr node, st))
  /\ (forall k,
        shouldSkipExpr env (NestedExpression k node) = false ->
        optimizeExpression env (NestedExpression k node) st
        = optimizeExpression env node st)
  /\ (shouldSkipExpr env node = false ->
      isNested node = false ->
      isLiteral node = false ->
      isConstant env st node = true ->
      alreadyOptimized node (scope st) = false ->
      let st' := snd (optimizeExpression env node st) in
      indecesMemo (scope st') = indecesMemo (scope st) + 1
      /\ indecesRef (scope st') = indecesRef (scope st)
      /\ parents st' = parents st).
Proof.
  split; [| split].
  - intros [Hskip | Hlit].
    + destruct node; simpl; rewrite Hskip; reflexivity.
    + destruct node; simpl in *; try discriminate;
        destruct (shouldSkipExpr env _); reflexivity.
  - intros k Hskip. simpl. rewrite Hskip. reflexivity.
  - intros Hskip Hnested Hlit Hconst Hfresh st'. subst st'.
    rewrite (optimizeExpression_constant env node st Hskip Hnested Hlit Hconst).
    destruct (createMemo_true_one_time_core node memoType st Hfresh)
      as (v & st' & Hrun & _ & Hidx & Href & _ & Hup).
    rewrite Hrun. simpl. auto.
Qed.

Lemma constant_expression_slots_witness :
  optimizeExpression Samples.env (NumericLiteral 1) (newOptimizer 0)
  = (constantExpr (NumericLiteral 1), newOptimizer 0)
  /\ indecesMemo
       (scope (snd (optimizeExpression Samples.env Samples.foreignSum
                      (newOptimizer 0))))
     = 1.
Proof.
  destruct (constant_expression_slots Samples.env (NumericLiteral 1)
              (newOptimizer 0)) as (Hlit & _).
  destruct (constant_expression_slots Samples.env Samples.foreignSum
              (newOptimizer 0)) as (_ & _ & Hconst).
  split.
  - apply Hlit. right. reflexivity.
  - apply Hconst; reflexivity.
Defined.

(** C4 as stated fails: [f + 1], with [f] foreign, is constant and takes a
    memo slot. *)
Lemma constant_expression_takes_slot :
  isConstant Samples.env (newOptimizer 0) Samples.foreignSum = true
  /\ indecesMemo
       (scope (snd (optimizeExpression Samples.env Samples.foreignSum
                      (newOptimizer 0))))
     <> indecesMemo (scope (newOptimizer 0)).
Proof.
  split; [reflexivity | vm_compute; discriminate].
Qed.

(* ================================================================== *)
(** ** Assignment to a binding *)
(* ================================================================== *)








(* ================================================================== *)
(** ** Loops *)
(* ================================================================== *)

(** *** Induction over the syntax, through the lists of children *)

Section ExprInduction.
Variable P : expr -> Prop.
Hypothesis Hleaf : forall e,
  match e with
  | Identifier _ | BooleanLiteral _ | NumericLiteral _ | StringLiteral _
  | BigIntLiteral _ | NullLiteral | RegExpLiteral _ | OtherExpression _ => P e
  | _ => True
  end.
Hypothesis Hnested : forall k e, P e -> P (NestedExpression k e).
Hypothesis Hmember : forall o p c, P o -> P p -> P (MemberExpression o p c).
Hypothesis Hcond : forall t c a, P t -> P c -> P a -> P (ConditionalExpression t c a).
Hypothesis Hbinary : forall op l r, P l -> P r -> P (BinaryExpression op l r).
Hypothesis Hlogical : forall op l r, P l -> P r -> P (LogicalExpression op l r).
Hypothesis Hunary : forall op a, P a -> P (UnaryExpression op a).
Hypothesis Hupdate : forall op a prefix, P a -> P (UpdateExpression op a prefix).
Hypothesis Hcall : forall f args, P f -> Forall P args -> P (CallExpression f args).
Hypothesis Hassign : forall op l r, P l -> P r -> P (AssignmentExpression op l r).
Hypothesis Harray : forall xs, Forall P xs -> P (ArrayExpression xs).
Hypothesis Hobject : forall ps, Forall (fun p => P (snd p)) ps -> P (ObjectExpression ps).
Hypothesis Hsequence : forall xs, Forall P xs -> P (SequenceExpression xs).

Lemma expr_nested_ind : forall e, P e.
Proof.
  fix IH 1. intros e.
  destruct e.
  - exact (Hleaf (Identifier i)).
  - exact (Hleaf (BooleanLiteral value)).
  - exact (Hleaf (NumericLiteral value)).
  - exact (Hleaf (StringLiteral value)).
  - exact (Hleaf (BigIntLiteral value)).
  - exact (Hleaf NullLiteral).
  - exact (Hleaf (RegExpLiteral pattern)).
  - apply Hnested, IH.
  - apply Hmember; apply IH.
  - apply Hcond; apply IH.
  - apply Hbinary; apply IH.
  - apply Hlogical; apply IH.
  - apply Hunary, IH.
  - apply Hupdate, IH.
  - apply Hcall; [apply IH |].
    induction arguments; constructor; [apply IH | assumption].
  - apply Hassign; apply IH.
  - apply Harray. induction elements; constructor; [apply IH | assumption].
  - apply Hobject. induction properties as [| [k v] ps IHps]; constructor;
      [apply IH | assumption].
  - apply Hsequence. induction expressions; constructor; [apply IH | assumption].
  - exact (Hleaf (OtherExpression type)).
Qed.
End ExprInduction.

Section StmtInduction.
Variable P : stmt -> Prop.
Hypothesis Hexpr : forall e, P (ExpressionStatement e).
Hypothesis Hdecl : forall k ds, P (VariableDeclaration k ds).
Hypothesis Hreturn : forall a, P (ReturnStatement a).
Hypothesis Hthrow : forall a, P (ThrowStatement a).
Hypothesis Hblock : forall body, Forall P body -> P (BlockStatement body).
Hypothesis Hif : forall t c a, P c -> match a with Some s => P s | None => True end ->
  P (IfStatement t c a).
Hypothesis Hloop : forall h b, P b -> P (LoopStatement h b).
Hypothesis Htry : forall b h f, Forall P b -> optAll P h -> optAll P f -> P (TryStatement b h f).
Hypothesis Hlabeled : forall l b, P b -> P (LabeledStatement l b).
Hypothesis Hother : forall t, P (OtherStatement t).

Lemma stmt_nested_ind : forall s, P s.
Proof.
  fix IH 1. intros s.
  assert (Hall : forall l, Forall P l).
  { induction l; constructor; [apply IH | assumption]. }
  destruct s.
  - apply Hexpr.
  - apply Hdecl.
  - apply Hreturn.
  - apply Hthrow.
  - apply Hblock, Hall.
  - apply Hif; [apply IH | destruct alternate; [apply IH | exact I]].
  - apply Hloop, IH.
  - apply Htry; [apply Hall | destruct handler; simpl; auto
                 | destruct finalizer; simpl; auto].
  - apply Hlabeled, IH.
  - apply Hother.
Qed.
End StmtInduction.

Lemma same_refl (s : OptimizerScope) : sameButOptimized s s.
Proof. reflexivity. Qed.

Lemma same_trans (a b c : OptimizerScope) :
  sameButOptimized a b -> sameButOptimized b c -> sameButOptimized a c.
Proof. unfold sameButOptimized. congruence. Qed.

Lemma same_set_optimizedID (v : list (ident * OptimizedExpression))
    (s : OptimizerScope) : sameButOptimized s (set_optimizedID v s).
Proof. reflexivity. Qed.

Lemma same_isInLoop (a b : OptimizerScope) :
  sameButOptimized a b -> isInLoop a = isInLoop b.
Proof.
  intros H. change (isInLoop (set_optimizedID [] a) = isInLoop (set_optimizedID [] b)).
  rewrite H. reflexivity.
Qed.

Lemma chain_refl (l : list OptimizerScope) : Forall2 sameButOptimized l l.
Proof. induction l; constructor; [apply same_refl | assumption]. Qed.

Lemma chain_trans (a b c : list OptimizerScope) :
  Forall2 sameButOptimized a b -> Forall2 sameButOptimized b c ->
  Forall2 sameButOptimized a c.
Proof.
  intros Hab. revert c.
  induction Hab; intros c Hbc; inversion Hbc; subst; constructor.
  - eapply same_trans; eassumption.
  - auto.
Qed.

Lemma keeps_ret {A} (a : A) : keeps (ret a).
Proof. intros st. split; [reflexivity | apply chain_refl]. Qed.

Lemma keeps_bind {A B} (m : M A) (f : A -> M B) :
  keeps m -> (forall a, keeps (f a)) -> keeps (bind m f).
Proof.
  intros Hm Hf st. unfold bind.
  destruct (Hm st) as [Hl Hp].
  destruct (m st) as [a st1]. simpl in *.
  destruct (Hf a st1) as [Hl' Hp'].
  split; [congruence | eapply chain_trans; eassumption].
Qed.

(** A run that leaves the ancestors alone and the current scope a loop body
    or not, as it was. *)
Lemma keeps_local {A} (m : M A) :
  (forall st, isInLoop (scope (snd (m st))) = isInLoop (scope st)
              /\ parents (snd (m st)) = parents st) ->
  keeps m.
Proof.
  intros H st. destruct (H st) as [Hl Hp].
  split; [exact Hl | rewrite Hp; apply chain_refl].
Qed.

Lemma keeps_getScope : keeps getScope.
Proof. apply keeps_local. intros st. split; reflexivity. Qed.

Lemma keeps_askConstant env e : keeps (askConstant env e).
Proof. apply keeps_local. intros st. split; reflexivity. Qed.

Lemma keeps_generateUidIdentifier p : keeps (generateUidIdentifier p).
Proof. apply keeps_local. intros st. split; reflexivity. Qed.

Lemma keeps_push l : keeps (push l).
Proof. apply keeps_local. intros st. split; reflexivity. Qed.

Lemma keeps_createMemo current dependencies type :
  keeps (createMemo current dependencies type).
Proof.
  apply keeps_local. intros [s ps u].
  unfold createMemo, bind, getScope; simpl.
  destruct (match current with
            | Identifier i => Scope.getOptimized i s
            | _ => None
            end); [split; reflexivity |].
  unfold createLoopHeader, createHeader, createIndex, generateUidIdentifier,
    Scope.createLoopHeader, Scope.createHeader, Scope.createIndex; simpl.
  destruct s as [m r im ir lp sts lm lr lu li oid cs]; simpl.
  destruct lp, type, m, r, lu; simpl;
    destruct (memoCondition dependencies _ _ current) as [[] |]; simpl;
    destruct current; simpl; split; reflexivity.
Qed.

Lemma deleteOptimized_chain key (chain : list OptimizerScope) :
  Forall2 sameButOptimized chain (Scope.deleteOptimized key chain).
Proof.
  induction chain as [| s up IH]; simpl; [constructor |].
  destruct (Scope.hasOptimized key s).
  - constructor; [apply same_set_optimizedID | apply chain_refl].
  - constructor; [apply same_refl | exact IH].
Qed.

Lemma keeps_deleteOptimized key : keeps (deleteOptimized key).
Proof.
  intros st. unfold deleteOptimized.
  pose proof (deleteOptimized_chain key (scope st :: parents st)) as H.
  destruct (Scope.deleteOptimized key (scope st :: parents st)) as [| s up];
    inversion H; subst; simpl.
  split; [symmetry; apply same_isInLoop; assumption | assumption].
Qed.

Lemma keeps_inChildScope {A} (inLoop : bool) (body : M A) :
  keeps body -> keeps (inChildScope inLoop body).
Proof.
  intros Hbody st.
  unfold inChildScope, bind, enterScope, leaveScope, ret.
  destruct (Hbody (mkOptimizer (newScope inLoop) (scope st :: parents st) (uids st)))
    as [_ Hp].
  destruct (body _) as [a st1]. simpl in *.
  destruct (parents st1) as [| p up]; [inversion Hp |].
  inversion Hp; subst. simpl.
  split; [symmetry; apply same_isInLoop; assumption | assumption].
Qed.

Lemma getStatements_parent (this p : OptimizerScope) (u : nat) :
  exists l this' q u',
    Scope.getStatements this (Some p) u = (l, this', Some q, u')
    /\ isInLoop q = isInLoop p
    /\ (isInLoop this = true -> q = p)
    /\ isInLoop this' = isInLoop this.
Proof.
  unfold Scope.getStatements, Scope.getLoopHeaderDeclaration,
    Scope.getDeclarations, Scope.createHeader, Scope.createLoopHeader,
    Scope.createLoopIndex, Scope.createIndex, Scope.typeLoop, Scope.typeHeader.
  destruct this as [m r im ir lp sts lm lr lu li oid cs].
  destruct p as [pm pr pim pir plp psts plm plr plu pli poid pcs].
  simpl.
  destruct lp, m, r, lm, lr, li, pm, pr; simpl;
    do 4 eexists; (split; [reflexivity |]); simpl; auto; repeat split;
    discriminate.
Qed.

Lemma keeps_getStatementsOf child : keeps (getStatementsOf child).
Proof.
  apply keeps_local. intros st. unfold getStatementsOf.
  destruct (getStatements_parent child (scope st) (uids st))
    as (l & this' & q & u' & Hrun & Hloop & _).
  rewrite Hrun. simpl. split; [exact Hloop | reflexivity].
Qed.

Lemma keeps_getLoopMemoDeclarationOf child :
  keeps (getLoopMemoDeclarationOf child).
Proof.
  apply keeps_local. intros st. unfold getLoopMemoDeclarationOf.
  unfold Scope.getLoopDeclaration, Scope.createHeader, Scope.createLoopIndex,
    Scope.createIndex.
  destruct (scope st) as [pm pr pim pir plp psts plm plr plu pli poid pcs].
  destruct child as [m r im ir lp sts lm lr lu li oid cs].
  simpl. destruct pm, li, m; simpl; split; reflexivity.
Qed.

Lemma keeps_forEach {X Y} (visit : X -> M Y) (xs : list X) :
  Forall (fun x => keeps (visit x)) xs -> keeps (forEach visit xs).
Proof.
  induction 1; simpl.
  - apply keeps_ret.
  - apply keeps_bind; [assumption | intros].
    apply keeps_bind; [assumption | intros]. apply keeps_ret.
Qed.

Lemma keeps_dependOnEach {X} (visit : X -> M (option OptimizedExpression))
    (rebuild : X -> expr -> X) (xs : list X) :
  Forall (fun x => keeps (visit x)) xs ->
  forall condition, keeps (dependOnEach visit rebuild xs condition).
Proof.
  induction 1; intros condition; simpl.
  - apply keeps_ret.
  - apply keeps_bind; [assumption | intros [o |]];
      (apply keeps_bind; [auto | intros; apply keeps_ret]).
Qed.

Ltac keeps_step :=
  match goal with
  | |- keeps (ret _) => apply keeps_ret
  | |- keeps (bind _ _) => apply keeps_bind; [| intros]
  | |- keeps getScope => apply keeps_getScope
  | |- keeps (askConstant _ _) => apply keeps_askConstant
  | |- keeps (generateUidIdentifier _) => apply keeps_generateUidIdentifier
  | |- keeps (push _) => apply keeps_push
  | |- keeps (createMemo _ _ _) => apply keeps_createMemo
  | |- keeps (deleteOptimized _) => apply keeps_deleteOptimized
  | |- keeps (getStatementsOf _) => apply keeps_getStatementsOf
  | |- keeps (getLoopMemoDeclarationOf _) => apply keeps_getLoopMemoDeclarationOf
  | |- keeps (inChildScope _ _) => apply keeps_inChildScope
  | |- keeps (if ?c then _ else _) => destruct c
  | |- keeps (match ?x with _ => _ end) => destruct x
  | H : keeps ?m |- keeps ?m => exact H
  end.

Lemma keeps_createDependencyOf (m : M OptimizedExpression) :
  keeps m -> keeps (createDependencyOf m).
Proof.
  intros Hm. unfold createDependencyOf. repeat keeps_step.
Qed.

Lemma keeps_memoizeIdentifier env id : keeps (memoizeIdentifier env id).
Proof. unfold memoizeIdentifier. repeat keeps_step. Qed.

Lemma keeps_memoizeMemberExpressionWith env o p c dO dP :
  keeps dO -> keeps dP ->
  keeps (memoizeMemberExpressionWith env o p c dO dP).
Proof.
  intros HO HP. unfold memoizeMemberExpressionWith. repeat keeps_step.
Qed.

Lemma keeps_optimizeLValWith env node dirty f :
  (forall o p c, node = MemberExpression o p c -> keeps (f o p c)) ->
  keeps (optimizeLValWith env node dirty f).
Proof.
  intros Hf. unfold optimizeLValWith.
  destruct node; try (repeat keeps_step; fail).
  apply (Hf _ _ _ eq_refl).
Qed.

Lemma keeps_optimizeRef args : keeps (optimizeRef args).
Proof. unfold optimizeRef. apply keeps_createMemo. Qed.

Section KeepsExpression.
Variable env : Env.

Lemma keepsDeep_each (xs : list expr) :
  Forall (keepsDeep env) xs ->
  Forall (fun x => keeps (createDependencyOf (optimizeExpression env x))) xs.
Proof.
  apply Forall_impl. intros a [H _]. apply keeps_createDependencyOf, H.
Qed.

Ltac keeps_walk :=
  match goal with
  | H : keepsDeep env _ |- _ => destruct H as [? ?]
  | H : _ /\ _ |- _ => destruct H
  | H : Forall _ (_ :: _) |- _ => inversion H; subst; clear H
  | |- keeps (createDependencyOf _) => apply keeps_createDependencyOf
  | |- keeps (memoizeIdentifier _ _) => apply keeps_memoizeIdentifier
  | |- keeps (memoizeMemberExpressionWith _ _ _ _ _ _) =>
    apply keeps_memoizeMemberExpressionWith
  | |- keeps (optimizeRef _) => apply keeps_optimizeRef
  | |- keeps (dependOnEach _ _ _ _) => apply keeps_dependOnEach
  | |- keeps (forEach _ _) => apply keeps_forEach
  | |- Forall (fun x => keeps (createDependencyOf _)) _ => apply keepsDeep_each
  | _ => keeps_step
  | |- _ => assumption
  end.

Lemma keeps_optimizeExpression_deep : forall e, keepsDeep env e.
Proof.
  apply expr_nested_ind.
  - intros e. destruct e; try exact I; (split; [| exact I]); simpl;
      repeat keeps_walk.
  - intros k e He. split; [| exact I]. simpl. repeat keeps_walk.
  - intros o p c Ho Hp. split; [| destruct Ho, Hp; split; assumption].
    simpl. repeat keeps_walk.
  - intros t c a Ht Hc Ha. split; [| exact I]. simpl. repeat keeps_walk.
  - intros op l r Hl Hr. split; [| exact I]. simpl. repeat keeps_walk.
  - intros op l r Hl Hr. split; [| exact I]. simpl. repeat keeps_walk.
  - intros op a Ha. split; [| exact I]. simpl. repeat keeps_walk.
  - intros op a prefix Ha. split; [| exact I]. simpl. repeat keeps_walk.
  - intros f args Hf Hargs. split; [| exact I]. simpl. repeat keeps_walk.
  - intros op l r Hl Hr. split; [| exact I]. simpl. repeat keeps_walk.
    apply keeps_optimizeLValWith. intros o p c ->.
    repeat keeps_walk.
  - intros xs Hxs. split; [| exact I]. simpl. repeat keeps_walk.
  - intros ps Hps. split; [| exact I]. simpl. repeat keeps_walk.
    revert Hps. apply Forall_impl. intros a [H _].
    apply keeps_createDependencyOf, H.
  - intros xs Hxs. split; [| exact I]. simpl. repeat keeps_walk.
    revert Hxs. apply Forall_impl. intros a [H _]. repeat keeps_walk.
Qed.

Lemma keeps_optimizeExpression (e : expr) : keeps (optimizeExpression env e).
Proof. apply keeps_optimizeExpression_deep. Qed.

Lemma keeps_finalizedChild (body : M unit) :
  keeps body -> keeps (finalizedChild body).
Proof. intros H. unfold finalizedChild. repeat keeps_step. Qed.

Lemma keeps_optimizeLoopStatementWith (body : M unit) :
  keeps body -> keeps (optimizeLoopStatementWith body).
Proof. intros H. unfold optimizeLoopStatementWith. repeat keeps_step. Qed.

Ltac keeps_statement :=
  match goal with
  | H : Forall _ (_ :: _) |- _ => inversion H; subst; clear H
  | |- keeps (optimizeExpression _ _) => apply keeps_optimizeExpression
  | |- keeps (finalizedChild _) => apply keeps_finalizedChild
  | |- keeps (optimizeLoopStatementWith _) =>
    apply keeps_optimizeLoopStatementWith
  | |- keeps (forEach _ _) => apply keeps_forEach
  | _ => keeps_step
  | |- _ => assumption
  end.

Lemma keeps_optimizeStatement :
  forall node topBlock, keeps (optimizeStatement env node topBlock).
Proof.
  intros node. pattern node. apply stmt_nested_ind; clear node.
  - intros e topBlock. simpl. repeat keeps_statement.
  - intros k ds topBlock. simpl. repeat keeps_statement.
    apply Forall_forall. intros d _. repeat keeps_statement.
  - intros a topBlock. simpl. repeat keeps_statement.
  - intros a topBlock. simpl. repeat keeps_statement.
  - intros body Hbody topBlock. simpl. repeat keeps_statement.
    all: revert Hbody; apply Forall_impl; intros ? H; apply H.
  - intros t c a Hc Ha topBlock. simpl. repeat keeps_statement.
    all: auto.
  - intros h b Hb topBlock. simpl. repeat keeps_statement. all: auto.
  - intros b h f Hb Hh Hf topBlock. simpl. repeat keeps_statement.
    all: unfold optAll in *;
      match goal with
      | H : Forall _ ?l |- Forall _ ?l =>
        revert H; apply Forall_impl; intros ? H; apply H
      end.
  - intros l b Hb topBlock. simpl. repeat keeps_statement. auto.
  - intros t topBlock. simpl. repeat keeps_statement.
Qed.
End KeepsExpression.

Lemma same_fields (a b : OptimizerScope) :
  sameButOptimized a b ->
  memo a = memo b /\ ref a = ref b /\ indecesMemo a = indecesMemo b
  /\ indecesRef a = indecesRef b /\ statements a = statements b.
Proof.
  intros H. unfold sameButOptimized in H.
  destruct a, b. simpl in H. inversion H. subst. simpl. auto.
Qed.

Lemma inChildScope_current {A} (inLoop : bool) (body : M A) (st : Optimizer) :
  keeps body ->
  sameButOptimized (scope st) (scope (snd (inChildScope inLoop body st)))
  /\ Forall2 sameButOptimized (parents st)
       (parents (snd (inChildScope inLoop body st)))
  /\ isInLoop (snd (fst (inChildScope inLoop body st))) = inLoop.
Proof.
  intros Hbody.
  unfold inChildScope, bind, enterScope, leaveScope, ret.
  destruct (Hbody (mkOptimizer (newScope inLoop) (scope st :: parents st) (uids st)))
    as [Hl Hp].
  destruct (body _) as [a st1]. simpl in *.
  destruct (parents st1) as [| p up]; [inversion Hp |].
  inversion Hp; subst. simpl. auto.
Qed.

Lemma getDeclarations_with_header (s : OptimizerScope) (h : ident)
    (parent : option OptimizerScope) (u : nat) :
  memo s = Some h ->
  fst (fst (fst (Scope.getDeclarations memoType s parent u))) <> None.
Proof.
  intros H. unfold Scope.getDeclarations, Scope.typeHeader. rewrite H.
  destruct parent as [p |]; [| simpl; discriminate].
  destruct (Scope.createHeader memoType p u) as [[header p1] u1].
  destruct (Scope.createIndex memoType p1) as [index p2].
  simpl. discriminate.
Qed.

Lemma bind_run {A B} (m : M A) (f : A -> M B) (st st1 : Optimizer) (a : A) :
  m st = (a, st1) -> bind m f st = f a st1.
Proof. intros H. unfold bind. rewrite H. reflexivity. Qed.

(** The per-iteration declaration of the memo cache: there exactly when
    the scope holds [loop.memo]. *)
Lemma getLoopHeaderDeclaration_memo (this : OptimizerScope) (u : nat) :
  exists d this' u',
    Scope.getLoopHeaderDeclaration memoType this u = (d, this', u')
    /\ isInLoop this' = isInLoop this
    /\ statements this' = statements this
    /\ (loop_memo this = None -> d = None)
    /\ (forall lh,
          loop_memo this = Some lh ->
          exists localIdx loopIdx h,
            d = Some [iterationHeaderDeclaration localIdx loopIdx lh h
                        (indecesMemo this)]
            /\ memo this' = Some h
            /\ loopIndex this' = Some loopIdx).
Proof.
  unfold Scope.getLoopHeaderDeclaration, Scope.createHeader,
    Scope.createLoopHeader, Scope.createLoopIndex, Scope.typeLoop.
  destruct this as [m r im ir lp sts lm lr lu li oid cs]. simpl.
  destruct lm, m, li; simpl;
    do 3 eexists; (split; [reflexivity |]); simpl;
    (split; [reflexivity |]); (split; [reflexivity |]);
    (split; [intros H; try discriminate H; reflexivity |]);
    intros lh H; try discriminate H; injection H as <-;
    do 3 eexists; (split; [reflexivity |]); split; reflexivity.
Qed.

(** The per-iteration declaration of the ref cache leaves the memo header
    and a loop index that is there as they are. *)
Lemma getLoopHeaderDeclaration_ref (this : OptimizerScope) (u : nat) :
  exists d this' u',
    Scope.getLoopHeaderDeclaration refType this u = (d, this', u')
    /\ memo this' = memo this
    /\ (forall i, loopIndex this = Some i -> loopIndex this' = Some i).
Proof.
  unfold Scope.getLoopHeaderDeclaration, Scope.createHeader,
    Scope.createLoopHeader, Scope.createLoopIndex, Scope.typeLoop.
  destruct this as [m r im ir lp sts lm lr lu li oid cs]. simpl.
  destruct lr, r, li; simpl;
    do 3 eexists; (split; [reflexivity |]); simpl;
    (split; [reflexivity |]); intros ? H; try discriminate H; exact H.
Qed.

(** The finalized statements of a loop body: the statements of the loop
    scope after the per-iteration declarations of the two caches, each
    there only if the scope holds that per-iteration header. *)
Lemma getStatements_loop_body (this p : OptimizerScope) (u : nat) :
  isInLoop this = true ->
  exists memoPart refPart this' u',
    Scope.getStatements this (Some p) u
    = (mergeVariableDeclaration (memoPart ++ refPart ++ statements this),
       this', Some p, u')
    /\ (loop_memo this = None -> memoPart = [])
    /\ (forall lh,
          loop_memo this = Some lh ->
          exists localIdx loopIdx h,
            memoPart
            = [iterationHeaderDeclaration localIdx loopIdx lh h
                 (indecesMemo this)]
            /\ memo this' = Some h
            /\ loopIndex this' = Some loopIdx).
Proof.
  intros Hloop.
  unfold Scope.getStatements. rewrite Hloop.
  destruct (getLoopHeaderDeclaration_memo this u)
    as (d1 & t1 & u1 & E1 & Hloop1 & Hsts1 & Hnone & Hsome).
  rewrite E1. rewrite Hloop1, Hloop.
  destruct (getLoopHeaderDeclaration_ref t1 u1)
    as (d2 & t2 & u2 & E2 & Hmemo2 & Hidx2).
  rewrite E2.
  exists (Scope.orEmpty d1), (Scope.orEmpty d2), t2, u2.
  split; [reflexivity | split].
  - intros H. rewrite (Hnone H). reflexivity.
  - intros lh H.
    destruct (Hsome lh H) as (localIdx & loopIdx & h & Hd & Hh & Hi).
    exists localIdx, loopIdx, h. rewrite Hd, Hmemo2. auto.
Qed.

Lemma getLoopMemoDeclarationOf_run (child : OptimizerScope) (st : Optimizer) :
  exists own id header child' u',
    getLoopMemoDeclarationOf child st
    = ((Some (loopMemoDeclaration own header (indecesMemo (scope st)) id),
        child'),
       mkOptimizer
         (set_indecesMemo (indecesMemo (scope st) + 1)
            (set_memo (Some header) (scope st)))
         (parents st) u')
    /\ (forall h, memo (scope st) = Some h -> header = h)
    /\ (forall h, memo child = Some h -> own = h)
    /\ (forall i, loopIndex child = Some i -> id = i).
Proof.
  unfold getLoopMemoDeclarationOf, Scope.getLoopDeclaration,
    Scope.createHeader, Scope.createLoopIndex, Scope.createIndex.
  destruct st as [p ups u]. simpl.
  destruct p as [pm pr pim pir plp psts plm plr plu pli poid pcs].
  destruct child as [m r im ir lp sts lm lr lu li oid cs].
  simpl.
  destruct pm, li, m; simpl; do 5 eexists;
    (split; [reflexivity |]); repeat split; intros ? H; congruence.
Qed.

(** What [optimizeLoopStatement] does, for any body and from any state: the
    new body, and what the enclosing scope receives. *)
Lemma optimizeLoopStatementWith_run (env : Env) (body : stmt) (st : Optimizer) :
  exists own id header loopScope memoPart refPart st',
    optimizeLoopStatementWith (optimizeStatement env body true) st
    = (BlockStatement
         (mergeVariableDeclaration
            (memoPart ++ refPart ++ statements loopScope)),
       st')
    /\ isInLoop loopScope = true
    /\ (loop_memo loopScope = None -> memoPart = [])
    /\ (forall lh,
          loop_memo loopScope = Some lh ->
          exists localIdx,
            memoPart
            = [iterationHeaderDeclaration localIdx id lh own
                 (indecesMemo loopScope)])
    /\ statements (scope st')
       = statements (scope st)
           ++ [loopMemoDeclaration own header (indecesMemo (scope st)) id]
    /\ memo (scope st') = Some header
    /\ (forall h, memo (scope st) = Some h -> header = h)
    /\ indecesMemo (scope st') = indecesMemo (scope st) + 1
    /\ indecesRef (scope st') = indecesRef (scope st)
    /\ Forall2 sameButOptimized (parents st) (parents st').
Proof.
  unfold optimizeLoopStatementWith.
  destruct (inChildScope_current true (optimizeStatement env body true) st
              (keeps_optimizeStatement env body true))
    as (Hcur & Hup & Hloop).
  destruct (inChildScope true (optimizeStatement env body true) st)
    as [[u0 child] st1] eqn:Hchild. simpl in Hcur, Hup, Hloop.
  rewrite (bind_run _ _ _ _ _ Hchild). cbn [fst snd].
  destruct (getStatements_loop_body child (scope st1) (uids st1) Hloop)
    as (memoPart & refPart & child' & u' & Hfin & Hnone & Hsome).
  assert (Hfin' : getStatementsOf child st1
                  = ((mergeVariableDeclaration
                        (memoPart ++ refPart ++ statements child), child'),
                     mkOptimizer (scope st1) (parents st1) u')).
  { unfold getStatementsOf. rewrite Hfin. reflexivity. }
  rewrite (bind_run _ _ _ _ _ Hfin'). cbn [fst snd].
  destruct (getLoopMemoDeclarationOf_run child'
              (mkOptimizer (scope st1) (parents st1) u'))
    as (own & id & header & child'' & u'' & Hdecl & Hheader & Hown & Hid).
  rewrite (bind_run _ _ _ _ _ Hdecl). cbn [fst snd scope parents] in *.
  destruct (same_fields _ _ Hcur) as (Hm & Hr & Him & Hir & Hsts).
  exists own, id, header, child, memoPart, refPart.
  eexists. split; [unfold bind, push, ret; simpl; reflexivity |].
  simpl. rewrite Hm, Him, Hir, Hsts.
  repeat split; auto.
  intros lh Hlh. destruct (Hsome lh Hlh) as (localIdx & loopIdx & h & Hpart & Hh & Hi).
  exists localIdx. rewrite Hpart, (Hown h Hh), (Hid loopIdx Hi). reflexivity.
Qed.

(** C9.  Whatever the body of the loop, [optimizeLoopStatement] pushes the
    loop memo declaration into the enclosing scope: it takes exactly one
    memo slot of that scope (the next one), no ref slot, and leaves the
    scope with a memo header (the one it had, or a fresh one), so that the
    scope declares its own cache or branch when it is finalized.  The
    ancestors of the scope are untouched but for their optimized tables. *)
Theorem loop_memo_declaration_unconditional (env : Env) (body : stmt)
    (st : Optimizer) :
  let st' :=
    snd (optimizeLoopStatementWith (optimizeStatement env body true) st) in
  exists own id header,
    statements (scope st')
    = statements (scope st)
        ++ [loopMemoDeclaration own header (indecesMemo (scope st)) id]
    /\ memo (scope st') = Some header
    /\ (forall h, memo (scope st) = Some h -> header = h)
    /\ indecesMemo (scope st') = indecesMemo (scope st) + 1
    /\ indecesRef (scope st') = indecesRef (scope st)
    /\ Forall2 sameButOptimized (parents st) (parents st')
    /\ (forall parent u,
          fst (fst (fst (Scope.getDeclarations memoType (scope st') parent u)))
          <> None).
Proof.
  intros st'. subst st'.
  destruct (optimizeLoopStatementWith_run env body st)
    as (own & id & header & loopScope & memoPart & refPart & st' & Hrun & _ & _
        & _ & Hpush & Hmemo & Hheader & Hidx & Href & Hup).
  rewrite Hrun. cbn [snd].
  exists own, id, header. repeat split; auto.
  intros parent u. apply (getDeclarations_with_header _ header). exact Hmemo.
Qed.

(** [while (true) { break; }], a loop with nothing to memoize, still takes
    slot 0 of the component's cache, which is declared for it. *)
Lemma loop_memo_declaration_unconditional_witness :
  optimize Samples.env [Samples.idleLoop; ReturnStatement None]
  = [letDeclaration
       [variableDeclarator (Uid 0 "cache")
          (Some (callOf RUNTIME_CACHE
                   [Identifier preset_useMemo; numericLiteral 1]));
        variableDeclarator (Uid 2 "cache")
          (Some (callOf RUNTIME_BRANCH
                   [Identifier (Uid 0 "cache"); numericLiteral 0;
                    numericLiteral 0]));
        variableDeclarator (Uid 1 "id") (Some (numericLiteral 0))];
     Samples.idleLoop;
     ReturnStatement None]
  /\ exists own id header,
       statements
         (scope (snd (optimizeLoopStatementWith
                        (optimizeStatement Samples.env
                           (BlockStatement [OtherStatement "BreakStatement"])
                           true)
                        (newOptimizer 0))))
       = [loopMemoDeclaration own header 0 id].
Proof.
  split; [reflexivity |].
  destruct (loop_memo_declaration_unconditional Samples.env
              (BlockStatement [OtherStatement "BreakStatement"])
              (newOptimizer 0))
    as (own & id & header & Hpush & _).
  exists own, id, header. exact Hpush.
Defined.

(** *** The per-iteration headers through the walk *)

Lemma same_loop_headers (a b : OptimizerScope) :
  sameButOptimized a b -> loop_memo b = loop_memo a /\ loop_ref b = loop_ref a.
Proof.
  intros H. unfold sameButOptimized in H.
  destruct a, b. simpl in H. inversion H. subst. simpl. auto.
Qed.

Lemma loopHeaders_ret {A} (a : A) : keepsLoopHeaders (ret a).
Proof. intros st. split; reflexivity. Qed.

Lemma loopHeaders_bind {A B} (m : M A) (f : A -> M B) :
  keepsLoopHeaders m -> (forall a, keepsLoopHeaders (f a)) ->
  keepsLoopHeaders (bind m f).
Proof.
  intros Hm Hf st. unfold bind.
  destruct (Hm st) as [Hl Hr].
  destruct (m st) as [a st1]. simpl in *.
  destruct (Hf a st1) as [Hl' Hr'].
  split; congruence.
Qed.

Lemma loopHeaders_getScope : keepsLoopHeaders getScope.
Proof. intros st. split; reflexivity. Qed.

Lemma loopHeaders_askConstant env e : keepsLoopHeaders (askConstant env e).
Proof. intros st. split; reflexivity. Qed.

Lemma loopHeaders_generateUidIdentifier p :
  keepsLoopHeaders (generateUidIdentifier p).
Proof. intros st. split; reflexivity. Qed.

Lemma loopHeaders_push l : keepsLoopHeaders (push l).
Proof. intros st. split; reflexivity. Qed.

(** [createMemo] asks [createLoopHeader()] for the header of a loop body
    without naming the cache: what it sets is [loop[undefined]], never
    [loop.memo] or [loop.ref]. *)
Lemma loopHeaders_createMemo current dependencies type :
  keepsLoopHeaders (createMemo current dependencies type).
Proof.
  intros [s ps u].
  unfold createMemo, bind, getScope; simpl.
  destruct (match current with
            | Identifier i => Scope.getOptimized i s
            | _ => None
            end); [split; reflexivity |].
  unfold createLoopHeader, createHeader, createIndex, generateUidIdentifier,
    Scope.createLoopHeader, Scope.createHeader, Scope.createIndex; simpl.
  destruct s as [m r im ir lp sts lm lr lu li oid cs]; simpl.
  destruct lp, type, m, r, lu; simpl;
    destruct (memoCondition dependencies _ _ current) as [[] |]; simpl;
    destruct current; simpl; split; reflexivity.
Qed.

Lemma loopHeaders_deleteOptimized key : keepsLoopHeaders (deleteOptimized key).
Proof.
  intros st. unfold deleteOptimized.
  pose proof (deleteOptimized_chain key (scope st :: parents st)) as H.
  destruct (Scope.deleteOptimized key (scope st :: parents st)) as [| s up];
    inversion H; subst; simpl.
  apply same_loop_headers. assumption.
Qed.

(** Once the child scope is left, the current scope is the one that was
    current before, with the per-iteration headers it had. *)
Lemma loopHeaders_inChildScope {A} (inLoop : bool) (body : M A) :
  keeps body -> keepsLoopHeaders (inChildScope inLoop body).
Proof.
  intros Hbody st.
  destruct (inChildScope_current inLoop body st Hbody) as (Hcur & _).
  apply same_loop_headers. exact Hcur.
Qed.

Lemma loopHeaders_getStatementsOf child :
  keepsLoopHeaders (getStatementsOf child).
Proof.
  intros st. unfold getStatementsOf.
  unfold Scope.getStatements, Scope.getLoopHeaderDeclaration,
    Scope.getDeclarations, Scope.createHeader, Scope.createLoopHeader,
    Scope.createLoopIndex, Scope.createIndex, Scope.typeLoop, Scope.typeHeader.
  destruct (scope st) as [pm pr pim pir plp psts plm plr plu pli poid pcs].
  destruct child as [m r im ir lp sts lm lr lu li oid cs].
  simpl.
  destruct lp, m, r, lm, lr, li, pm, pr; simpl; split; reflexivity.
Qed.

Lemma loopHeaders_getLoopMemoDeclarationOf child :
  keepsLoopHeaders (getLoopMemoDeclarationOf child).
Proof.
  intros st. unfold getLoopMemoDeclarationOf.
  unfold Scope.getLoopDeclaration, Scope.createHeader, Scope.createLoopIndex,
    Scope.createIndex.
  destruct (scope st) as [pm pr pim pir plp psts plm plr plu pli poid pcs].
  destruct child as [m r im ir lp sts lm lr lu li oid cs].
  simpl. destruct pm, li, m; simpl; split; reflexivity.
Qed.

Lemma loopHeaders_forEach {X Y} (visit : X -> M Y) (xs : list X) :
  Forall (fun x => keepsLoopHeaders (visit x)) xs ->
  keepsLoopHeaders (forEach visit xs).
Proof.
  induction 1; simpl.
  - apply loopHeaders_ret.
  - apply loopHeaders_bind; [assumption | intros].
    apply loopHeaders_bind; [assumption | intros]. apply loopHeaders_ret.
Qed.

Lemma loopHeaders_dependOnEach {X}
    (visit : X -> M (option OptimizedExpression))
    (rebuild : X -> expr -> X) (xs : list X) :
  Forall (fun x => keepsLoopHeaders (visit x)) xs ->
  forall condition, keepsLoopHeaders (dependOnEach visit rebuild xs condition).
Proof.
  induction 1; intros condition; simpl.
  - apply loopHeaders_ret.
  - apply loopHeaders_bind; [assumption | intros [o |]];
      (apply loopHeaders_bind; [auto | intros; apply loopHeaders_ret]).
Qed.

Ltac loopHeaders_step :=
  match goal with
  | |- keepsLoopHeaders (ret _) => apply loopHeaders_ret
  | |- keepsLoopHeaders (bind _ _) => apply loopHeaders_bind; [| intros]
  | |- keepsLoopHeaders getScope => apply loopHeaders_getScope
  | |- keepsLoopHeaders (askConstant _ _) => apply loopHeaders_askConstant
  | |- keepsLoopHeaders (generateUidIdentifier _) =>
    apply loopHeaders_generateUidIdentifier
  | |- keepsLoopHeaders (push _) => apply loopHeaders_push
  | |- keepsLoopHeaders (createMemo _ _ _) => apply loopHeaders_createMemo
  | |- keepsLoopHeaders (deleteOptimized _) => apply loopHeaders_deleteOptimized
  | |- keepsLoopHeaders (getStatementsOf _) => apply loopHeaders_getStatementsOf
  | |- keepsLoopHeaders (getLoopMemoDeclarationOf _) =>
    apply loopHeaders_getLoopMemoDeclarationOf
  | |- keepsLoopHeaders (inChildScope _ _) => apply loopHeaders_inChildScope
  | |- keepsLoopHeaders (if ?c then _ else _) => destruct c
  | |- keepsLoopHeaders (match ?x with _ => _ end) => destruct x
  | H : keepsLoopHeaders ?m |- keepsLoopHeaders ?m => exact H
  end.

Lemma loopHeaders_createDependencyOf (m : M OptimizedExpression) :
  keepsLoopHeaders m -> keepsLoopHeaders (createDependencyOf m).
Proof.
  intros Hm. unfold createDependencyOf. repeat loopHeaders_step.
Qed.

Lemma loopHeaders_memoizeIdentifier env id :
  keepsLoopHeaders (memoizeIdentifier env id).
Proof. unfold memoizeIdentifier. repeat loopHeaders_step. Qed.

Lemma loopHeaders_memoizeMemberExpressionWith env o p c dO dP :
  keepsLoopHeaders dO -> keepsLoopHeaders dP ->
  keepsLoopHeaders (memoizeMemberExpressionWith env o p c dO dP).
Proof.
  intros HO HP. unfold memoizeMemberExpressionWith. repeat loopHeaders_step.
Qed.

Lemma loopHeaders_optimizeLValWith env node dirty f :
  (forall o p c, node = MemberExpression o p c -> keepsLoopHeaders (f o p c)) ->
  keepsLoopHeaders (optimizeLValWith env node dirty f).
Proof.
  intros Hf. unfold optimizeLValWith.
  destruct node; try (repeat loopHeaders_step; fail).
  apply (Hf _ _ _ eq_refl).
Qed.

Lemma loopHeaders_optimizeRef args : keepsLoopHeaders (optimizeRef args).
Proof. unfold optimizeRef. apply loopHeaders_createMemo. Qed.

Section LoopHeadersWalk.
Variable env : Env.

Lemma loopHeadersDeep_each (xs : list expr) :
  Forall (keepsLoopHeadersDeep env) xs ->
  Forall (fun x => keepsLoopHeaders
                     (createDependencyOf (optimizeExpression env x))) xs.
Proof.
  apply Forall_impl. intros a [H _]. apply loopHeaders_createDependencyOf, H.
Qed.

Ltac loopHeaders_walk :=
  match goal with
  | H : keepsLoopHeadersDeep _ _ |- _ => destruct H as [? ?]
  | H : _ /\ _ |- _ => destruct H
  | H : Forall _ (_ :: _) |- _ => inversion H; subst; clear H
  | |- keeps (optimizeExpression _ _) => apply keeps_optimizeExpression
  | |- keepsLoopHeaders (createDependencyOf _) =>
    apply loopHeaders_createDependencyOf
  | |- keepsLoopHeaders (memoizeIdentifier _ _) =>
    apply loopHeaders_memoizeIdentifier
  | |- keepsLoopHeaders (memoizeMemberExpressionWith _ _ _ _ _ _) =>
    apply loopHeaders_memoizeMemberExpressionWith
  | |- keepsLoopHeaders (optimizeRef _) => apply loopHeaders_optimizeRef
  | |- keepsLoopHeaders (dependOnEach _ _ _ _) => apply loopHeaders_dependOnEach
  | |- keepsLoopHeaders (forEach _ _) => apply loopHeaders_forEach
  | |- Forall (fun x => keepsLoopHeaders (createDependencyOf _)) _ =>
    apply loopHeadersDeep_each
  | _ => loopHeaders_step
  | |- _ => assumption
  end.

Lemma loopHeaders_optimizeExpression_deep :
  forall e, keepsLoopHeadersDeep env e.
Proof.
  apply expr_nested_ind.
  - intros e. destruct e; try exact I; (split; [| exact I]); simpl;
      repeat loopHeaders_walk.
  - intros k e He. split; [| exact I]. simpl. repeat loopHeaders_walk.
  - intros o p c Ho Hp. split; [| destruct Ho, Hp; split; assumption].
    simpl. repeat loopHeaders_walk.
  - intros t c a Ht Hc Ha. split; [| exact I]. simpl. repeat loopHeaders_walk.
  - intros op l r Hl Hr. split; [| exact I]. simpl. repeat loopHeaders_walk.
  - intros op l r Hl Hr. split; [| exact I]. simpl. repeat loopHeaders_walk.
  - intros op a Ha. split; [| exact I]. simpl. repeat loopHeaders_walk.
  - intros op a prefix Ha. split; [| exact I]. simpl. repeat loopHeaders_walk.
  - intros f args Hf Hargs. split; [| exact I]. simpl. repeat loopHeaders_walk.
  - intros op l r Hl Hr. split; [| exact I]. simpl. repeat loopHeaders_walk.
    apply loopHeaders_optimizeLValWith. intros o p c ->.
    repeat loopHeaders_walk.
  - intros xs Hxs. split; [| exact I]. simpl. repeat loopHeaders_walk.
  - intros ps Hps. split; [| exact I]. simpl. repeat loopHeaders_walk.
    revert Hps. apply Forall_impl. intros a [H _].
    apply loopHeaders_createDependencyOf, H.
  - intros xs Hxs. split; [| exact I]. simpl. repeat loopHeaders_walk.
    revert Hxs. apply Forall_impl. intros a [H _]. repeat loopHeaders_walk.
Qed.

Lemma loopHeaders_optimizeExpression (e : expr) :
  keepsLoopHeaders (optimizeExpression env e).
Proof. apply loopHeaders_optimizeExpression_deep. Qed.

Lemma loopHeaders_finalizedChild (body : M unit) :
  keeps body -> keepsLoopHeaders (finalizedChild body).
Proof. intros H. unfold finalizedChild. repeat loopHeaders_step. exact H. Qed.

Lemma loopHeaders_optimizeLoopStatementWith (body : M unit) :
  keeps body -> keepsLoopHeaders (optimizeLoopStatementWith body).
Proof.
  intros H. unfold optimizeLoopStatementWith. repeat loopHeaders_step. exact H.
Qed.

(** Every statement leaves the per-iteration headers of the scope it is
    optimized in as they are: what runs in a child scope does not reach
    them, and what runs in the scope itself never sets them. *)
Lemma loopHeaders_optimizeStatement (node : stmt) (topBlock : bool) :
  keepsLoopHeaders (optimizeStatement env node topBlock).
Proof.
  assert (Hblock : forall block body,
            keeps (optimizeBlock env block body)).
  { intros block body. unfold optimizeBlock.
    destruct (shouldSkipStmt env block); [apply keeps_ret |].
    apply keeps_bind; [| intros; apply keeps_ret].
    apply keeps_forEach, Forall_forall. intros s _.
    apply keeps_optimizeStatement. }
  assert (Heach : forall body,
            keeps (forEach (fun s => optimizeStatement env s false) body ;;;
                   ret tt)).
  { intros body.
    apply keeps_bind; [| intros; apply keeps_ret].
    apply keeps_forEach, Forall_forall. intros s _.
    apply keeps_optimizeStatement. }
  revert topBlock. pattern node. apply stmt_nested_ind; clear node.
  - intros e topBlock. simpl. repeat loopHeaders_step.
    apply loopHeaders_optimizeExpression.
  - intros k ds topBlock. simpl. repeat loopHeaders_step.
    apply loopHeaders_forEach, Forall_forall. intros d _.
    repeat loopHeaders_step. apply loopHeaders_optimizeExpression.
  - intros a topBlock. simpl. repeat loopHeaders_step.
    apply loopHeaders_optimizeExpression.
  - intros a topBlock. simpl. repeat loopHeaders_step.
    apply loopHeaders_optimizeExpression.
  - intros body Hbody topBlock. simpl. repeat loopHeaders_step.
    + apply loopHeaders_forEach. revert Hbody. apply Forall_impl.
      intros ? H. apply H.
    + apply loopHeaders_finalizedChild, Heach.
  - intros t c a Hc Ha topBlock. simpl. repeat loopHeaders_step.
    all: try apply loopHeaders_optimizeExpression.
    all: apply loopHeaders_finalizedChild, keeps_optimizeStatement.
  - intros h b Hb topBlock. simpl. repeat loopHeaders_step.
    all: try apply loopHeaders_optimizeExpression.
    all: apply loopHeaders_optimizeLoopStatementWith, keeps_optimizeStatement.
  - intros b h f Hb Hh Hf topBlock. simpl. repeat loopHeaders_step.
    all: apply loopHeaders_finalizedChild, Hblock.
  - intros l b Hb topBlock. simpl. repeat loopHeaders_step.
    apply loopHeaders_finalizedChild, keeps_optimizeStatement.
  - intros t topBlock. simpl. repeat loopHeaders_step.
Qed.

End LoopHeadersWalk.

(** A loop scope that holds neither [loop.memo] nor [loop.ref] is
    finalized to its own statements: no declaration is put before them,
    and neither the scope nor its parent changes. *)
Lemma getStatements_without_loop_headers (this : OptimizerScope)
    (parent : option OptimizerScope) (u : nat) :
  isInLoop this = true ->
  loop_memo this = None ->
  loop_ref this = None ->
  Scope.getStatements this parent u
  = (mergeVariableDeclaration (statements this), this, parent, u).
Proof.
  intros Hloop Hmemo Href.
  unfold Scope.getStatements, Scope.getLoopHeaderDeclaration, Scope.typeLoop.
  rewrite Hloop, Hmemo. simpl. rewrite Hloop, Href. reflexivity.
Qed.

(** The scope a loop body was optimized in comes back from the walk
    without [loop.memo] and without [loop.ref], whatever the body. *)
Lemma loop_scope_without_headers (env : Env) (body : stmt) (st : Optimizer) :
  let loopScope :=
    snd (fst (inChildScope true (optimizeStatement env body true) st)) in
  isInLoop loopScope = true
  /\ loop_memo loopScope = None
  /\ loop_ref loopScope = None.
Proof.
  intros loopScope. subst loopScope.
  destruct (inChildScope_current true (optimizeStatement env body true) st
              (keeps_optimizeStatement env body true))
    as (_ & _ & Hloop).
  split; [exact Hloop |].
  unfold inChildScope, bind, enterScope, leaveScope, ret.
  destruct (loopHeaders_optimizeStatement env body true
              (mkOptimizer (newScope true) (scope st :: parents st) (uids st)))
    as [Hm Hr].
  destruct (optimizeStatement env body true _) as [u0 st1].
  simpl in Hm, Hr. cbn [fst snd].
  destruct (parents st1); cbn [fst snd]; split; assumption.
Qed.

(** C1, where the code departs from it.  The enclosing scope receives the
    one declaration [let loopHeader = branch(parentHeader, parentSlot, 0),
    loopIdx = 0].  The new body, though, never starts with a declaration
    of a local index and a per-iteration header: the scope the body was
    optimized in comes back holding neither [loop.memo] nor [loop.ref],
    whatever the body memoizes, so the new body is the block of the
    statements pushed into that scope, merged, with nothing before them. *)
Theorem loop_body_without_iteration_header (env : Env) (body : stmt)
    (st : Optimizer) :
  let loopScope :=
    snd (fst (inChildScope true (optimizeStatement env body true) st)) in
  let run := optimizeLoopStatementWith (optimizeStatement env body true) st in
  (exists loopHeader loopIdx parentHeader,
     statements (scope (snd run))
     = statements (scope st)
         ++ [loopMemoDeclaration loopHeader parentHeader
               (indecesMemo (scope st)) loopIdx])
  /\ isInLoop loopScope = true
  /\ loop_memo loopScope = None
  /\ loop_ref loopScope = None
  /\ fst run = BlockStatement (mergeVariableDeclaration (statements loopScope)).
Proof.
  intros loopScope run. subst run.
  destruct (loop_scope_without_headers env body st) as (Hloop & Hmemo & Href).
  fold loopScope in Hloop, Hmemo, Href.
  split; [| split; [exact Hloop | split; [exact Hmemo | split; [exact Href |]]]].
  - destruct (optimizeLoopStatementWith_run env body st)
      as (own & id & header & ls & memoPart & refPart & st' & Hrun & _ & _ & _
          & Hpush & _).
    rewrite Hrun. cbn [snd]. exists own, id, header. exact Hpush.
  - unfold optimizeLoopStatementWith.
    subst loopScope.
    destruct (inChildScope true (optimizeStatement env body true) st)
      as [[u0 child] st1] eqn:Hchild.
    cbn [fst snd] in Hloop, Hmemo, Href.
    rewrite (bind_run _ _ _ _ _ Hchild). cbn [fst snd].
    assert (Hfin : getStatementsOf child st1
                   = ((mergeVariableDeclaration (statements child), child),
                      st1)).
    { unfold getStatementsOf.
      rewrite (getStatements_without_loop_headers child (Some (scope st1))
                 (uids st1) Hloop Hmemo Href).
      destruct st1; reflexivity. }
    rewrite (bind_run _ _ _ _ _ Hfin). cbn [fst snd].
    unfold bind.
    destruct (getLoopMemoDeclarationOf child st1) as [[d c] st2].
    cbn [fst snd]. destruct d; reflexivity.
Qed.

(** [while (x) { f(x); }]: the three memos of the body go through
    [_loop], which the loop scope holds under [loop[undefined]] and which
    no statement of the new component declares. *)
Lemma loop_body_without_iteration_header_witness :
  fst (optimizeLoopStatementWith
         (optimizeStatement Samples.env Samples.whileBody true)
         (newOptimizer 0))
  = BlockStatement
      [letDeclaration
         [variableDeclarator (Uid 1 "value")
            (Some (ConditionalExpression
                     (BinaryExpression "in" (numericLiteral 0)
                        (Identifier (Uid 0 "loop")))
                     (MemberExpression (Identifier (Uid 0 "loop"))
                        (numericLiteral 0) true)
                     (AssignmentExpression "="
                        (MemberExpression (Identifier (Uid 0 "loop"))
                           (numericLiteral 0) true)
                        (Identifier (Src 3 "f")))));
          variableDeclarator (Uid 3 "equals")
            (Some (callOf RUNTIME_EQUALS
                     [Identifier (Uid 0 "loop"); numericLiteral 1;
                      Identifier Samples.xBinding]));
          variableDeclarator (Uid 2 "value")
            (Some (ConditionalExpression (Identifier (Uid 3 "equals"))
                     (MemberExpression (Identifier (Uid 0 "loop"))
                        (numericLiteral 1) true)
                     (AssignmentExpression "="
                        (MemberExpression (Identifier (Uid 0 "loop"))
                           (numericLiteral 1) true)
                        (Identifier Samples.xBinding))));
          variableDeclarator (Uid 4 "value")
            (Some (ConditionalExpression (Identifier (Uid 3 "equals"))
                     (MemberExpression (Identifier (Uid 0 "loop"))
                        (numericLiteral 2) true)
                     (AssignmentExpression "="
                        (MemberExpression (Identifier (Uid 0 "loop"))
                           (numericLiteral 2) true)
                        (CallExpression (Identifier (Uid 1 "value"))
                           [Identifier (Uid 2 "value")]))))];
       ExpressionStatement (Identifier (Uid 4 "value"))]
  /\ loop_undefined
       (snd (fst (inChildScope true
                    (optimizeStatement Samples.env Samples.whileBody true)
                    (newOptimizer 0))))
     = Some (Uid 0 "loop")
  /\ loop_memo
       (snd (fst (inChildScope true
                    (optimizeStatement Samples.env Samples.whileBody true)
                    (newOptimizer 0))))
     = None
  /\ optimize Samples.env [Samples.whileLoop; ReturnStatement None]
     = [letDeclaration
          [variableDeclarator (Uid 5 "cache")
             (Some (callOf RUNTIME_CACHE
                      [Identifier preset_useMemo; numericLiteral 1]));
           variableDeclarator (Uid 7 "cache")
             (Some (callOf RUNTIME_BRANCH
                      [Identifier (Uid 5 "cache"); numericLiteral 0;
                       numericLiteral 0]));
           variableDeclarator (Uid 6 "id") (Some (numericLiteral 0))];
        LoopStatement (WhileHead (Samples.x_at 2))
          (fst (optimizeLoopStatementWith
                  (optimizeStatement Samples.env Samples.whileBody true)
                  (newOptimizer 0)));
        ReturnStatement None]
  /\ existsb (declaresIdentifier (Uid 0 "loop"))
       (optimize Samples.env [Samples.whileLoop; ReturnStatement None])
     = false.
Proof.
  destruct (loop_body_without_iteration_header Samples.env Samples.whileBody
              (newOptimizer 0))
    as (_ & _ & Hmemo & _ & Hbody).
  split; [rewrite Hbody; reflexivity |].
  split; [reflexivity |].
  split; [exact Hmemo |].
  split; vm_compute; reflexivity.
Defined.

(** [createMemo] never sets [loop.memo]: it asks [createLoopHeader()] for
    the header of a loop body without naming the cache, so a loop scope
    that holds neither [loop.memo] nor [loop.ref] is finalized to its own
    statements.  In [while (x) { f(x); }] the slots of the body are read
    through [_loop], which no declaration introduces. *)
Lemma loop_header_never_declared :
  (forall current dependencies type st,
     loop_memo (scope (snd (createMemo current dependencies type st)))
     = loop_memo (scope st))
  /\ (forall this parent u,
        isInLoop this = true ->
        loop_memo this = None ->
        loop_ref this = None ->
        fst (fst (fst (Scope.getStatements this parent u)))
        = mergeVariableDeclaration (statements this))
  /\ optimize Samples.env [Samples.whileLoop; ReturnStatement None]
     = [letDeclaration
          [variableDeclarator (Uid 5 "cache")
             (Some (callOf RUNTIME_CACHE
                      [Identifier preset_useMemo; numericLiteral 1]));
           variableDeclarator (Uid 7 "cache")
             (Some (callOf RUNTIME_BRANCH
                      [Identifier (Uid 5 "cache"); numericLiteral 0;
                       numericLiteral 0]));
           variableDeclarator (Uid 6 "id") (Some (numericLiteral 0))];
        LoopStatement (WhileHead (Samples.x_at 2))
          (BlockStatement
             [letDeclaration
                [variableDeclarator (Uid 1 "value")
                   (Some (ConditionalExpression
                            (BinaryExpression "in" (numericLiteral 0)
                               (Identifier (Uid 0 "loop")))
                            (MemberExpression (Identifier (Uid 0 "loop"))
                               (numericLiteral 0) true)
                            (AssignmentExpression "="
                               (MemberExpression (Identifier (Uid 0 "loop"))
                                  (numericLiteral 0) true)
                               (Identifier (Src 3 "f")))));
                 variableDeclarator (Uid 3 "equals")
                   (Some (callOf RUNTIME_EQUALS
                            [Identifier (Uid 0 "loop"); numericLiteral 1;
                             Identifier Samples.xBinding]));
                 variableDeclarator (Uid 2 "value")
                   (Some (ConditionalExpression (Identifier (Uid 3 "equals"))
                            (MemberExpression (Identifier (Uid 0 "loop"))
                               (numericLiteral 1) true)
                            (AssignmentExpression "="
                               (MemberExpression (Identifier (Uid 0 "loop"))
                                  (numericLiteral 1) true)
                               (Identifier Samples.xBinding))));
                 variableDeclarator (Uid 4 "value")
                   (Some (ConditionalExpression (Identifier (Uid 3 "equals"))
                            (MemberExpression (Identifier (Uid 0 "loop"))
                               (numericLiteral 2) true)
                            (AssignmentExpression "="
                               (MemberExpression (Identifier (Uid 0 "loop"))
                                  (numericLiteral 2) true)
                               (CallExpression (Identifier (Uid 1 "value"))
                                  [Identifier (Uid 2 "value")]))))];
              ExpressionStatement (Identifier (Uid 4 "value"))]);
        ReturnStatement None].
Proof.
  split; [| split].
  - intros current dependencies type [s ps u].
    unfold createMemo, bind, getScope; simpl.
    destruct (match current with
              | Identifier i => Scope.getOptimized i s
              | _ => None
              end); [reflexivity |].
    unfold createLoopHeader, createHeader, createIndex, generateUidIdentifier,
      Scope.createLoopHeader, Scope.createHeader, Scope.createIndex; simpl.
    destruct s as [m r im ir lp sts lm lr lu li oid cs]; simpl.
    destruct lp, type, m, r, lu; simpl;
      destruct (memoCondition dependencies _ _ current) as [[] |]; simpl;
      destruct current; reflexivity.
  - intros this parent u Hloop Hmemo Href.
    unfold Scope.getStatements, Scope.getLoopHeaderDeclaration, Scope.typeLoop.
    rewrite Hloop, Hmemo. simpl. rewrite Hloop, Href. reflexivity.
  - vm_compute. reflexivity.
Qed.

(* ================================================================== *)
(** ** Coalescing of [let] declarations *)
(* ================================================================== *)

Lemma isLet_letDeclaration (ds : list declarator) :
  isLet (letDeclaration ds) = true.
Proof. reflexivity. Qed.

Lemma filter_notLet_pending (stack : list declarator) :
  filter notLet
    (match stack with [] => [] | _ => [letDeclaration stack] end) = [].
Proof. destruct stack; reflexivity. Qed.

Lemma mergeLoop_keeps_others (l : list stmt) :
  forall stack acc,
    filter notLet (mergeLoop l stack acc)
    = filter notLet acc ++ filter notLet l.
Proof.
  induction l as [| value rest IH]; intros stack acc; simpl.
  - rewrite app_nil_r. reflexivity.
  - assert (Hflush :
      notLet value = true ->
      filter notLet
        (mergeLoop rest []
           (acc ++ match stack with [] => [] | _ => [letDeclaration stack] end
                ++ [value]))
      = filter notLet acc ++ value :: filter notLet rest).
    { intros Hv. rewrite IH, !filter_app, filter_notLet_pending. simpl.
      rewrite Hv, <- app_assoc. reflexivity. }
    destruct value; try (rewrite Hflush by reflexivity; reflexivity).
    unfold notLet at 3. simpl.
    destruct (String.eqb kind "let") eqn:E; simpl.
    + apply IH.
    + apply Hflush. unfold notLet. simpl. rewrite E. reflexivity.
Qed.

(** X1.  [mergeVariableDeclaration] keeps every statement that is not a [let]
    declaration, in the order it came in: it removes none, adds none and
    moves none. *)
Theorem merge_keeps_other_statements (l : list stmt) :
  filter notLet (mergeVariableDeclaration l) = filter notLet l.
Proof. unfold mergeVariableDeclaration. apply (mergeLoop_keeps_others l [] []). Qed.

Lemma letsFollowed_snoc (acc : list stmt) (v : stmt) :
  letsFollowed acc = true -> notLet v = true ->
  letsFollowed (acc ++ [v]) = true.
Proof.
  intros Hacc Hv.
  induction acc as [| x rest IH]; simpl in *.
  - unfold notLet in Hv. destruct (isLet v); [discriminate | reflexivity].
  - destruct (isLet x).
    + destruct rest as [| next rest']; [discriminate |].
      apply andb_true_iff in Hacc. destruct Hacc as [Hn Hr].
      simpl. rewrite Hn. simpl. apply IH, Hr.
    + apply IH, Hacc.
Qed.

Lemma letsFollowed_flush (acc : list stmt) (stack : list declarator) (v : stmt) :
  letsFollowed acc = true -> notLet v = true ->
  letsFollowed
    (acc ++ match stack with [] => [] | _ => [letDeclaration stack] end ++ [v])
  = true.
Proof.
  intros Hacc Hv.
  destruct stack as [| d ds]; [apply letsFollowed_snoc; assumption |].
  induction acc as [| x rest IH]; simpl in *.
  - rewrite Hv. unfold notLet in Hv. destruct (isLet v); [discriminate | reflexivity].
  - destruct (isLet x).
    + destruct rest as [| next rest']; [discriminate |].
      apply andb_true_iff in Hacc. destruct Hacc as [Hn Hr].
      simpl. rewrite Hn. simpl. apply IH, Hr.
    + apply IH, Hacc.
Qed.

Lemma mergeLoop_letsFollowed (l : list stmt) :
  forall stack acc,
    letsFollowed acc = true -> letsFollowed (mergeLoop l stack acc) = true.
Proof.
  induction l as [| value rest IH]; intros stack acc Hacc; simpl.
  - exact Hacc.
  - assert (Hflush :
      notLet value = true ->
      letsFollowed
        (mergeLoop rest []
           (acc ++ match stack with [] => [] | _ => [letDeclaration stack] end
                ++ [value])) = true).
    { intros Hv. apply IH, letsFollowed_flush; assumption. }
    destruct value; try (apply Hflush; reflexivity).
    destruct (String.eqb kind "let") eqn:E.
    + apply IH, Hacc.
    + apply Hflush. unfold notLet. simpl. rewrite E. reflexivity.
Qed.

(** X2.  In what [mergeVariableDeclaration] returns, every [let] declaration is
    directly followed by a statement that is not one: two [let]
    declarations are never next to each other, and none comes last. *)
Theorem merge_coalesces_adjacent_lets (l : list stmt) :
  letsFollowed (mergeVariableDeclaration l) = true.
Proof. apply mergeLoop_letsFollowed. reflexivity. Qed.

Lemma mergeLoop_only_lets (lets : list stmt) :
  Forall (fun s => isLet s = true) lets ->
  forall stack acc, mergeLoop lets stack acc = acc.
Proof.
  induction 1 as [| value rest Hv _ IH]; intros stack acc; simpl.
  - reflexivity.
  - destruct value; simpl in Hv; try discriminate.
    rewrite Hv. apply IH.
Qed.

Lemma mergeLoop_trailing_lets (l lets : list stmt) :
  Forall (fun s => isLet s = true) lets ->
  forall stack acc, mergeLoop (l ++ lets) stack acc = mergeLoop l stack acc.
Proof.
  intros Hlets.
  induction l as [| value rest IH]; intros stack acc; simpl.
  - apply mergeLoop_only_lets, Hlets.
  - destruct value; try apply IH.
    destruct (String.eqb kind "let"); apply IH.
Qed.

(** X3.  [mergeVariableDeclaration] flushes its stack of declarators only when
    it meets a statement that is not a [let] declaration: the [let]
    declarations after the last such statement are left out of the result,
    and a list of [let] declarations only is merged to the empty list. *)
Theorem merge_drops_trailing_lets (l lets : list stmt) :
  Forall (fun s => isLet s = true) lets ->
  mergeVariableDeclaration (l ++ lets) = mergeVariableDeclaration l
  /\ mergeVariableDeclaration lets = [].
Proof.
  intros Hlets. split.
  - apply mergeLoop_trailing_lets, Hlets.
  - apply mergeLoop_only_lets, Hlets.
Qed.

Lemma letDeclarators_app (a b : list stmt) :
  letDeclarators (a ++ b) = letDeclarators a ++ letDeclarators b.
Proof. unfold letDeclarators. apply flat_map_app. Qed.

Lemma letDeclarators_pending (stack : list declarator) :
  letDeclarators (match stack with [] => [] | _ => [letDeclaration stack] end)
  = stack.
Proof. destruct stack; simpl; [reflexivity | rewrite app_nil_r; reflexivity]. Qed.

Lemma mergeLoop_declarators (l : list stmt) (last : stmt) :
  notLet last = true ->
  forall stack acc,
    letDeclarators (mergeLoop (l ++ [last]) stack acc)
    = letDeclarators acc ++ stack ++ letDeclarators (l ++ [last]).
Proof.
  intros Hlast.
  assert (Hnone : letDeclarators [last] = []).
  { unfold notLet in Hlast. destruct last; try reflexivity.
    simpl in *. destruct (String.eqb kind "let"); [discriminate | reflexivity]. }
  induction l as [| value rest IH]; intros stack acc.
  - change ([] ++ [last]) with [last]. rewrite Hnone, app_nil_r.
    assert (Hflush :
      letDeclarators
        (mergeLoop [] []
           (acc ++ match stack with [] => [] | _ => [letDeclaration stack] end
                ++ [last]))
      = letDeclarators acc ++ stack).
    { simpl. rewrite !letDeclarators_app, letDeclarators_pending, Hnone.
      rewrite app_nil_r. reflexivity. }
    unfold notLet in Hlast.
    destruct last; try exact Hflush.
    simpl in Hlast. simpl. destruct (String.eqb kind "let"); [discriminate |].
    exact Hflush.
  - change ((value :: rest) ++ [last]) with (value :: (rest ++ [last])).
    assert (Hflush :
      letDeclarators [value] = [] ->
      letDeclarators
        (mergeLoop (rest ++ [last]) []
           (acc ++ match stack with [] => [] | _ => [letDeclaration stack] end
                ++ [value]))
      = letDeclarators acc ++ stack ++ letDeclarators (value :: rest ++ [last])).
    { intros Hv. rewrite IH, !letDeclarators_app, letDeclarators_pending, Hv.
      change (value :: rest ++ [last]) with ([value] ++ (rest ++ [last])).
      rewrite (letDeclarators_app [value]), Hv.
      rewrite ?letDeclarators_app, !app_nil_r, <- !app_assoc. reflexivity. }
    destruct value; try (apply Hflush; reflexivity).
    simpl mergeLoop.
    destruct (String.eqb kind "let") eqn:E.
    + rewrite IH.
      change (VariableDeclaration kind declarations :: rest ++ [last])
        with ([VariableDeclaration kind declarations] ++ (rest ++ [last])).
      rewrite (letDeclarators_app [VariableDeclaration kind declarations]).
      assert (Hone : letDeclarators [VariableDeclaration kind declarations]
                     = declarations).
      { simpl. rewrite E. apply app_nil_r. }
      rewrite Hone, ?letDeclarators_app, <- !app_assoc. reflexivity.
    + apply Hflush. simpl. rewrite E. reflexivity.
Qed.

(** X4.  When the last statement is not a [let] declaration,
    [mergeVariableDeclaration] keeps every declarator of every [let]
    declaration, in order: merging regroups them and loses none. *)
Theorem merge_keeps_declarators (l : list stmt) (last : stmt) :
  notLet last = true ->
  letDeclarators (mergeVariableDeclaration (l ++ [last]))
  = letDeclarators (l ++ [last]).
Proof.
  intros Hlast. unfold mergeVariableDeclaration.
  rewrite (mergeLoop_declarators l last Hlast [] []). reflexivity.
Qed.

(* ================================================================== *)
(** ** Slots, headers and the optimized table *)
(* ================================================================== *)

Lemma createIndices_run (type : CacheType) (n : nat) :
  forall st,
    fst (createIndices type n st) = seq (Scope.typeIndeces type (scope st)) n
    /\ Scope.typeIndeces type (scope (snd (createIndices type n st)))
       = Scope.typeIndeces type (scope st) + n
    /\ Scope.typeIndeces
         (match type with memoType => refType | refType => memoType end)
         (scope (snd (createIndices type n st)))
       = Scope.typeIndeces
           (match type with memoType => refType | refType => memoType end)
           (scope st).
Proof.
  unfold createIndices.
  induction n as [| n IH]; intros st; simpl.
  - repeat split; lia.
  - destruct (createIndex type st) as [i st1] eqn:E1.
    assert (Hi : i = Scope.typeIndeces type (scope st)
                 /\ Scope.typeIndeces type (scope st1)
                    = S (Scope.typeIndeces type (scope st))
                 /\ Scope.typeIndeces
                      (match type with memoType => refType | refType => memoType end)
                      (scope st1)
                    = Scope.typeIndeces
                        (match type with memoType => refType | refType => memoType end)
                        (scope st)).
    { unfold createIndex, Scope.createIndex in E1.
      destruct type; inversion E1; subst; simpl; repeat split; lia. }
    destruct Hi as (Hi & Hn & Ho).
    rewrite (bind_run _ _ _ _ _ E1).
    destruct (IH st1) as (Hl & Hc & Hother).
    destruct (forEach _ (repeat tt n) st1) as [rest st2] eqn:E2.
    rewrite (bind_run _ _ _ _ _ E2).
    unfold ret. cbn [fst snd] in *.
    subst i rest. rewrite Hc, Hother, Hn, Ho.
    repeat split; lia.
Qed.

(** X5.  [createIndex(type)] called [n] times in a row hands out the [n]
    consecutive indices that start at the counter of that cache, advances
    that counter by [n], and leaves the counter of the other cache as it
    is. *)
Theorem createIndex_contiguous (type : CacheType) (n : nat) (st : Optimizer) :
  fst (createIndices type n st) = seq (Scope.typeIndeces type (scope st)) n
  /\ Scope.typeIndeces type (scope (snd (createIndices type n st)))
     = Scope.typeIndeces type (scope st) + n
  /\ Scope.typeIndeces
       (match type with memoType => refType | refType => memoType end)
       (scope (snd (createIndices type n st)))
     = Scope.typeIndeces
         (match type with memoType => refType | refType => memoType end)
         (scope st).
Proof. apply createIndices_run. Qed.

(** X6.  [createHeader(type)] is stable: once it has been called, a later call
    for the same cache, also after a call for either cache in between,
    returns the same identifier and changes neither the scope nor the uid
    generator. *)
Theorem createHeader_idempotent (type other : CacheType) (s : OptimizerScope)
    (u : nat) :
  let first := Scope.createHeader type s u in
  let between := Scope.createHeader other (snd (fst first)) (snd first) in
  Scope.createHeader type (snd (fst between)) (snd between)
  = (fst (fst first), snd (fst between), snd between).
Proof.
  destruct s as [m r im ir lp sts lm lr lu li oid cs].
  destruct type, other, m, r; reflexivity.
Qed.

Lemma removeID_other (key other : ident)
    (l : list (ident * OptimizedExpression)) :
  other <> key ->
  Scope.lookupID other (Scope.removeID key l) = Scope.lookupID other l.
Proof.
  intros Hne.
  induction l as [| [k v] l IH]; simpl; [reflexivity |].
  destruct (ident_eqb k key) eqn:E; simpl.
  - apply ident_eqb_eq in E. subst k.
    destruct (ident_eqb key other) eqn:E'; [| exact IH].
    apply ident_eqb_eq in E'. congruence.
  - rewrite IH. reflexivity.
Qed.

Lemma deleteOptimized_lookups (key other : ident) (chain : list OptimizerScope) :
  other <> key ->
  map (Scope.getOptimized other) (Scope.deleteOptimized key chain)
  = map (Scope.getOptimized other) chain.
Proof.
  intros Hne.
  induction chain as [| s up IH]; simpl; [reflexivity |].
  destruct (Scope.hasOptimized key s); simpl.
  - f_equal. unfold Scope.getOptimized. simpl. apply removeID_other, Hne.
  - f_equal. exact IH.
Qed.

Lemma deleteOptimized_absent (key : ident) (chain : list OptimizerScope) :
  Forall (fun s => Scope.getOptimized key s = None) chain ->
  Scope.deleteOptimized key chain = chain.
Proof.
  induction 1 as [| s up Hs _ IH]; simpl; [reflexivity |].
  unfold Scope.hasOptimized. rewrite Hs, IH. reflexivity.
Qed.

(** X7.  [deleteOptimized(key)] is local to its key: in every scope of the
    chain the entry of any other identifier is what it was, nothing but
    optimized tables changes, and when no scope holds the key the chain
    is returned as it is. *)
Theorem deleteOptimized_other_keys (key : ident) (chain : list OptimizerScope) :
  (forall other,
     other <> key ->
     map (Scope.getOptimized other) (Scope.deleteOptimized key chain)
     = map (Scope.getOptimized other) chain)
  /\ Forall2 sameButOptimized chain (Scope.deleteOptimized key chain)
  /\ (Forall (fun s => Scope.getOptimized key s = None) chain ->
      Scope.deleteOptimized key chain = chain).
Proof.
  split; [| split].
  - intros other Hne. apply deleteOptimized_lookups, Hne.
  - apply deleteOptimized_chain.
  - apply deleteOptimized_absent.
Qed.

(* ================================================================== *)
(** ** The guard of a list of dependencies *)
(* ================================================================== *)

Lemma combineDependencies_from (dependencies : list (option expr)) :
  forall c seen,
    combineDependencies dependencies (Some c) seen
    = Some (fold_left (LogicalExpression "&&")
              (skipSeenIdentifiers seen (definedDependencies dependencies)) c).
Proof.
  induction dependencies as [| [d |] rest IH]; intros c seen; simpl.
  - reflexivity.
  - destruct d; simpl; try apply IH.
    destruct (existsb (ident_eqb i) seen); simpl; apply IH.
  - apply IH.
Qed.

(** X8.  The loop of [createMemo] over an array of dependencies builds the
    left-associated [&&] of the dependencies that are there, in order,
    without the identifiers that already came before in the array; for an
    array with no dependency there it builds no condition. *)
Theorem combineDependencies_conjunction (dependencies : list (option expr)) :
  combineDependencies dependencies None []
  = conjunction (skipSeenIdentifiers [] (definedDependencies dependencies)).
Proof.
  induction dependencies as [| [d |] rest IH]; simpl.
  - reflexivity.
  - rewrite combineDependencies_from.
    destruct d; reflexivity.
  - exact IH.
Qed.

(* ================================================================== *)
(** ** [createMemo], in general *)
(* ================================================================== *)

(** The step of [createMemo] that selects the header. *)
Lemma selectHeader_run (type : CacheType) (st : Optimizer) :
  exists s1 u1,
    (if isInLoop (scope st) then createLoopHeader None else createHeader type) st
    = (fst (memoHeader type st), mkOptimizer s1 (parents st) u1)
    /\ uids st <= u1 <= S (uids st)
    /\ statements s1 = statements (scope st)
    /\ indecesMemo s1 = indecesMemo (scope st)
    /\ indecesRef s1 = indecesRef (scope st)
    /\ isInLoop s1 = isInLoop (scope st)
    /\ optimizedID s1 = optimizedID (scope st)
    /\ constants s1 = constants (scope st)
    /\ (forall h, memo (scope st) = Some h -> memo s1 = Some h)
    /\ (forall h, ref (scope st) = Some h -> ref s1 = Some h)
    /\ (wellNamed (scope st) -> wellNamed s1)
    /\ (isInLoop (scope st) = false ->
        Scope.typeHeader type s1 = Some (fst (memoHeader type st))).
Proof.
  destruct st as [s ps u].
  unfold memoHeader, bind, getScope, createLoopHeader, createHeader,
    Scope.createLoopHeader, Scope.createHeader, wellNamed.
  destruct s as [m r im ir lp sts lm lr lu li oid cs]. simpl.
  destruct lp, type, m, r, lu; simpl;
    do 2 eexists; (split; [reflexivity |]); simpl;
    repeat split; auto; try lia; try discriminate;
    try (intros ? H; inversion H; subst; eauto; fail);
    try (match goal with H : _ /\ _ |- _ => destruct H as [Hm Hr] end;
         intros ? H; first [apply Hm, H | apply Hr, H
                           | inversion H; subst; eauto]).
Qed.

Lemma createIndex_run (type : CacheType) (st : Optimizer) :
  createIndex type st
  = (Scope.typeIndeces type (scope st),
     mkOptimizer (snd (Scope.createIndex type (scope st))) (parents st) (uids st)).
Proof. destruct type; reflexivity. Qed.

(** The step of [createMemo] that records an identifier as optimized
    changes the optimized table of the current scope, and nothing else. *)
Lemma recordOptimized_run (current : expr) (v : ident)
    (o : OptimizedExpression) (st : Optimizer) :
  exists oid,
    (match current with
     | Identifier i => setOptimized i o ;;; setOptimized v o
     | _ => ret tt
     end) st
    = (tt, mkOptimizer (set_optimizedID oid (scope st)) (parents st) (uids st)).
Proof.
  destruct st as [s ps u]. destruct s.
  destruct current; try (eexists; reflexivity).
Qed.

(** What every run of [createMemo] that memoizes does. *)
Lemma createMemo_memoizes (current : expr) (dependencies : MemoDeps)
    (type : CacheType) (st : Optimizer) :
  alreadyOptimized current (scope st) = false ->
  let header := fst (memoHeader type st) in
  let i := Scope.typeIndeces type (scope st) in
  let pos := MemberExpression (Identifier header) (numericLiteral i) true in
  exists n guardDeclarators guard deps st',
    createMemo current dependencies type st
    = (optimizedExpr (Identifier (Uid n "value")) deps None, st')
    /\ uids st <= n < uids st'
    /\ uids st' <= uids st + 3
    /\ statements (scope st')
       = statements (scope st)
           ++ [letDeclaration
                 (guardDeclarators
                    ++ [variableDeclarator (Uid n "value")
                          (Some (ConditionalExpression guard pos
                                   (AssignmentExpression "=" pos current)))])]
    /\ List.length guardDeclarators <= 1
    /\ Scope.typeIndeces type (scope st') = i + 1
    /\ Scope.typeIndeces (otherType type) (scope st')
       = Scope.typeIndeces (otherType type) (scope st)
    /\ isInLoop (scope st') = isInLoop (scope st)
    /\ (forall h, memo (scope st) = Some h -> memo (scope st') = Some h)
    /\ (forall h, ref (scope st) = Some h -> ref (scope st') = Some h)
    /\ (wellNamed (scope st) -> wellNamed (scope st'))
    /\ (isInLoop (scope st) = false ->
        Scope.typeHeader type (scope st') = Some header)
    /\ parents st' = parents st.
Proof.
  intros Hfresh header i pos.
  unfold createMemo.
  rewrite (bind_run getScope _ st st (scope st) eq_refl).
  rewrite (lookup_not_already _ _ Hfresh).
  destruct (selectHeader_run type st)
    as (s1 & u1 & Eh & Hu1 & Hsts & Him & Hir & Hlp & Hoid & Hcs & Hm & Hr
        & Hwn & Hth).
  rewrite (bind_run _ _ _ _ _ Eh).
  rewrite (bind_run _ _ _ _ _ (createIndex_run type _)).
  cbn [scope parents uids].
  assert (Hidx : Scope.typeIndeces type s1 = i).
  { subst i. destruct type; simpl; assumption. }
  rewrite Hidx.
  erewrite bind_run by reflexivity. cbn [scope parents uids].
  fold header. fold pos.
  set (condition := memoCondition dependencies header i current).
  set (s2 := snd (Scope.createIndex type s1)).
  assert (Hs2 : statements s2 = statements (scope st)
                /\ Scope.typeIndeces type s2 = i + 1
                /\ Scope.typeIndeces (otherType type) s2
                   = Scope.typeIndeces (otherType type) (scope st)
                /\ isInLoop s2 = isInLoop (scope st)
                /\ memo s2 = memo s1 /\ ref s2 = ref s1).
  { subst s2 i. destruct type; simpl; repeat split; auto; lia. }
  destruct Hs2 as (Hsts2 & Hidx2 & Hoth2 & Hlp2 & Hm2 & Hr2).
  assert (Hfinish :
    forall u2 decl guard deps,
      u1 < u2 <= u1 + 2 -> List.length decl <= 1 ->
      exists st',
        (match condition with None => addConstant (Uid u1 "value") | Some _ => ret tt end ;;;
         match current with
         | Identifier i0 =>
           setOptimized i0 (optimizedExpr (Identifier (Uid u1 "value")) deps None) ;;;
           setOptimized (Uid u1 "value")
             (optimizedExpr (Identifier (Uid u1 "value")) deps None)
         | _ => ret tt
         end ;;;
         push [letDeclaration
                 (decl ++ [variableDeclarator (Uid u1 "value")
                             (Some (ConditionalExpression guard pos
                                      (AssignmentExpression "=" pos current)))])] ;;;
         ret (optimizedExpr (Identifier (Uid u1 "value")) deps None))
          (mkOptimizer s2 (parents st) u2)
        = (optimizedExpr (Identifier (Uid u1 "value")) deps None, st')
        /\ uids st' = u2
        /\ statements (scope st')
           = statements (scope st)
               ++ [letDeclaration
                     (decl ++ [variableDeclarator (Uid u1 "value")
                                 (Some (ConditionalExpression guard pos
                                          (AssignmentExpression "=" pos current)))])]
        /\ Scope.typeIndeces type (scope st') = i + 1
        /\ Scope.typeIndeces (otherType type) (scope st')
           = Scope.typeIndeces (otherType type) (scope st)
        /\ isInLoop (scope st') = isInLoop (scope st)
        /\ memo (scope st') = memo s1 /\ ref (scope st') = ref s1
        /\ parents st' = parents st).
  { intros u2 decl guard deps Hu2 Hdecl.
    assert (Hconst : exists cs',
              (match condition with
               | None => addConstant (Uid u1 "value")
               | Some _ => ret tt
               end) (mkOptimizer s2 (parents st) u2)
              = (tt, mkOptimizer (set_constants cs' s2) (parents st) u2)).
    { destruct condition; [exists (constants s2); destruct s2; reflexivity
                          | eexists; reflexivity]. }
    destruct Hconst as (cs' & Ec).
    rewrite (bind_run _ _ _ _ _ Ec).
    destruct (recordOptimized_run current (Uid u1 "value")
                (optimizedExpr (Identifier (Uid u1 "value")) deps None)
                (mkOptimizer (set_constants cs' s2) (parents st) u2))
      as (oid' & Er).
    rewrite (bind_run _ _ _ _ _ Er).
    eexists. split; [reflexivity |].
    cbn [scope parents uids snd].
    unfold push, bind, ret. simpl.
    rewrite Hsts2.
    destruct type; simpl in *; repeat split; auto. }
  assert (Hwrap :
    forall u2 decl guard st',
      u1 < u2 <= u1 + 2 -> List.length decl <= 1 ->
      uids st' = u2 ->
      statements (scope st')
      = statements (scope st)
          ++ [letDeclaration
                (decl ++ [variableDeclarator (Uid u1 "value")
                            (Some (ConditionalExpression guard pos
                                     (AssignmentExpression "=" pos current)))])] ->
      Scope.typeIndeces type (scope st') = i + 1 ->
      Scope.typeIndeces (otherType type) (scope st')
      = Scope.typeIndeces (otherType type) (scope st) ->
      isInLoop (scope st') = isInLoop (scope st) ->
      memo (scope st') = memo s1 -> ref (scope st') = ref s1 ->
      parents st' = parents st ->
      uids st <= u1 < uids st'
      /\ uids st' <= uids st + 3
      /\ statements (scope st')
         = statements (scope st)
             ++ [letDeclaration
                   (decl ++ [variableDeclarator (Uid u1 "value")
                               (Some (ConditionalExpression guard pos
                                        (AssignmentExpression "=" pos current)))])]
      /\ List.length decl <= 1
      /\ Scope.typeIndeces type (scope st') = i + 1
      /\ Scope.typeIndeces (otherType type) (scope st')
         = Scope.typeIndeces (otherType type) (scope st)
      /\ isInLoop (scope st') = isInLoop (scope st)
      /\ (forall h, memo (scope st) = Some h -> memo (scope st') = Some h)
      /\ (forall h, ref (scope st) = Some h -> ref (scope st') = Some h)
      /\ (wellNamed (scope st) -> wellNamed (scope st'))
      /\ (isInLoop (scope st) = false ->
          Scope.typeHeader type (scope st') = Some header)
      /\ parents st' = parents st).
  { intros u2 decl guard st' Hu2 Hdecl Hu Hs Hi Ho Hl Hm' Hr' Hp.
    repeat split; auto; try lia.
    - intros h Hh. rewrite Hm'. apply Hm, Hh.
    - intros h Hh. rewrite Hr'. apply Hr, Hh.
    - intros h Hh. rewrite Hm' in Hh. apply (proj1 (Hwn H)), Hh.
    - intros h Hh. rewrite Hr' in Hh. apply (proj2 (Hwn H)), Hh.
    - intros Hnl. specialize (Hth Hnl). unfold header.
      destruct type; simpl in *; [rewrite Hm' | rewrite Hr']; exact Hth. }
  destruct condition as [c |].
  - destruct (isIdentifier c) eqn:Hc.
    + destruct c; try discriminate Hc.
      erewrite bind_run by reflexivity.
      destruct (Hfinish (S u1) [] (Identifier i0)
                  (DepsOne (Identifier i0)) ltac:(lia) ltac:(simpl; lia))
        as (st' & Erun & Hrest).
      simpl isIdentifier. cbn iota.
      exists u1, [], (Identifier i0), (DepsOne (Identifier i0)), st'.
      split; [exact Erun |].
      destruct Hrest as (? & ? & ? & ? & ? & ? & ? & ?).
      eapply Hwrap; eauto; simpl; lia.
    + assert (Eeq :
        (match c with
         | Identifier c0 => ret (Identifier c0)
         | _ => e <- generateUidIdentifier "equals" ;; ret (Identifier e)
         end) (mkOptimizer s2 (parents st) (S u1))
        = (Identifier (Uid (S u1) "equals"),
           mkOptimizer s2 (parents st) (S (S u1)))).
      { destruct c; try discriminate Hc; reflexivity. }
      rewrite (bind_run _ _ _ _ _ Eeq).
      destruct (Hfinish (S (S u1))
                  [(Identifier (Uid (S u1) "equals"), Some c)]
                  (Identifier (Uid (S u1) "equals"))
                  (DepsOne (Identifier (Uid (S u1) "equals")))
                  ltac:(lia) ltac:(simpl; lia))
        as (st' & Erun & Hrest).
      exists u1, [(Identifier (Uid (S u1) "equals"), Some c)],
        (Identifier (Uid (S u1) "equals")),
        (DepsOne (Identifier (Uid (S u1) "equals"))), st'.
      split; [exact Erun |].
      destruct Hrest as (? & ? & ? & ? & ? & ? & ? & ?).
      eapply Hwrap; eauto; simpl; lia.
  - erewrite bind_run by reflexivity.
    destruct (Hfinish (S u1) []
                (BinaryExpression "in" (numericLiteral i) (Identifier header))
                (DepsList []) ltac:(lia) ltac:(simpl; lia))
      as (st' & Erun & Hrest).
    exists u1, [],
      (BinaryExpression "in" (numericLiteral i) (Identifier header)),
      (DepsList []), st'.
    split; [exact Erun |].
    destruct Hrest as (? & ? & ? & ? & ? & ? & ? & ?).
    eapply Hwrap; eauto; simpl; lia.
Qed.

(** X9.  Whatever the dependencies, a [createMemo] that does not return at the
    lookup takes exactly one slot of the cache [type], the next one,
    leaves the counter of the other cache alone, and pushes exactly one
    [let] declaration, which holds at most one guard declarator followed
    by [v = guard ? header[i] : (header[i] = current)]; the value
    identifier is fresh, at most three uids are generated and no ancestor
    is touched. *)
Theorem createMemo_one_slot_one_statement (current : expr)
    (dependencies : MemoDeps) (type : CacheType) (st : Optimizer) :
  alreadyOptimized current (scope st) = false ->
  let header := fst (memoHeader type st) in
  let i := Scope.typeIndeces type (scope st) in
  let pos := MemberExpression (Identifier header) (numericLiteral i) true in
  exists n guardDeclarators guard deps st',
    createMemo current dependencies type st
    = (optimizedExpr (Identifier (Uid n "value")) deps None, st')
    /\ uids st <= n < uids st'
    /\ uids st' <= uids st + 3
    /\ statements (scope st')
       = statements (scope st)
           ++ [letDeclaration
                 (guardDeclarators
                    ++ [variableDeclarator (Uid n "value")
                          (Some (ConditionalExpression guard pos
                                   (AssignmentExpression "=" pos current)))])]
    /\ List.length guardDeclarators <= 1
    /\ Scope.typeIndeces type (scope st') = i + 1
    /\ Scope.typeIndeces (otherType type) (scope st')
       = Scope.typeIndeces (otherType type) (scope st)
    /\ parents st' = parents st.
Proof.
  intros Hfresh header i pos.
  destruct (createMemo_memoizes current dependencies type st Hfresh)
    as (n & gd & guard & deps & st' & Hrun & Hn & Hu & Hs & Hl & Hi & Ho & _
        & _ & _ & _ & _ & Hp).
  exists n, gd, guard, deps, st'. repeat split; auto; lia.
Qed.

Lemma createMemo_already (current : expr) (dependencies : MemoDeps)
    (type : CacheType) (st : Optimizer) (i : ident) (o : OptimizedExpression) :
  current = Identifier i ->
  Scope.getOptimized i (scope st) = Some o ->
  createMemo current dependencies type st = (o, st).
Proof.
  intros -> Hget. unfold createMemo.
  rewrite (bind_run getScope _ st st (scope st) eq_refl).
  rewrite Hget. reflexivity.
Qed.

(** After [createMemo] on an identifier, the current scope holds the
    result for the identifier, and for the value identifier of the
    result when the identifier was not held before. *)
Lemma createMemo_records (binding : ident) (dependencies : MemoDeps)
    (type : CacheType) (st : Optimizer) :
  let run := createMemo (Identifier binding) dependencies type st in
  Scope.getOptimized binding (scope (snd run)) = Some (fst run)
  /\ (Scope.getOptimized binding (scope st) = None ->
      exists v, oexpr (fst run) = Identifier v
                /\ Scope.getOptimized v (scope (snd run)) = Some (fst run)).
Proof.
  intros run. subst run.
  destruct (Scope.getOptimized binding (scope st)) as [o |] eqn:Hget.
  - rewrite (createMemo_already _ dependencies type st binding o eq_refl Hget).
    simpl. split; [exact Hget | discriminate].
  - assert (Hfresh : alreadyOptimized (Identifier binding) (scope st) = false).
    { simpl. unfold Scope.hasOptimized. rewrite Hget. reflexivity. }
    clear Hget.
    run_createMemo st Hfresh.
    destruct lp, type, m, r, lu; simpl;
      destruct (memoCondition dependencies _ _ (Identifier binding))
        as [[] |]; simpl;
      (split; [apply getOptimized_set_set |]);
      intros _; eexists; (split; [reflexivity |]);
      unfold Scope.getOptimized, Scope.push, Scope.setOptimized; simpl;
      rewrite ?Nat.eqb_refl; reflexivity.
Qed.

(** X10.  [createMemo] de-duplicates within a scope: after it ran on an
    identifier, a second run on that identifier, with any dependencies and
    cache, returns the same optimized expression and changes nothing; so
    does a run on the value identifier it generated, when the identifier
    was not held before. *)
Theorem createMemo_twice_same_scope (binding : ident)
    (first second : MemoDeps) (type type' : CacheType) (st : Optimizer) :
  let run := createMemo (Identifier binding) first type st in
  createMemo (Identifier binding) second type' (snd run) = run
  /\ (Scope.getOptimized binding (scope st) = None ->
      createMemo (oexpr (fst run)) second type' (snd run) = run).
Proof.
  intros run.
  destruct (createMemo_records binding first type st) as [Hb Hv].
  fold run in Hb, Hv.
  split.
  - rewrite (createMemo_already _ second type' (snd run) binding (fst run)
               eq_refl Hb).
    destruct run; reflexivity.
  - intros Hnone. destruct (Hv Hnone) as (v & Hexpr & Hget).
    rewrite (createMemo_already _ second type' (snd run) v (fst run)
               Hexpr Hget).
    destruct run; reflexivity.
Qed.

(** X11.  When the guard is an identifier (given as such, or as the one element
    of an array), [createMemo] declares no guard of its own: the pushed
    declaration is [let v = c ? header[i] : (header[i] = current)] alone,
    the dependency of the result is [c] itself, and [v] is not registered
    as a constant. *)
Theorem createMemo_identifier_guard (current : expr) (dependencies : MemoDeps)
    (type : CacheType) (st : Optimizer) (c : ident) :
  alreadyOptimized current (scope st) = false ->
  dependencies = MDExpr (Identifier c)
  \/ dependencies = MDList [Some (Identifier c)] ->
  let header := fst (memoHeader type st) in
  let i := Scope.typeIndeces type (scope st) in
  let pos := MemberExpression (Identifier header) (numericLiteral i) true in
  exists n st',
    createMemo current dependencies type st
    = (optimizedExpr (Identifier (Uid n "value")) (DepsOne (Identifier c)) None,
       st')
    /\ statements (scope st')
       = statements (scope st)
           ++ [letDeclaration
                 [variableDeclarator (Uid n "value")
                    (Some (ConditionalExpression (Identifier c) pos
                             (AssignmentExpression "=" pos current)))]]
    /\ constants (scope st') = constants (scope st).
Proof.
  intros Hfresh Hdeps header i pos. subst header i pos.
  run_createMemo st Hfresh.
  destruct Hdeps as [-> | ->]; simpl;
    destruct current, lp, type, m, r, lu; simpl;
    do 2 eexists; repeat split; reflexivity.
Qed.

(** X12.  Outside loop bodies the two caches have headers of their own: in a
    scope whose headers come from [createHeader], the header [createMemo]
    selects for a memo differs from the one it selects for a ref; a run of
    [createMemo] keeps the scope such, and the next run for the same cache
    selects the same header again. *)
Theorem createMemo_headers_outside_loops (current : expr)
    (dependencies : MemoDeps) (type : CacheType) (st : Optimizer) :
  isInLoop (scope st) = false ->
  wellNamed (scope st) ->
  let st' := snd (createMemo current dependencies type st) in
  fst (memoHeader memoType st) <> fst (memoHeader refType st)
  /\ wellNamed (scope st')
  /\ isInLoop (scope st') = false
  /\ (alreadyOptimized current (scope st) = false ->
      fst (memoHeader type st') = fst (memoHeader type st)
      /\ Scope.typeHeader type (scope st') = Some (fst (memoHeader type st))).
Proof.
  intros Hloop Hwn st'. subst st'.
  split; [| destruct (alreadyOptimized current (scope st)) eqn:Hal].
  - destruct st as [s ps u]. simpl in *.
    unfold memoHeader, bind, getScope. simpl. rewrite Hloop.
    unfold createHeader, Scope.createHeader. simpl.
    destruct Hwn as [Hm Hr].
    destruct (memo s) as [hm |] eqn:Em, (ref s) as [hr |] eqn:Er; simpl.
    + destruct (Hm hm eq_refl) as [n ->]. destruct (Hr hr eq_refl) as [k ->].
      discriminate.
    + destruct (Hm hm eq_refl) as [n ->]. discriminate.
    + destruct (Hr hr eq_refl) as [k ->]. discriminate.
    + discriminate.
  - assert (Hsame : snd (createMemo current dependencies type st) = st).
    { destruct current; simpl in Hal; try discriminate.
      unfold Scope.hasOptimized in Hal.
      destruct (Scope.getOptimized i (scope st)) as [o |] eqn:Hget;
        [| discriminate].
      rewrite (createMemo_already _ dependencies type st i o eq_refl Hget).
      reflexivity. }
    rewrite Hsame. repeat split; try apply Hwn; auto. discriminate.
  - destruct (createMemo_memoizes current dependencies type st Hal)
      as (n & gd & guard & deps & st' & Hrun & _ & _ & _ & _ & _ & _ & Hl
          & _ & _ & Hwn' & Hth & _).
    rewrite Hrun. cbn [snd]. rewrite Hloop in Hl.
    repeat split; try apply (Hwn' Hwn); auto.
    unfold memoHeader at 1, bind, getScope. rewrite Hl.
    unfold createHeader, Scope.createHeader.
    specialize (Hth Hloop).
    destruct type; simpl in *; rewrite Hth; reflexivity.
Qed.

(* ================================================================== *)
(** ** The other handlers of the simplifier *)
(* ================================================================== *)

Lemma decided_is_determinate (node : expr) :
  Simplifier.isDecidedLiteral node = true ->
  Simplifier.getBooleanishState node <> Simplifier.indeterminate.
Proof.
  induction node; simpl; intros H; try discriminate.
  - destruct value; discriminate.
  - destruct (Z.eqb value 0); discriminate.
  - destruct (String.eqb value ""); discriminate.
  - destruct (String.eqb value "0"); discriminate.
  - apply IHnode, H.
Qed.

(** X13.  When the visitor leaves a conditional expression: a truthy test gives
    the consequent, a falsy or nullish test the alternate; a test that is
    a boolean, numeric, string, bigint or null literal under its wrappers
    always selects one of the two arms, any other test leaves the
    expression as it is. *)
Theorem conditional_expression_simplified (test consequent alternate : expr) :
  let result := Simplifier.exitConditionalExpression test consequent alternate in
  let state := Simplifier.getBooleanishState test in
  (state = Simplifier.truthy -> result = consequent)
  /\ (state = Simplifier.falsy \/ state = Simplifier.nullish ->
      result = alternate)
  /\ (Simplifier.isDecidedLiteral test = true ->
      result = consequent \/ result = alternate)
  /\ (Simplifier.isDecidedLiteral test = false ->
      result = ConditionalExpression test consequent alternate).
Proof.
  intros result state. subst result state.
  unfold Simplifier.exitConditionalExpression.
  repeat split.
  - intros ->. reflexivity.
  - intros [-> | ->]; reflexivity.
  - intros H. apply decided_is_determinate in H.
    destruct (Simplifier.getBooleanishState test); auto. contradiction.
  - intros H. rewrite (undecided_is_indeterminate _ H). reflexivity.
Qed.

(** The node [void 0] the handler installs is one it replaces again: the
    path of a [void 0] never comes to rest. *)
Lemma visit_void_zero (fuel : nat) :
  Simplifier.visitUnaryExpression fuel "void" (NumericLiteral 0) = None.
Proof. induction fuel as [| fuel IH]; [reflexivity | exact IH]. Qed.

(** X14.  When the visitor leaves a unary expression: [!] of a truthy
    literal is replaced by [false], of a falsy or nullish one by [true],
    and the path rests at that literal; an argument that is not a literal,
    and every operator but [void] and [!], leaves the expression as it is.
    [void] of a literal is replaced by a new [void 0], which is itself a
    [void] of a literal: the handler replaces it again at every visit, so
    the path of a [void] of a literal never comes to rest, however many
    visits the traversal makes. *)
Theorem unary_expression_simplified (operator : string) (argument : expr) :
  let replaced := Simplifier.exitUnaryExpression operator argument in
  let state := Simplifier.getBooleanishState argument in
  let voidZero := UnaryExpression "void" (NumericLiteral 0) in
  (operator = "!" -> state = Simplifier.truthy ->
     replaced = Some (BooleanLiteral false)
     /\ forall fuel,
          Simplifier.visitUnaryExpression (S fuel) operator argument
          = Some (BooleanLiteral false))
  /\ (operator = "!" ->
      state = Simplifier.falsy \/ state = Simplifier.nullish ->
      replaced = Some (BooleanLiteral true)
      /\ forall fuel,
           Simplifier.visitUnaryExpression (S fuel) operator argument
           = Some (BooleanLiteral true))
  /\ (Simplifier.isDecidedLiteral argument = false
      \/ (operator <> "void" /\ operator <> "!") ->
      replaced = None
      /\ forall fuel,
           Simplifier.visitUnaryExpression (S fuel) operator argument
           = Some (UnaryExpression operator argument))
  /\ (operator = "void" -> Simplifier.isDecidedLiteral argument = true ->
      replaced = Some voidZero
      /\ Simplifier.exitUnaryExpression "void" (NumericLiteral 0)
         = Some voidZero
      /\ forall fuel,
           Simplifier.visitUnaryExpression fuel operator argument = None).
Proof.
  intros replaced state voidZero. subst replaced state voidZero.
  split; [| split; [| split]].
  - intros -> Hstate.
    assert (E : Simplifier.exitUnaryExpression "!" argument
                = Some (BooleanLiteral false)).
    { unfold Simplifier.exitUnaryExpression. rewrite Hstate. reflexivity. }
    split; [exact E |]. intros fuel. simpl. rewrite E. reflexivity.
  - intros -> Hstate.
    assert (E : Simplifier.exitUnaryExpression "!" argument
                = Some (BooleanLiteral true)).
    { unfold Simplifier.exitUnaryExpression.
      destruct Hstate as [-> | ->]; reflexivity. }
    split; [exact E |]. intros fuel. simpl. rewrite E. reflexivity.
  - intros H.
    assert (E : Simplifier.exitUnaryExpression operator argument = None).
    { unfold Simplifier.exitUnaryExpression.
      destruct H as [H | [Hv Hn]].
      - rewrite (undecided_is_indeterminate _ H).
        destruct (String.eqb operator "void"); [reflexivity |].
        destruct (String.eqb operator "!"); reflexivity.
      - destruct (String.eqb_spec operator "void"); [contradiction |].
        destruct (String.eqb_spec operator "!"); [contradiction |].
        reflexivity. }
    split; [exact E |]. intros fuel. simpl. rewrite E. reflexivity.
  - intros -> H. apply decided_is_determinate in H.
    assert (E : Simplifier.exitUnaryExpression "void" argument
                = Some (UnaryExpression "void" (NumericLiteral 0))).
    { unfold Simplifier.exitUnaryExpression. simpl.
      destruct (Simplifier.getBooleanishState argument);
        try reflexivity. contradiction. }
    split; [exact E | split; [reflexivity |]].
    intros [| fuel]; [reflexivity |].
    simpl. rewrite E. apply visit_void_zero.
Qed.

(** X15.  When the visitor leaves an [if] statement: a truthy test replaces it
    by the consequent, a falsy or nullish test by the alternate or, when
    there is none, removes it.  A [while] statement is removed for a falsy
    test only: a truthy and a nullish test leave it.  A test that is not a
    literal leaves both statements as they are. *)
Theorem statement_handlers_simplified (test : expr) (consequent : stmt)
    (alternate : option stmt) :
  let state := Simplifier.getBooleanishState test in
  (state = Simplifier.truthy ->
     exitIfStatement test consequent alternate = ReplacedWith consequent)
  /\ (state = Simplifier.falsy \/ state = Simplifier.nullish ->
      exitIfStatement test consequent alternate
      = match alternate with Some a => ReplacedWith a | None => Removed end)
  /\ (Simplifier.isDecidedLiteral test = false ->
      exitIfStatement test consequent alternate = Unchanged
      /\ exitWhileStatement test = Unchanged)
  /\ (state = Simplifier.falsy -> exitWhileStatement test = Removed)
  /\ (state = Simplifier.truthy \/ state = Simplifier.nullish ->
      exitWhileStatement test = Unchanged).
Proof.
  intros state. subst state.
  unfold exitIfStatement, exitWhileStatement.
  repeat split.
  - intros ->. reflexivity.
  - intros [-> | ->]; reflexivity.
  - rewrite (undecided_is_indeterminate _ H). reflexivity.
  - rewrite (undecided_is_indeterminate _ H). reflexivity.
  - intros ->. reflexivity.
  - intros [-> | ->]; reflexivity.
Qed.

(* ================================================================== *)
(** ** What the walk never undoes *)
(* ================================================================== *)

Lemma grows_refl (s : OptimizerScope) : grows s s.
Proof.
  unfold grows. repeat split; auto. exists []. symmetry. apply app_nil_r.
Qed.

Lemma grows_trans (a b c : OptimizerScope) :
  grows a b -> grows b c -> grows a c.
Proof.
  intros (Hl & Hm & Hr & (x & Hx) & Hhm & Hhr)
         (Hl' & Hm' & Hr' & (y & Hy) & Hhm' & Hhr').
  unfold grows. repeat split; auto; try lia; try congruence.
  exists (x ++ y). rewrite Hy, Hx, app_assoc. reflexivity.
Qed.

Lemma grows_same (a b : OptimizerScope) : sameButOptimized a b -> grows a b.
Proof.
  intros H.
  pose proof (same_isInLoop _ _ H) as Hl.
  destruct (same_fields _ _ H) as (Hm & Hr & Him & Hir & Hs).
  unfold grows. repeat split; try lia; try congruence.
  exists []. rewrite Hs. symmetry. apply app_nil_r.
Qed.

Lemma extends_ret {A} (a : A) : extends (ret a).
Proof.
  intros st. simpl. split; [apply grows_refl | split; [apply chain_refl | lia]].
Qed.

Lemma extends_bind {A B} (m : M A) (f : A -> M B) :
  extends m -> (forall a, extends (f a)) -> extends (bind m f).
Proof.
  intros Hm Hf st. unfold bind.
  destruct (Hm st) as (Hg & Hp & Hu).
  destruct (m st) as [a st1]. simpl in *.
  destruct (Hf a st1) as (Hg' & Hp' & Hu').
  split; [eapply grows_trans; eassumption |].
  split; [eapply chain_trans; eassumption | lia].
Qed.

Lemma extends_local {A} (m : M A) :
  (forall st, grows (scope st) (scope (snd (m st)))
              /\ parents (snd (m st)) = parents st
              /\ uids st <= uids (snd (m st))) ->
  extends m.
Proof.
  intros H st. destruct (H st) as (Hg & Hp & Hu).
  split; [exact Hg | split; [rewrite Hp; apply chain_refl | exact Hu]].
Qed.

Lemma extends_getScope : extends getScope.
Proof.
  intros st. simpl. split; [apply grows_refl | split; [apply chain_refl | lia]].
Qed.

Lemma extends_askConstant env e : extends (askConstant env e).
Proof.
  intros st. simpl. split; [apply grows_refl | split; [apply chain_refl | lia]].
Qed.

Lemma extends_generateUidIdentifier p : extends (generateUidIdentifier p).
Proof.
  intros st. simpl. split; [apply grows_refl | split; [apply chain_refl | lia]].
Qed.

Lemma extends_push l : extends (push l).
Proof.
  apply extends_local. intros st. simpl. split; [| split; auto].
  unfold grows. simpl. repeat split; auto. exists l. reflexivity.
Qed.

Lemma extends_createMemo current dependencies type :
  extends (createMemo current dependencies type).
Proof.
  apply extends_local. intros st.
  destruct (alreadyOptimized current (scope st)) eqn:Hal.
  - assert (Hsame : snd (createMemo current dependencies type st) = st).
    { destruct current; simpl in Hal; try discriminate.
      unfold Scope.hasOptimized in Hal.
      destruct (Scope.getOptimized i (scope st)) as [o |] eqn:Hget;
        [| discriminate].
      rewrite (createMemo_already _ dependencies type st i o eq_refl Hget).
      reflexivity. }
    rewrite Hsame. split; [apply grows_refl | split; auto].
  - destruct (createMemo_memoizes current dependencies type st Hal)
      as (n & gd & guard & deps & st' & Hrun & Hn & Hu & Hs & _ & Hi & Ho & Hl
          & Hm & Hr & _ & _ & Hp).
    rewrite Hrun. cbn [snd]. split; [| split; [exact Hp | lia]].
    unfold grows. repeat split; auto.
    + destruct type; simpl in *; lia.
    + destruct type; simpl in *; lia.
    + eexists. exact Hs.
Qed.

Lemma extends_deleteOptimized key : extends (deleteOptimized key).
Proof.
  intros st. unfold deleteOptimized.
  pose proof (deleteOptimized_chain key (scope st :: parents st)) as H.
  destruct (Scope.deleteOptimized key (scope st :: parents st)) as [| s up];
    inversion H; subst; simpl.
  split; [apply grows_same; assumption | split; [assumption | lia]].
Qed.

Lemma extends_inChildScope {A} (inLoop : bool) (body : M A) :
  extends body -> extends (inChildScope inLoop body).
Proof.
  intros Hbody st.
  unfold inChildScope, bind, enterScope, leaveScope, ret.
  destruct (Hbody (mkOptimizer (newScope inLoop) (scope st :: parents st) (uids st)))
    as (_ & Hp & Hu).
  destruct (body _) as [a st1]. simpl in *.
  destruct (parents st1) as [| p up]; [inversion Hp |].
  inversion Hp; subst. simpl.
  split; [apply grows_same; assumption | split; [assumption | exact Hu]].
Qed.

Lemma getStatements_grows (this p : OptimizerScope) (u : nat) :
  exists l this' q u',
    Scope.getStatements this (Some p) u = (l, this', Some q, u')
    /\ grows p q /\ statements q = statements p /\ u <= u'.
Proof.
  unfold Scope.getStatements, Scope.getLoopHeaderDeclaration,
    Scope.getDeclarations, Scope.createHeader, Scope.createLoopHeader,
    Scope.createLoopIndex, Scope.createIndex, Scope.typeLoop, Scope.typeHeader,
    grows.
  destruct this as [m r im ir lp sts lm lr lu li oid cs].
  destruct p as [pm pr pim pir plp psts plm plr plu pli poid pcs].
  simpl.
  destruct lp, m, r, lm, lr, li, pm, pr; simpl;
    do 4 eexists; (split; [reflexivity |]); simpl;
    repeat split; auto; try lia;
    try (exists []; symmetry; apply app_nil_r);
    try discriminate.
Qed.

Lemma extends_getStatementsOf child : extends (getStatementsOf child).
Proof.
  apply extends_local. intros st. unfold getStatementsOf.
  destruct (getStatements_grows child (scope st) (uids st))
    as (l & this' & q & u' & Hrun & Hg & _ & Hu).
  rewrite Hrun. simpl. auto.
Qed.

Lemma extends_getLoopMemoDeclarationOf child :
  extends (getLoopMemoDeclarationOf child).
Proof.
  apply extends_local. intros st. unfold getLoopMemoDeclarationOf.
  unfold Scope.getLoopDeclaration, Scope.createHeader, Scope.createLoopIndex,
    Scope.createIndex, grows.
  destruct (scope st) as [pm pr pim pir plp psts plm plr plu pli poid pcs].
  destruct child as [m r im ir lp sts lm lr lu li oid cs].
  simpl. destruct pm, li, m; simpl; repeat split; auto; try lia;
    try (exists []; symmetry; apply app_nil_r); try discriminate.
Qed.

Lemma extends_forEach {X Y} (visit : X -> M Y) (xs : list X) :
  Forall (fun x => extends (visit x)) xs -> extends (forEach visit xs).
Proof.
  induction 1; simpl.
  - apply extends_ret.
  - apply extends_bind; [assumption | intros].
    apply extends_bind; [assumption | intros]. apply extends_ret.
Qed.

Lemma extends_dependOnEach {X} (visit : X -> M (option OptimizedExpression))
    (rebuild : X -> expr -> X) (xs : list X) :
  Forall (fun x => extends (visit x)) xs ->
  forall condition, extends (dependOnEach visit rebuild xs condition).
Proof.
  induction 1; intros condition; simpl.
  - apply extends_ret.
  - apply extends_bind; [assumption | intros [o |]];
      (apply extends_bind; [auto | intros; apply extends_ret]).
Qed.

Ltac extends_step :=
  match goal with
  | |- extends (ret _) => apply extends_ret
  | |- extends (bind _ _) => apply extends_bind; [| intros]
  | |- extends getScope => apply extends_getScope
  | |- extends (askConstant _ _) => apply extends_askConstant
  | |- extends (generateUidIdentifier _) => apply extends_generateUidIdentifier
  | |- extends (push _) => apply extends_push
  | |- extends (createMemo _ _ _) => apply extends_createMemo
  | |- extends (deleteOptimized _) => apply extends_deleteOptimized
  | |- extends (getStatementsOf _) => apply extends_getStatementsOf
  | |- extends (getLoopMemoDeclarationOf _) =>
    apply extends_getLoopMemoDeclarationOf
  | |- extends (inChildScope _ _) => apply extends_inChildScope
  | |- extends (if ?c then _ else _) => destruct c
  | |- extends (match ?x with _ => _ end) => destruct x
  | H : extends ?m |- extends ?m => exact H
  end.

Lemma extends_createDependencyOf (m : M OptimizedExpression) :
  extends m -> extends (createDependencyOf m).
Proof.
  intros Hm. unfold createDependencyOf. repeat extends_step.
Qed.

Lemma extends_memoizeIdentifier env id : extends (memoizeIdentifier env id).
Proof. unfold memoizeIdentifier. repeat extends_step. Qed.

Lemma extends_memoizeMemberExpressionWith env o p c dO dP :
  extends dO -> extends dP ->
  extends (memoizeMemberExpressionWith env o p c dO dP).
Proof.
  intros HO HP. unfold memoizeMemberExpressionWith. repeat extends_step.
Qed.

Lemma extends_optimizeLValWith env node dirty f :
  (forall o p c, node = MemberExpression o p c -> extends (f o p c)) ->
  extends (optimizeLValWith env node dirty f).
Proof.
  intros Hf. unfold optimizeLValWith.
  destruct node; try (repeat extends_step; fail).
  apply (Hf _ _ _ eq_refl).
Qed.

Lemma extends_optimizeRef args : extends (optimizeRef args).
Proof. unfold optimizeRef. apply extends_createMemo. Qed.

Section ExtendsWalk.
Variable env : Env.

Lemma extendsDeep_each (xs : list expr) :
  Forall (extendsDeep env) xs ->
  Forall (fun x => extends (createDependencyOf (optimizeExpression env x))) xs.
Proof.
  apply Forall_impl. intros a [H _]. apply extends_createDependencyOf, H.
Qed.

Ltac extends_walk :=
  match goal with
  | H : extendsDeep _ _ |- _ => destruct H as [? ?]
  | H : _ /\ _ |- _ => destruct H
  | H : Forall _ (_ :: _) |- _ => inversion H; subst; clear H
  | |- extends (createDependencyOf _) => apply extends_createDependencyOf
  | |- extends (memoizeIdentifier _ _) => apply extends_memoizeIdentifier
  | |- extends (memoizeMemberExpressionWith _ _ _ _ _ _) =>
    apply extends_memoizeMemberExpressionWith
  | |- extends (optimizeRef _) => apply extends_optimizeRef
  | |- extends (dependOnEach _ _ _ _) => apply extends_dependOnEach
  | |- extends (forEach _ _) => apply extends_forEach
  | |- Forall (fun x => extends (createDependencyOf _)) _ =>
    apply extendsDeep_each
  | _ => extends_step
  | |- _ => assumption
  end.

Lemma extends_optimizeExpression_deep : forall e, extendsDeep env e.
Proof.
  apply expr_nested_ind.
  - intros e. destruct e; try exact I; (split; [| exact I]); simpl;
      repeat extends_walk.
  - intros k e He. split; [| exact I]. simpl. repeat extends_walk.
  - intros o p c Ho Hp. split; [| destruct Ho, Hp; split; assumption].
    simpl. repeat extends_walk.
  - intros t c a Ht Hc Ha. split; [| exact I]. simpl. repeat extends_walk.
  - intros op l r Hl Hr. split; [| exact I]. simpl. repeat extends_walk.
  - intros op l r Hl Hr. split; [| exact I]. simpl. repeat extends_walk.
  - intros op a Ha. split; [| exact I]. simpl. repeat extends_walk.
  - intros op a prefix Ha. split; [| exact I]. simpl. repeat extends_walk.
  - intros f args Hf Hargs. split; [| exact I]. simpl. repeat extends_walk.
  - intros op l r Hl Hr. split; [| exact I]. simpl. repeat extends_walk.
    apply extends_optimizeLValWith. intros o p c ->.
    repeat extends_walk.
  - intros xs Hxs. split; [| exact I]. simpl. repeat extends_walk.
  - intros ps Hps. split; [| exact I]. simpl. repeat extends_walk.
    revert Hps. apply Forall_impl. intros a [H _].
    apply extends_createDependencyOf, H.
  - intros xs Hxs. split; [| exact I]. simpl. repeat extends_walk.
    revert Hxs. apply Forall_impl. intros a [H _]. repeat extends_walk.
Qed.

Lemma extends_optimizeExpression (e : expr) :
  extends (optimizeExpression env e).
Proof. apply extends_optimizeExpression_deep. Qed.

Lemma extends_finalizedChild (body : M unit) :
  extends body -> extends (finalizedChild body).
Proof. intros H. unfold finalizedChild. repeat extends_step. Qed.

Lemma extends_optimizeLoopStatementWith (body : M unit) :
  extends body -> extends (optimizeLoopStatementWith body).
Proof. intros H. unfold optimizeLoopStatementWith. repeat extends_step. Qed.

Ltac extends_statement :=
  match goal with
  | H : Forall _ (_ :: _) |- _ => inversion H; subst; clear H
  | |- extends (optimizeExpression _ _) => apply extends_optimizeExpression
  | |- extends (finalizedChild _) => apply extends_finalizedChild
  | |- extends (optimizeLoopStatementWith _) =>
    apply extends_optimizeLoopStatementWith
  | |- extends (forEach _ _) => apply extends_forEach
  | _ => extends_step
  | |- _ => assumption
  end.

Lemma extends_optimizeStatement :
  forall node topBlock, extends (optimizeStatement env node topBlock).
Proof.
  intros node. pattern node. apply stmt_nested_ind; clear node.
  - intros e topBlock. simpl. repeat extends_statement.
  - intros k ds topBlock. simpl. repeat extends_statement.
    apply Forall_forall. intros d _. repeat extends_statement.
  - intros a topBlock. simpl. repeat extends_statement.
  - intros a topBlock. simpl. repeat extends_statement.
  - intros body Hbody topBlock. simpl. repeat extends_statement.
    all: revert Hbody; apply Forall_impl; intros ? H; apply H.
  - intros t c a Hc Ha topBlock. simpl. repeat extends_statement.
    all: auto.
  - intros h b Hb topBlock. simpl. repeat extends_statement. all: auto.
  - intros b h f Hb Hh Hf topBlock. simpl. repeat extends_statement.
    all: unfold optAll in *;
      match goal with
      | H : Forall _ ?l |- Forall _ ?l =>
        revert H; apply Forall_impl; intros ? H; apply H
      end.
  - intros l b Hb topBlock. simpl. repeat extends_statement. auto.
  - intros t topBlock. simpl. repeat extends_statement.
Qed.

End ExtendsWalk.

(* ================================================================== *)
(** ** Finalized blocks *)
(* ================================================================== *)

Lemma mergeLoop_ends_with (l : list stmt) (last : stmt) :
  notLet last = true ->
  forall stack acc, exists pre, mergeLoop (l ++ [last]) stack acc = pre ++ [last].
Proof.
  intros Hlast.
  induction l as [| value rest IH]; intros stack acc.
  - assert (Hflush : exists pre,
              mergeLoop [] []
                (acc ++ match stack with [] => [] | _ => [letDeclaration stack] end
                     ++ [last]) = pre ++ [last]).
    { simpl. eexists. rewrite app_assoc. reflexivity. }
    unfold notLet in Hlast.
    destruct last; try exact Hflush.
    simpl in Hlast. simpl. destruct (String.eqb kind "let"); [discriminate |].
    exact Hflush.
  - change ((value :: rest) ++ [last]) with (value :: (rest ++ [last])).
    destruct value; simpl; try apply IH.
    destruct (String.eqb kind "let"); apply IH.
Qed.

Lemma headerDeclarations_are_lets (type : CacheType) (this : OptimizerScope)
    (parent : option OptimizerScope) (u : nat) :
  Forall (fun s => isLet s = true)
    (Scope.orEmpty (fst (fst (fst (Scope.getDeclarations type this parent u)))))
  /\ Forall (fun s => isLet s = true)
       (Scope.orEmpty (fst (fst (Scope.getLoopHeaderDeclaration type this u)))).
Proof.
  unfold Scope.getDeclarations, Scope.getLoopHeaderDeclaration,
    Scope.createHeader, Scope.createLoopHeader, Scope.createLoopIndex,
    Scope.createIndex, Scope.typeHeader, Scope.typeLoop.
  destruct this as [m r im ir lp sts lm lr lu li oid cs].
  destruct parent as [[pm pr pim pir plp psts plm plr plu pli poid pcs] |];
    simpl; destruct type, m, r, lm, lr, li; simpl;
    try destruct pm; try destruct pr; simpl;
    split; repeat constructor.
Qed.

(** The statements a scope is finalized to: its own, after the header
    declarations, merged. *)
Lemma getStatements_form (this : OptimizerScope)
    (parent : option OptimizerScope) (u : nat) :
  exists headers,
    Forall (fun s => isLet s = true) headers
    /\ fst (fst (fst (Scope.getStatements this parent u)))
       = mergeVariableDeclaration (headers ++ statements this).
Proof.
  unfold Scope.getStatements.
  destruct (isInLoop this) eqn:Hloop.
  - pose proof (proj2 (headerDeclarations_are_lets memoType this parent u)) as H1.
    destruct (Scope.getLoopHeaderDeclaration memoType this u) as [[d1 t1] u1].
    assert (Hl1 : isInLoop t1 = true \/ isInLoop t1 = false)
      by (destruct (isInLoop t1); auto).
    pose proof (headerDeclarations_are_lets refType t1 parent u1) as [H2 H2'].
    destruct (isInLoop t1).
    + destruct (Scope.getLoopHeaderDeclaration refType t1 u1) as [[d2 t2] u2].
      exists (Scope.orEmpty d1 ++ Scope.orEmpty d2). simpl in *.
      split; [apply Forall_app; auto | rewrite <- app_assoc; reflexivity].
    + destruct (Scope.getDeclarations refType t1 parent u1)
        as [[[d2 t2] p2] u2].
      exists (Scope.orEmpty d1 ++ Scope.orEmpty d2). simpl in *.
      split; [apply Forall_app; auto | rewrite <- app_assoc; reflexivity].
  - pose proof (proj1 (headerDeclarations_are_lets memoType this parent u)) as H1.
    destruct (Scope.getDeclarations memoType this parent u)
      as [[[d1 t1] p1] u1].
    pose proof (headerDeclarations_are_lets refType t1 p1 u1) as [H2 H2'].
    destruct (isInLoop t1).
    + destruct (Scope.getLoopHeaderDeclaration refType t1 u1) as [[d2 t2] u2].
      exists (Scope.orEmpty d1 ++ Scope.orEmpty d2). simpl in *.
      split; [apply Forall_app; auto | rewrite <- app_assoc; reflexivity].
    + destruct (Scope.getDeclarations refType t1 p1 u1)
        as [[[d2 t2] p2] u2].
      exists (Scope.orEmpty d1 ++ Scope.orEmpty d2). simpl in *.
      split; [apply Forall_app; auto | rewrite <- app_assoc; reflexivity].
Qed.


(** X18.  A scope whose last statement is not a [let] declaration is finalized
    by [getStatements] to statements that end with that statement, hold
    the same statements that are not [let] declarations in the same
    order, and hold every declarator of the scope after those of the
    header declarations. *)
Theorem getStatements_keeps_last (this : OptimizerScope)
    (parent : option OptimizerScope) (u : nat) (l : list stmt) (last : stmt) :
  statements this = l ++ [last] ->
  notLet last = true ->
  let finalized := fst (fst (fst (Scope.getStatements this parent u))) in
  (exists pre, finalized = pre ++ [last])
  /\ filter notLet finalized = filter notLet (statements this)
  /\ exists headers,
       letDeclarators finalized = headers ++ letDeclarators (statements this).
Proof.
  intros Hsts Hlast finalized. subst finalized.
  destruct (getStatements_form this parent u) as (headers & Hlets & ->).
  rewrite Hsts, app_assoc.
  split; [apply (mergeLoop_ends_with (headers ++ l) last Hlast [] []) |].
  split.
  - unfold mergeVariableDeclaration. rewrite mergeLoop_keeps_others.
    simpl. rewrite <- app_assoc, filter_app.
    assert (Hnone : filter notLet headers = []).
    { clear -Hlets. induction Hlets as [| x xs Hx _ IH]; simpl; auto.
      unfold notLet at 1. rewrite Hx. exact IH. }
    rewrite Hnone. reflexivity.
  - exists (letDeclarators headers).
    unfold mergeVariableDeclaration.
    rewrite (mergeLoop_declarators (headers ++ l) last Hlast [] []).
    simpl. rewrite <- app_assoc. apply letDeclarators_app.
Qed.

(** X19.  A scope that holds [let] declarations only is finalized by
    [getStatements] to no statement at all, whatever headers it has: the
    header declarations are [let] declarations too, and nothing flushes
    them. *)
Theorem getStatements_of_lets_only (this : OptimizerScope)
    (parent : option OptimizerScope) (u : nat) :
  Forall (fun s => isLet s = true) (statements this) ->
  fst (fst (fst (Scope.getStatements this parent u))) = [].
Proof.
  intros Hall.
  destruct (getStatements_form this parent u) as (headers & Hlets & ->).
  apply mergeLoop_only_lets, Forall_app. auto.
Qed.

(* ================================================================== *)
(** ** Expressions lowered to statements *)
(* ================================================================== *)

Lemma askConstant_run (env : Env) (e : expr) (st : Optimizer) (b : bool) :
  isConstant env st e = b -> askConstant env e st = (b, st).
Proof. intros <-. reflexivity. Qed.


(** A run in a child scope leaves the statements of the current scope as
    they are. *)
Lemma inChildScope_statements {A} (inLoop : bool) (body : M A) (st : Optimizer) :
  keeps body ->
  statements (scope (snd (inChildScope inLoop body st))) = statements (scope st).
Proof.
  intros Hbody.
  destruct (inChildScope_current inLoop body st Hbody) as (Hcur & _).
  destruct (same_fields _ _ Hcur) as (_ & _ & _ & _ & Hs). symmetry. exact Hs.
Qed.




(** X24.  A call classified as a ref hook is replaced by a one-time memo of
    [{ current: init }] on the ref cache, where [init] is the first
    argument as it stands, or [void 0]: it takes exactly one ref slot and
    no memo slot, and its value identifier is registered as a constant. *)
Theorem ref_call_takes_one_ref_slot (env : Env) (callee : expr)
    (arguments : list expr) (st : Optimizer) :
  shouldSkipExpr env (CallExpression callee arguments) = false ->
  isConstant env st (CallExpression callee arguments) = false ->
  getHookCallType env (CallExpression callee arguments) = hookRef ->
  let init :=
    match arguments with
    | arg :: _ => arg
    | [] => UnaryExpression "void" (NumericLiteral 0)
    end in
  exists v st',
    optimizeExpression env (CallExpression callee arguments) st
    = (optimizedExpr (Identifier v) (DepsList []) None, st')
    /\ statements (scope st')
       = statements (scope st)
           ++ [oneTime (fst (memoHeader refType st)) (indecesRef (scope st))
                 (ObjectExpression [("current", init)]) v]
    /\ indecesRef (scope st') = indecesRef (scope st) + 1
    /\ indecesMemo (scope st') = indecesMemo (scope st)
    /\ Scope.hasConstant v (scope st') = true
    /\ parents st' = parents st.
Proof.
  intros Hskip Hconst Hhook init. subst init.
  simpl. rewrite Hskip.
  rewrite (bind_run _ _ _ _ _ (askConstant_run env _ st false Hconst)).
  rewrite Hhook. unfold optimizeRef.
  destruct (createMemo_true_one_time_core
              (ObjectExpression
                 [("current",
                   match arguments with
                   | arg :: _ => arg
                   | [] => UnaryExpression "void" (NumericLiteral 0)
                   end)]) refType st eq_refl)
    as (v & st' & Hrun & Hpush & Hidx & Hother & Hc & Hp).
  exists v, st'. simpl in *. auto 10.
Qed.

Lemma forEach_length {X Y} (visit : X -> M Y) (xs : list X) :
  forall st, List.length (fst (forEach visit xs st)) = List.length xs.
Proof.
  induction xs as [| x rest IH]; intros st; simpl; [reflexivity |].
  unfold bind. destruct (visit x st) as [y st1].
  specialize (IH st1). destruct (forEach visit rest st1) as [ys st2].
  simpl in *. rewrite IH. reflexivity.
Qed.

(** X25.  A sequence expression that is neither skipped nor constant comes back
    as a sequence of as many expressions, without dependencies and not
    memoized itself. *)
Theorem sequence_expression_not_memoized (env : Env) (expressions : list expr)
    (st : Optimizer) :
  shouldSkipExpr env (SequenceExpression expressions) = false ->
  isConstant env st (SequenceExpression expressions) = false ->
  exists rewritten,
    fst (optimizeExpression env (SequenceExpression expressions) st)
    = plain (SequenceExpression rewritten)
    /\ List.length rewritten = List.length expressions.
Proof.
  intros Hskip Hconst.
  simpl. rewrite Hskip.
  rewrite (bind_run _ _ _ _ _ (askConstant_run env _ st false Hconst)).
  unfold bind.
  pose proof (forEach_length
                (fun e => o <- optimizeExpression env e ;; ret (oexpr o))
                expressions st) as Hlen.
  destruct (forEach _ expressions st) as [rs st1].
  exists rs. split; [reflexivity | exact Hlen].
Qed.

(** X26.  An assignment expression that is neither skipped nor constant comes
    back as an assignment with the same operator, with a list of
    dependencies and never as a memoized value; a target that is an
    identifier is kept as it is. *)
Theorem assignment_expression_not_memoized (env : Env) (operator : string)
    (l r : expr) (st : Optimizer) :
  shouldSkipExpr env (AssignmentExpression operator l r) = false ->
  isConstant env st (AssignmentExpression operator l r) = false ->
  exists l' r' deps,
    fst (optimizeExpression env (AssignmentExpression operator l r) st)
    = optimizedExpr (AssignmentExpression operator l' r') (DepsList deps) None
    /\ (isIdentifier l = true -> l' = l).
Proof.
  intros Hskip Hconst.
  simpl. rewrite Hskip.
  rewrite (bind_run _ _ _ _ _ (askConstant_run env _ st false Hconst)).
  unfold bind at 1.
  destruct (optimizeLValWith env l true _ st) as [lres st1] eqn:El.
  assert (Hl : isIdentifier l = true -> fst lres = l).
  { intros Hid. destruct l; try discriminate Hid.
    unfold optimizeLValWith, bind in El.
    destruct (match getBindingIdentifier env i with
              | Some binding => deleteOptimized binding
              | None => ret tt
              end st) as [u0 st0].
    inversion El. reflexivity. }
  unfold bind at 1.
  destruct (createDependencyOf (optimizeExpression env r) st1)
    as [[o |] st2] eqn:Er; simpl;
    do 3 eexists; (split; [reflexivity | exact Hl]).
Qed.

(* ================================================================== *)
(** ** Header declarations *)
(* ================================================================== *)

(** X20.  The root scope declares its headers with the final slot counts: when
    its last statement is not a [let] declaration, the declarators of its
    finalized statements are [memo = cache(useMemo, indecesMemo)] if it
    has a memo header, then [ref = ref(useRef, indecesRef)] if it has a ref
    header, then its own declarators. *)
Theorem root_headers_carry_final_counts (this : OptimizerScope) (u : nat)
    (l : list stmt) (last : stmt) :
  isInLoop this = false ->
  statements this = l ++ [last] ->
  notLet last = true ->
  letDeclarators (fst (fst (fst (Scope.getStatements this None u))))
  = match memo this with
    | Some h =>
      [variableDeclarator h
         (Some (callOf RUNTIME_CACHE
                  [Identifier preset_useMemo; numericLiteral (indecesMemo this)]))]
    | None => []
    end
    ++ match ref this with
       | Some h =>
         [variableDeclarator h
            (Some (callOf RUNTIME_REF
                     [Identifier preset_useRef; numericLiteral (indecesRef this)]))]
       | None => []
       end
    ++ letDeclarators (statements this).
Proof.
  intros Hloop Hsts Hlast.
  assert (Hform :
    fst (fst (fst (Scope.getStatements this None u)))
    = mergeVariableDeclaration
        ((match memo this with
          | Some h =>
            [letDeclaration
               [variableDeclarator h
                  (Some (callOf RUNTIME_CACHE
                           [Identifier preset_useMemo;
                            numericLiteral (indecesMemo this)]))]]
          | None => []
          end
          ++ match ref this with
             | Some h =>
               [letDeclaration
                  [variableDeclarator h
                     (Some (callOf RUNTIME_REF
                              [Identifier preset_useRef;
                               numericLiteral (indecesRef this)]))]]
             | None => []
             end
          ++ l) ++ [last])).
  { unfold Scope.getStatements, Scope.getDeclarations, Scope.typeHeader.
    rewrite Hloop, Hsts.
    destruct this as [m r im ir lp sts lm lr lu li oid cs].
    simpl in *. subst lp.
    destruct m, r; simpl; rewrite ?app_comm_cons, ?app_assoc; reflexivity. }
  rewrite Hform.
  unfold mergeVariableDeclaration.
  rewrite (mergeLoop_declarators _ last Hlast [] []). simpl.
  rewrite Hsts, <- !app_assoc, !letDeclarators_app.
  destruct (memo this), (ref this); simpl; rewrite ?app_nil_r; reflexivity.
Qed.

(** X21.  A scope with a parent that is not a loop body takes, for each cache it
    used, the next slot of that cache in the parent and forces the
    parent's header: it declares [own = branch(parentHeader, parentSlot,
    size)] with its own final count as size.  A cache it did not use costs
    the parent nothing, and the parent's statements are not touched. *)
Theorem child_branches_from_parent (this p : OptimizerScope) (u : nat)
    (l : list stmt) (last : stmt) :
  isInLoop this = false ->
  statements this = l ++ [last] ->
  notLet last = true ->
  let run := Scope.getStatements this (Some p) u in
  let used (o : option ident) := match o with Some _ => 1 | None => 0 end in
  exists q memoHeader refHeader,
    snd (fst run) = Some q
    /\ indecesMemo q = indecesMemo p + used (memo this)
    /\ indecesRef q = indecesRef p + used (ref this)
    /\ statements q = statements p
    /\ (forall h, memo this = Some h -> memo q = Some memoHeader)
    /\ (forall h, ref this = Some h -> ref q = Some refHeader)
    /\ letDeclarators (fst (fst (fst run)))
       = match memo this with
         | Some h =>
           [variableDeclarator h
              (Some (callOf RUNTIME_BRANCH
                       [Identifier memoHeader; numericLiteral (indecesMemo p);
                        numericLiteral (indecesMemo this)]))]
         | None => []
         end
         ++ match ref this with
            | Some h =>
              [variableDeclarator h
                 (Some (callOf RUNTIME_BRANCH
                          [Identifier refHeader; numericLiteral (indecesRef p);
                           numericLiteral (indecesRef this)]))]
            | None => []
            end
         ++ letDeclarators (statements this).
Proof.
  intros Hloop Hsts Hlast run used. subst run used.
  unfold Scope.getStatements, Scope.getDeclarations, Scope.typeHeader,
    Scope.createHeader, Scope.createIndex.
  rewrite Hloop.
  destruct this as [m r im ir lp sts lm lr lu li oid cs].
  destruct p as [pm pr pim pir plp psts plm plr plu pli poid pcs].
  simpl in *. subst lp sts.
  destruct m, r, pm, pr; simpl;
    do 3 eexists;
    (split; [reflexivity |]); simpl;
    (split; [lia |]); (split; [lia |]); (split; [reflexivity |]);
    (split; [intros ? H; try discriminate H; reflexivity |]);
    (split; [intros ? H; try discriminate H; reflexivity |]);
    unfold mergeVariableDeclaration;
    rewrite ?app_comm_cons;
    rewrite (mergeLoop_declarators _ last Hlast [] []); simpl;
    rewrite ?letDeclarators_app; reflexivity.
  Unshelve. all: exact (Import "").
Qed.

(* ================================================================== *)
(** ** The walk as a whole *)
(* ================================================================== *)

(** X16.  Optimizing an expression never undoes anything: in the current scope
    no slot counter decreases, statements are only appended, a header
    that is there stays, and the scope stays a loop body or not; the
    ancestors change in their optimized tables at most, and the uid
    generator never goes back. *)
Theorem optimizeExpression_never_undoes (env : Env) (node : expr)
    (st : Optimizer) :
  let st' := snd (optimizeExpression env node st) in
  indecesMemo (scope st) <= indecesMemo (scope st')
  /\ indecesRef (scope st) <= indecesRef (scope st')
  /\ (exists added, statements (scope st') = statements (scope st) ++ added)
  /\ (forall h, memo (scope st) = Some h -> memo (scope st') = Some h)
  /\ (forall h, ref (scope st) = Some h -> ref (scope st') = Some h)
  /\ isInLoop (scope st') = isInLoop (scope st)
  /\ Forall2 sameButOptimized (parents st) (parents st')
  /\ uids st <= uids st'.
Proof.
  intros st'. subst st'.
  destruct (extends_optimizeExpression env node st)
    as ((Hl & Hm & Hr & Hs & Hhm & Hhr) & Hp & Hu).
  repeat split; auto.
Qed.

(** X17.  Optimizing a statement never undoes anything: in the current scope no
    slot counter decreases, statements are only appended, a header that is
    there stays, and the scope stays a loop body or not; the ancestors
    change in their optimized tables at most, and the uid generator never
    goes back. *)
Theorem optimizeStatement_never_undoes (env : Env) (node : stmt)
    (topBlock : bool) (st : Optimizer) :
  let st' := snd (optimizeStatement env node topBlock st) in
  indecesMemo (scope st) <= indecesMemo (scope st')
  /\ indecesRef (scope st) <= indecesRef (scope st')
  /\ (exists added, statements (scope st') = statements (scope st) ++ added)
  /\ (forall h, memo (scope st) = Some h -> memo (scope st') = Some h)
  /\ (forall h, ref (scope st) = Some h -> ref (scope st') = Some h)
  /\ isInLoop (scope st') = isInLoop (scope st)
  /\ Forall2 sameButOptimized (parents st) (parents st')
  /\ uids st <= uids st'.
Proof.
  intros st'. subst st'.
  destruct (extends_optimizeStatement env node topBlock st)
    as ((Hl & Hm & Hr & Hs & Hhm & Hhr) & Hp & Hu).
  repeat split; auto.
Qed.

(** A child scope run and finalized at once leaves the statements of the
    current scope as they are. *)
Lemma finalizedChild_statements (body : M unit) (st : Optimizer) :
  keeps body ->
  statements (scope (snd (finalizedChild body st))) = statements (scope st).
Proof.
  intros Hbody. unfold finalizedChild.
  pose proof (inChildScope_statements false body st Hbody) as Hc.
  destruct (inChildScope false body st) as [[u0 child] st1] eqn:Ec.
  rewrite (bind_run _ _ _ _ _ Ec). cbn [fst snd] in *.
  unfold bind.
  destruct (getStatements_grows child (scope st1) (uids st1))
    as (l & this' & q & u' & Hrun & _ & Hsts & _).
  unfold getStatementsOf. rewrite Hrun. simpl. congruence.
Qed.

Lemma keeps_optimizeBlock (env : Env) (block : stmt) (body : list stmt) :
  keeps (if shouldSkipStmt env block then ret tt
         else forEach (fun s => optimizeStatement env s false) body ;;; ret tt).
Proof.
  destruct (shouldSkipStmt env block); [apply keeps_ret |].
  apply keeps_bind; [| intros; apply keeps_ret].
  apply keeps_forEach, Forall_forall. intros s _.
  apply keeps_optimizeStatement.
Qed.

(** X27.  A nested block, a labeled statement and a [try] statement each push
    exactly one statement into the current scope, of the same kind:
    nothing their children emit leaks into the current scope.  The label
    is kept, the labeled body becomes a block, and a [try] keeps a handler
    and a finalizer exactly when it had one. *)
Theorem nested_statement_pushed_whole (env : Env) (st : Optimizer) :
  (forall body,
     shouldSkipStmt env (BlockStatement body) = false ->
     exists block,
       statements
         (scope (snd (optimizeStatement env (BlockStatement body) false st)))
       = statements (scope st) ++ [BlockStatement block])
  /\ (forall label body,
        shouldSkipStmt env (LabeledStatement label body) = false ->
        exists block,
          statements
            (scope (snd (optimizeStatement env (LabeledStatement label body)
                           false st)))
          = statements (scope st)
              ++ [LabeledStatement label (BlockStatement block)])
  /\ (forall block handler finalizer,
        shouldSkipStmt env (TryStatement block handler finalizer) = false ->
        exists block' handler' finalizer',
          statements
            (scope (snd (optimizeStatement env
                           (TryStatement block handler finalizer) false st)))
          = statements (scope st)
              ++ [TryStatement block' handler' finalizer']
          /\ (handler = None <-> handler' = None)
          /\ (finalizer = None <-> finalizer' = None)).
Proof.
  split; [| split].
  - intros body Hskip. simpl. rewrite Hskip.
    pose proof (finalizedChild_statements _ st
                  (keeps_optimizeBlock env (BlockStatement body) body)) as Hc.
    rewrite Hskip in Hc. unfold bind at 1.
    destruct (finalizedChild _ st) as [b st1]. simpl in *.
    exists b. rewrite Hc. reflexivity.
  - intros label body Hskip. simpl. rewrite Hskip.
    pose proof (finalizedChild_statements _ st
                  (keeps_optimizeStatement env body false)) as Hc.
    unfold bind at 1.
    destruct (finalizedChild _ st) as [b st1]. simpl in *.
    exists b. rewrite Hc. reflexivity.
  - intros block handler finalizer Hskip. simpl. rewrite Hskip.
    pose proof (finalizedChild_statements _ st
                  (keeps_optimizeBlock env (BlockStatement block) block)) as Hb.
    unfold bind at 1.
    destruct (finalizedChild _ st) as [b st1]. cbn [fst snd] in Hb.
    assert (Hh : exists h' st2,
              (match handler with
               | Some h =>
                 b0 <- finalizedChild
                         (if shouldSkipStmt env (BlockStatement h) then ret tt
                          else forEach (fun s => optimizeStatement env s false) h
                               ;;; ret tt) ;;
                 ret (Some b0)
               | None => ret None
               end) st1 = (h', st2)
              /\ statements (scope st2) = statements (scope st1)
              /\ (handler = None <-> h' = None)).
    { destruct handler as [h |].
      - pose proof (finalizedChild_statements _ st1
                      (keeps_optimizeBlock env (BlockStatement h) h)) as Hc.
        unfold bind. destruct (finalizedChild _ st1) as [b0 st2].
        exists (Some b0), st2. simpl in *.
        repeat split; auto; discriminate.
      - exists None, st1. repeat split; auto. }
    destruct Hh as (h' & st2 & Eh & Hs2 & Hhn).
    rewrite (bind_run _ _ _ _ _ Eh).
    assert (Hf : exists f' st3,
              (match finalizer with
               | Some f =>
                 b0 <- finalizedChild
                         (if shouldSkipStmt env (BlockStatement f) then ret tt
                          else forEach (fun s => optimizeStatement env s false) f
                               ;;; ret tt) ;;
                 ret (Some b0)
               | None => ret None
               end) st2 = (f', st3)
              /\ statements (scope st3) = statements (scope st2)
              /\ (finalizer = None <-> f' = None)).
    { destruct finalizer as [f |].
      - pose proof (finalizedChild_statements _ st2
                      (keeps_optimizeBlock env (BlockStatement f) f)) as Hc.
        unfold bind. destruct (finalizedChild _ st2) as [b0 st3].
        exists (Some b0), st3. simpl in *.
        repeat split; auto; discriminate.
      - exists None, st2. repeat split; auto. }
    destruct Hf as (f' & st3 & Ef & Hs3 & Hfn).
    rewrite (bind_run _ _ _ _ _ Ef).
    exists b, h', f'. simpl. rewrite Hs3, Hs2, Hb. auto.
Qed.

(** X28.  A loop that is not a for-in or for-of pushes exactly two statements
    into the current scope: the loop memo declaration for the scope's next
    memo slot, then the loop with its head untouched (test, init and
    update are not optimized) and a block as its body. *)
Theorem loop_statement_pushed (env : Env) (head : loop_head) (body : stmt)
    (topBlock : bool) (st : Optimizer) :
  shouldSkipStmt env (LoopStatement head body) = false ->
  isForX head = false ->
  exists own id header block,
    statements
      (scope (snd (optimizeStatement env (LoopStatement head body) topBlock st)))
    = statements (scope st)
        ++ [loopMemoDeclaration own header (indecesMemo (scope st)) id;
            LoopStatement head (BlockStatement block)].
Proof.
  intros Hskip Hhead. simpl. rewrite Hskip.
  assert (Ehead :
    (match head with
     | ForInHead l r =>
       optimized <- optimizeExpression env r ;; ret (ForInHead l (oexpr optimized))
     | ForOfHead l r =>
       optimized <- optimizeExpression env r ;; ret (ForOfHead l (oexpr optimized))
     | _ => ret head
     end) st = (head, st)).
  { destruct head; try discriminate Hhead; reflexivity. }
  rewrite (bind_run _ _ _ _ _ Ehead).
  destruct (optimizeLoopStatementWith_run env body st)
    as (own & id & header & loopScope & memoPart & refPart & st' & Hrun & _ & _
        & _ & Hpush & _).
  rewrite (bind_run _ _ _ _ _ Hrun).
  exists own, id, header. eexists.
  unfold push. simpl. rewrite Hpush, <- app_assoc. reflexivity.
Qed.

Lemma mergeLoop_no_lets (l : list stmt) :
  Forall (fun s => notLet s = true) l ->
  forall acc, mergeLoop l [] acc = acc ++ l.
Proof.
  induction 1 as [| value rest Hv _ IH]; intros acc; simpl.
  - symmetry. apply app_nil_r.
  - unfold notLet in Hv.
    destruct value; simpl in Hv; rewrite ?IH, <- ?app_assoc; try reflexivity.
    destruct (String.eqb kind "let"); [discriminate |].
    rewrite ?IH, <- ?app_assoc. reflexivity.
Qed.

Lemma inert_statements_pushed (env : Env) (body : list stmt) :
  Forall (fun s => isInert s = true /\ shouldSkipStmt env s = false) body ->
  forall st,
    snd (forEach (fun s => optimizeStatement env s false) body st)
    = mkOptimizer (Scope.push body (scope st)) (parents st) (uids st).
Proof.
  induction 1 as [| s rest [Hs Hskip] _ IH]; intros st; simpl.
  - destruct st as [sc ps u]. destruct sc. unfold Scope.push. simpl.
    rewrite app_nil_r. reflexivity.
  - assert (Es : optimizeStatement env s false st
                 = (tt, mkOptimizer (Scope.push [s] (scope st)) (parents st)
                          (uids st))).
    { destruct s as [| | [a |] | | | | | | |]; try discriminate Hs;
        simpl; rewrite Hskip; reflexivity. }
    rewrite (bind_run _ _ _ _ _ Es).
    unfold bind. specialize (IH (mkOptimizer (Scope.push [s] (scope st))
                                   (parents st) (uids st))).
    destruct (forEach _ rest _) as [ys st2]. simpl in *. rewrite IH.
    unfold Scope.push. simpl. rewrite <- app_assoc. reflexivity.
Qed.

(** X29.  A component body that holds only statements the optimizer has no case
    for and bare [return]s, none of them skipped, is returned as it is:
    no cache is declared and no statement is changed. *)
Theorem inert_body_unchanged (env : Env) (body : list stmt) :
  shouldSkipStmt env (BlockStatement body) = false ->
  Forall (fun s => isInert s = true /\ shouldSkipStmt env s = false) body ->
  optimize env body = body.
Proof.
  intros Hskip Hbody.
  unfold optimize, optimizeFunctionComponent, optimizeBlock.
  rewrite Hskip. unfold bind.
  pose proof (inert_statements_pushed env body Hbody (newOptimizer 0)) as Hrun.
  destruct (forEach _ body (newOptimizer 0)) as [ys st1]. simpl in Hrun.
  subst st1. simpl.
  unfold getStatementsRoot, Scope.getStatements. simpl.
  unfold mergeVariableDeclaration. apply mergeLoop_no_lets.
  revert Hbody. apply Forall_impl. intros s [Hs _].
  destruct s as [| | [a |] | | | | | | |]; try discriminate Hs; reflexivity.
Qed.

(* ================================================================== *)
(** ** The further properties at work *)
(* ================================================================== *)

(** [{ return; let a = 1; }] is merged to [{ return; }], and a lone
    [let a = 1;] to nothing. *)
Lemma merge_drops_trailing_lets_witness :
  mergeVariableDeclaration
    ([ReturnStatement None]
       ++ [letDeclaration [variableDeclarator (Src 1 "a") (Some (NumericLiteral 1))]])
  = mergeVariableDeclaration [ReturnStatement None]
  /\ mergeVariableDeclaration
       [letDeclaration [variableDeclarator (Src 1 "a") (Some (NumericLiteral 1))]]
     = [].
Proof.
  apply (merge_drops_trailing_lets [ReturnStatement None]
           [letDeclaration
              [variableDeclarator (Src 1 "a") (Some (NumericLiteral 1))]]).
  repeat constructor.
Defined.

(** [let a = 1; let b; return;] keeps the declarators [a = 1] and [b]. *)
Lemma merge_keeps_declarators_witness :
  letDeclarators
    (mergeVariableDeclaration
       ([letDeclaration [variableDeclarator (Src 1 "a") (Some (NumericLiteral 1))];
         letDeclaration [variableDeclarator (Src 2 "b") None]]
          ++ [ReturnStatement None]))
  = [variableDeclarator (Src 1 "a") (Some (NumericLiteral 1));
     variableDeclarator (Src 2 "b") None].
Proof.
  rewrite (merge_keeps_declarators
             [letDeclaration
                [variableDeclarator (Src 1 "a") (Some (NumericLiteral 1))];
              letDeclaration [variableDeclarator (Src 2 "b") None]]
             (ReturnStatement None) eq_refl).
  reflexivity.
Defined.

(** The memo of [f + 1] under the guard [a && b] takes slot 0 of a fresh
    component. *)
Lemma createMemo_one_slot_one_statement_witness :
  exists n deps st',
    createMemo Samples.foreignSum
      (MDList [Some (Identifier (Uid 7 "equals")); Some (Identifier (Uid 8 "equals"))])
      memoType (newOptimizer 9)
    = (optimizedExpr (Identifier (Uid n "value")) deps None, st')
    /\ indecesMemo (scope st') = 1
    /\ indecesRef (scope st') = 0.
Proof.
  destruct (createMemo_one_slot_one_statement Samples.foreignSum
              (MDList [Some (Identifier (Uid 7 "equals"));
                       Some (Identifier (Uid 8 "equals"))])
              memoType (newOptimizer 9) eq_refl)
    as (n & gd & guard & deps & st' & Hrun & _ & _ & _ & _ & Hi & Ho & _).
  exists n, deps, st'. auto.
Defined.

(** Under the guard [_equals] the memo of [f + 1] declares the value
    alone. *)
Lemma createMemo_identifier_guard_witness :
  exists n st',
    createMemo Samples.foreignSum (MDExpr (Identifier (Uid 7 "equals")))
      memoType (newOptimizer 9)
    = (optimizedExpr (Identifier (Uid n "value"))
         (DepsOne (Identifier (Uid 7 "equals"))) None, st')
    /\ List.length (statements (scope st')) = 1.
Proof.
  destruct (createMemo_identifier_guard Samples.foreignSum
              (MDExpr (Identifier (Uid 7 "equals"))) memoType (newOptimizer 9)
              (Uid 7 "equals") eq_refl (or_introl eq_refl))
    as (n & st' & Hrun & Hs & _).
  exists n, st'. split; [exact Hrun | rewrite Hs; reflexivity].
Defined.

Lemma newScope_wellNamed (inLoop : bool) : wellNamed (newScope inLoop).
Proof. split; intros h H; discriminate H. Defined.

(** In a fresh component the memo header and the ref header differ. *)
Lemma createMemo_headers_outside_loops_witness :
  fst (memoHeader memoType (newOptimizer 0))
  <> fst (memoHeader refType (newOptimizer 0))
  /\ wellNamed
       (scope (snd (createMemo Samples.foreignSum MDOmitted memoType
                      (newOptimizer 0)))).
Proof.
  destruct (createMemo_headers_outside_loops Samples.foreignSum MDOmitted
              memoType (newOptimizer 0) eq_refl (newScope_wellNamed false))
    as (Hne & Hwn & _).
  split; assumption.
Defined.

Lemma getStatements_keeps_last_witness :
  exists pre,
    fst (fst (fst (Scope.getStatements blockScope (Some Samples.rootWithX) 6)))
    = pre ++ [assignTo (Uid 3 "value") (Identifier (Uid 5 "value"))].
Proof.
  destruct (getStatements_keeps_last blockScope (Some Samples.rootWithX) 6
              [oneTime (Uid 4 "cache") 0 Samples.foreignSum (Uid 5 "value")]
              (assignTo (Uid 3 "value") (Identifier (Uid 5 "value")))
              eq_refl eq_refl) as (Hlast & _).
  exact Hlast.
Defined.

Lemma getStatements_of_lets_only_witness :
  fst (fst (fst (Scope.getStatements letScope None 0))) = [].
Proof.
  apply (getStatements_of_lets_only letScope None 0).
  repeat constructor.
Defined.

Lemma root_headers_carry_final_counts_witness :
  letDeclarators (fst (fst (fst (Scope.getStatements blockScope None 6))))
  = [variableDeclarator (Uid 4 "cache")
       (Some (callOf RUNTIME_CACHE [Identifier preset_useMemo; numericLiteral 1]));
     variableDeclarator (Uid 5 "value")
       (Some (ConditionalExpression
                (BinaryExpression "in" (numericLiteral 0) (Identifier (Uid 4 "cache")))
                (MemberExpression (Identifier (Uid 4 "cache")) (numericLiteral 0) true)
                (AssignmentExpression "="
                   (MemberExpression (Identifier (Uid 4 "cache")) (numericLiteral 0) true)
                   Samples.foreignSum)))].
Proof.
  rewrite (root_headers_carry_final_counts blockScope 6
             [oneTime (Uid 4 "cache") 0 Samples.foreignSum (Uid 5 "value")]
             (assignTo (Uid 3 "value") (Identifier (Uid 5 "value")))
             eq_refl eq_refl eq_refl).
  reflexivity.
Defined.

Lemma child_branches_from_parent_witness :
  exists q,
    snd (fst (Scope.getStatements blockScope (Some Samples.rootWithX) 6)) = Some q
    /\ indecesMemo q = 2
    /\ indecesRef q = 0.
Proof.
  destruct (child_branches_from_parent blockScope Samples.rootWithX 6
              [oneTime (Uid 4 "cache") 0 Samples.foreignSum (Uid 5 "value")]
              (assignTo (Uid 3 "value") (Identifier (Uid 5 "value")))
              eq_refl eq_refl eq_refl)
    as (q & mh & rh & Hq & Hm & Hr & _).
  exists q. auto.
Defined.



(** [useRef(0)] *)
Lemma ref_call_takes_one_ref_slot_witness :
  exists v st',
    optimizeExpression Samples.env (Samples.call 5 "useRef" [NumericLiteral 0])
      (newOptimizer 0)
    = (optimizedExpr (Identifier v) (DepsList []) None, st')
    /\ indecesRef (scope st') = 1
    /\ indecesMemo (scope st') = 0.
Proof.
  destruct (ref_call_takes_one_ref_slot Samples.env (Identifier (Src 5 "useRef"))
              [NumericLiteral 0] (newOptimizer 0) eq_refl eq_refl eq_refl)
    as (v & st' & Hrun & _ & Hr & Hm & _).
  exists v, st'. auto.
Defined.

(** [(x, 1)] *)
Lemma sequence_expression_not_memoized_witness :
  exists rewritten,
    fst (optimizeExpression Samples.env
           (SequenceExpression [Samples.x_at 7; NumericLiteral 1])
           (newOptimizer 0))
    = plain (SequenceExpression rewritten)
    /\ List.length rewritten = 2.
Proof.
  apply (sequence_expression_not_memoized Samples.env
           [Samples.x_at 7; NumericLiteral 1] (newOptimizer 0) eq_refl eq_refl).
Defined.

(** [x = p] *)
Lemma assignment_expression_not_memoized_witness :
  exists r' deps,
    fst (optimizeExpression Samples.env
           (AssignmentExpression "=" (Samples.x_at 7) (Identifier (Src 8 "p")))
           (newOptimizer 0))
    = optimizedExpr (AssignmentExpression "=" (Samples.x_at 7) r')
        (DepsList deps) None.
Proof.
  destruct (assignment_expression_not_memoized Samples.env "=" (Samples.x_at 7)
              (Identifier (Src 8 "p")) (newOptimizer 0) eq_refl eq_refl)
    as (l' & r' & deps & Hres & Hl).
  exists r', deps. rewrite Hres, (Hl eq_refl). reflexivity.
Defined.

(** [while (true) { break; }] *)
Lemma loop_statement_pushed_witness :
  exists own id header block,
    statements
      (scope (snd (optimizeStatement Samples.env Samples.idleLoop false
                     (newOptimizer 0))))
    = [loopMemoDeclaration own header 0 id;
       LoopStatement (WhileHead (BooleanLiteral true)) (BlockStatement block)].
Proof.
  apply (loop_statement_pushed Samples.env (WhileHead (BooleanLiteral true))
           (BlockStatement [OtherStatement "BreakStatement"]) false
           (newOptimizer 0) eq_refl eq_refl).
Defined.

(** [function C() { debugger; return; }] *)
Lemma inert_body_unchanged_witness :
  optimize Samples.env [OtherStatement "DebuggerStatement"; ReturnStatement None]
  = [OtherStatement "DebuggerStatement"; ReturnStatement None].
Proof.
  apply (inert_body_unchanged Samples.env
           [OtherStatement "DebuggerStatement"; ReturnStatement None] eq_refl).
  repeat (constructor; [split; reflexivity |]). constructor.
Defined.
